(** * reeltube-cli: the multipart upload engine

    A shallow embedding of the API client ([client.go]: [DoRequest] and
    the domain methods) and of the [upload] command ([uploadCmd],
    [multipartUpload] and its worker pool), together with the properties
    of the upload engine that are proved about them.

    Conventions.
    - Go's [int] and [int64] are 64-bit two's complement integers; they are
      [Z] here, with the wrap-around of every arithmetic operation written
      out ([wrap]).
    - Go's [error] is the inductive type [error]; a [nil] error is [None]
      for functions that return only an error and [Ok _] for functions that
      return a value and an error.
    - Allocation ([make]) succeeds for every length that is not negative.
    - One call of [Read] on a regular file gives the bytes that the file
      has from the position of the descriptor on, up to the length asked
      for and up to 1 GiB ([maxRW]).
    - Everything the program obtains from outside (the file system, the
      network, the standard library's JSON and MIME tables) is a field of
      the record [World].
    - The goroutines of the worker pool are interleaved by an explicit
      schedule: [step] is one atomic action of the coordinator or of one
      worker, [run] executes a list of them.  The schedule also carries
      what the clock shows when a transfer ends.  The transfer of a part,
      from opening the file to the answer to its PUT request, is one
      action, [Finish]; its PUT request is listed among the [calls] by
      that action, so when the request has been answered. *)

From Stdlib Require Import ZArith Lia Ascii Floats Uint63.
From stdpp Require Import base option list strings gmap sorting.

Local Open Scope Z_scope.

(** ** Go integers *)

Definition int_min : Z := - 2 ^ 63.
Definition int_max : Z := 2 ^ 63 - 1.

(** The value an [int] holds after an operation whose exact result is [z]. *)
Definition wrap (z : Z) : Z := (z + 2 ^ 63) mod 2 ^ 64 - 2 ^ 63.

(** ** Errors *)

Inductive error : Type :=
| Raw (msg : string)                          (* produced by the OS, net/http or encoding/json *)
| EOF                                         (* io.EOF *)
| Wrap (context : string) (cause : error)     (* fmt.Errorf("context: %w", cause) *)
| WrapPart (context : string) (partNum : Z) (cause : error)
                                              (* fmt.Errorf("context %d: %w", partNum, cause) *)
| NonOKStatus (partNum : Z) (status : Z)      (* "failed to upload part %d: received non-200 status code %d" *)
| APIError (cause : error).                   (* fmt.Errorf("API error: %s", cause) *)

Inductive result (T : Type) : Type :=
| Ok (v : T)
| Err (e : error).
Arguments Ok {T} v.
Arguments Err {T} e.

Definition bind {A B} (r : result A) (k : A -> result B) : result B :=
  match r with
  | Ok v => k v
  | Err e => Err e
  end.

Notation "x <- r ;; k" := (bind r (fun x => k))
  (at level 100, r at next level, right associativity).

(** ** client.go *)

Record Client := {
  baseURL : string;
  apiKey : string;
  debug : bool
}.

(** [NewClient(baseURL, apiKey, debug...)]: the variadic [debug] is a list. *)
Definition NewClient (baseURL apiKey : string) (debug : list bool) : Client :=
  {| baseURL := baseURL; apiKey := apiKey; debug := hd false debug |}.

Record APIResponse (T : Type) := {
  Data : option T;
  Error : string;
  Status : Z
}.
Arguments Data {T} _.
Arguments Error {T} _.
Arguments Status {T} _.

Record Request := {
  Method : string;
  URL : string;
  Header : list (string * string);
  ReqBody : option string
}.

(** An HTTP response as the client sees it: the status code, the body (or
    the error that reading it gives) and the [ETag] header ([Header.Get]
    gives the empty string when the header is absent). *)
Record Response := {
  StatusCode : Z;
  Body : result string;
  HeaderETag : string
}.

(** encoding/json at one Go type.  [Marshal] is [json.Marshal];
    [Unmarshal text v] is [json.Unmarshal(text, &v)] and gives the new value
    of [v]; [Decode text v] is [json.NewDecoder(r).Decode(&v)] on a stream
    holding [text]. *)
Class JSON (T : Type) := {
  Marshal : T -> result string;
  Unmarshal : string -> T -> result T;
  Decode : string -> T -> result T
}.

(** The target of the debug dump, [map[string]interface{}]. *)
Inductive jsonMap : Type := JSONMap (text : string).

Record Part := {
  PartNumber : Z;
  ETag : option string          (* json.RawMessage; [None] is the nil slice *)
}.

Definition zeroPart : Part := {| PartNumber := 0; ETag := None |}.

Record MediaUpload := { ID : string }.

Record CreateMediaUploadResponse := {
  UploadID : string;
  PartSize : Z;
  NumParts : Z;
  PresignedURLs : list string;
  MediaUpload' : MediaUpload
}.

Definition zeroCreateMediaUploadResponse : CreateMediaUploadResponse :=
  {| UploadID := ""; PartSize := 0; NumParts := 0; PresignedURLs := [];
     MediaUpload' := {| ID := "" |} |}.

(** The body of [CreateMediaUpload]: [map[string]interface{}{"filename", "size"}]. *)
Record CreateMediaUploadRequest := {
  filename : string;
  size : Z
}.

Record CompleteUploadRequest := {
  MediaUploadID : string;
  CompleteUploadID : string;
  Parts : list Part
}.

(** What the network does: the part of the world [client.go] talks to. *)
Record Network := {
  JoinPath : string -> string -> string;                        (* url.JoinPath, its error dropped *)
  NewRequest : string -> string -> option string -> result Request;   (* http.NewRequest *)
  Do : Request -> result Response                                (* c.httpClient.Do *)
}.

Section ClientMethods.
Context (net : Network).
Context `{JSON string} `{JSON jsonMap}.

Definition setHeader (k v : string) (req : Request) : Request :=
  {| Method := Method req; URL := URL req;
     Header := (k, v) :: filter (fun kv => kv.1 <> k) (Header req);
     ReqBody := ReqBody req |}.

(** [DoRequest] gives the [APIResponse] together with the value left in
    [*target]. *)
Definition DoRequest {P T : Type} `{JSON P} `{JSON T}
    (c : Client) (method path : string) (params : option P) (target : T)
    : result (APIResponse T * T) :=
  let fullURL := JoinPath net (baseURL c) path in
  body <- match params with
          | Some p => jsonData <- Marshal p ;; Ok (Some jsonData)
          | None => Ok None
          end ;;
  req <- NewRequest net method fullURL body ;;
  let req := setHeader "Authorization" ("Bearer " +:+ apiKey c) req in
  let req := setHeader "Content-Type" "application/json" req in
  resp <- Do net req ;;
  if (StatusCode resp <? 200) || (300 <=? StatusCode resp) then
    (* Parse error message assuming API errors are JSON *)
    match text <- Body resp ;; Decode text "" with
    | Err e => Err (APIError e)
    | Ok msg => Ok ({| Data := None; Error := msg; Status := StatusCode resp |}, target)
    end
  else
    respBodyBytes <- Body resp ;;
    _ <- (if debug c then Unmarshal respBodyBytes (JSONMap "") else Ok (JSONMap "")) ;;
    data <- Unmarshal respBodyBytes target ;;
    Ok ({| Data := Some data; Error := ""; Status := StatusCode resp |}, data).

Definition Post {P T : Type} `{JSON P} `{JSON T}
    (c : Client) (path : string) (params : option P) (target : T) :=
  DoRequest c "POST" path params target.

Context `{JSON CreateMediaUploadRequest} `{JSON CreateMediaUploadResponse}
        `{JSON CompleteUploadRequest}.

Definition CreateMediaUpload (c : Client) (fileName : string) (fileSize : Z)
    : result CreateMediaUploadResponse :=
  let data := zeroCreateMediaUploadResponse in
  let body := {| filename := fileName; size := fileSize |} in
  match Post c "/api/v0/media_uploads" (Some body) data with
  | Err err => Err err
  | Ok (_, data) => Ok data
  end.

Definition CompleteMultipartUpload (c : Client) (mediaUploadID uploadID : string)
    (parts : list Part) : option error :=
  let data := zeroCreateMediaUploadResponse in
  let body := {| MediaUploadID := mediaUploadID; CompleteUploadID := uploadID;
                 Parts := parts |} in
  match Post c ("/api/v0/media_uploads/" +:+ mediaUploadID +:+ "/complete")
             (Some body) data with
  | Err err => Some err
  | Ok _ => None
  end.
End ClientMethods.

(** ** The world outside the program *)

(** The places where the program touches the file: the validation in the
    [upload] command and the worker that transfers part [partNum]. *)
Inductive site : Type :=
| Validation
| Worker (partNum : Z).

Record Codec := {
  json_string : JSON string;
  json_map : JSON jsonMap;
  json_create_request : JSON CreateMediaUploadRequest;
  json_create_response : JSON CreateMediaUploadResponse;
  json_complete_request : JSON CompleteUploadRequest
}.

Record World := {
  NumCPU : Z;                                       (* runtime.NumCPU() *)
  Abs : string -> result string;                    (* filepath.Abs *)
  Base : string -> string;                          (* filepath.Base *)
  ToLower : string -> string;                       (* strings.ToLower *)
  TypeByExtension : string -> string;               (* mime.TypeByExtension *)
  DetectContentType : list Byte.byte -> string;     (* http.DetectContentType *)
  file : string -> option (list Byte.byte);         (* the bytes of the file at a path, if it exists *)
  lookup_error : string -> option error;            (* for a path without a file: the error of looking
                                                       it up, when it is not "does not exist"
                                                       (ENOTDIR, EACCES on a directory, ...) *)
  stat_error : string -> option error;              (* an error of os.Stat on an existing file *)
  open_error : site -> option error;                (* an error of os.Open on an existing file *)
  seek_error : site -> option error;                (* an I/O error of Seek to a valid offset *)
  read_error : site -> option string;               (* an I/O error of Read, which is not io.EOF *)
  put_request_error : string -> option error;       (* the error of http.NewRequest("PUT", url, _) *)
  put : Z -> string -> list Byte.byte -> result Response;
                                                    (* http.DefaultClient.Do for the PUT of a part *)
  client : Client;                                  (* the global [client] *)
  network : Network;
  codec : Codec
}.

(** ** File operations *)

(** The error of [os.Stat] and of [os.Open] on a path without a file. *)
Definition missing (w : World) (path : string) : error :=
  default (Raw "no such file or directory") (lookup_error w path).

(** [os.Stat]: the size of the file, or an error. *)
Definition Stat (w : World) (path : string) : result Z :=
  match file w path with
  | None => Err (missing w path)
  | Some data =>
    match stat_error w path with
    | Some e => Err e
    | None => Ok (Z.of_nat (length data))
    end
  end.

(** [os.IsNotExist] of the error of [os.Stat]: it holds of "does not exist"
    only, not of the other errors of a lookup. *)
Definition notExist (w : World) (path : string) : bool :=
  match file w path with
  | None =>
    match lookup_error w path with
    | None => true
    | Some _ => false
    end
  | Some _ => false
  end.

(** [os.Open]: a descriptor on the bytes of the file. *)
Definition Open (w : World) (s : site) (path : string) : result (list Byte.byte) :=
  match file w path with
  | None => Err (missing w path)
  | Some data =>
    match open_error w s with
    | Some e => Err e
    | None => Ok data
    end
  end.

(** [file.Seek(offset, io.SeekStart)]: a negative offset is refused, an
    offset past the end is not. *)
Definition Seek (w : World) (s : site) (offset : Z) : option error :=
  if offset <? 0 then Some (Raw "invalid argument") else seek_error w s.

(** The [n] bytes of the file from position [pos] on, or those there are. *)
Definition bytesAt (data : list Byte.byte) (pos n : Z) : list Byte.byte :=
  take (Z.to_nat n) (drop (Z.to_nat pos) data).

(** The most that one call of [Read] transfers ([maxRW] of internal/poll):
    1 GiB. *)
Definition maxRW : Z := 2 ^ 30.

(** [file.Read(b)] with [len(b) = n] on a descriptor at position [pos]:
    the bytes read and the error.  One call on a regular file gives the
    bytes the file has from [pos] on, up to [n] and up to [maxRW] of them;
    no byte with [n > 0] is [io.EOF]. *)
Definition Read (w : World) (s : site) (data : list Byte.byte) (pos n : Z)
    : list Byte.byte * option error :=
  match read_error w s with
  | Some msg => ([], Some (Raw msg))
  | None =>
    let got := bytesAt data pos (Z.min n maxRW) in
    (got, if decide (got = [] /\ 0 < n) then Some EOF else None)
  end.

(** ** The [upload] command *)

Definition defaultConcurrency : Z := 5.

Definition allowedExtensions : gmap string bool :=
  list_to_map [(".jpg", true); (".jpeg", true); (".png", true); (".gif", true);
               (".mp4", true); (".mov", true); (".avi", true); (".mkv", true)].

Definition allowedMIMEs : gmap string bool :=
  list_to_map [("image/jpeg", true); ("image/png", true); ("image/gif", true);
               ("video/mp4", true); ("video/quicktime", true);
               ("video/x-msvideo", true); ("video/x-matroska", true)].

(** [m[k]] on a [map[string]bool]: [false] for a missing key. *)
Definition index (m : gmap string bool) (k : string) : bool := default false (m !! k).

(** [filepath.Ext]: the suffix from the last dot of the last path element. *)
Fixpoint Ext_from (path found : string) : string :=
  match path with
  | EmptyString => found
  | String c rest =>
    if Ascii.eqb c "/"%char then Ext_from rest ""
    else if Ascii.eqb c "."%char then Ext_from rest path
    else Ext_from rest found
  end.

Definition Ext (path : string) : string := Ext_from path "".

(** The messages with which the command leaves through [os.Exit(1)]. *)
Inductive exit : Type :=
| FilePathRequired
| InvalidFilePath (e : error)
| FileDoesNotExist (absPath : string)
| FileTypeNotAllowed (ext : string)
| UnableToOpenFile (e : error)
| UnableToReadFile (e : error)
| MIMETypeNotAllowed (mimeType : string)
| ErrorUploadingFile (e : error).

(** [buffer := make([]byte, 512)] after [file.Read(buffer)] has put [got] in it. *)
Definition buffer512 (got : list Byte.byte) : list Byte.byte :=
  got ++ replicate (512 - length got)%nat Byte.x00.

Definition resolveMIME (w : World) (ext : string) (buffer : list Byte.byte) : string :=
  let mimeType := TypeByExtension w ext in
  if decide (mimeType = "") then DetectContentType w buffer else mimeType.

(** The command up to the call of [multipartUpload]: the absolute path and
    the upload name it passes on, or the exit it takes. *)
Definition validate (w : World) (filePath uploadName : string) : exit + (string * string) :=
  if decide (filePath = "") then inl FilePathRequired else
  match Abs w filePath with
  | Err err => inl (InvalidFilePath err)
  | Ok absPath =>
    if notExist w absPath then inl (FileDoesNotExist absPath) else
    let ext := ToLower w (Ext absPath) in
    if negb (index allowedExtensions ext) then inl (FileTypeNotAllowed ext) else
    match Open w Validation absPath with
    | Err err => inl (UnableToOpenFile err)
    | Ok data =>
      match Read w Validation data 0 512 with
      | (_, Some err) => inl (UnableToReadFile err)
      | (got, None) =>
        let mimeType := resolveMIME w ext (buffer512 got) in
        if negb (index allowedMIMEs mimeType) then inl (MIMETypeNotAllowed mimeType) else
        inr (absPath, if decide (uploadName = "") then Base w absPath else uploadName)
      end
    end
  end.

(** ** The progress estimate *)

(** [float64(z)] for an [int] in [(-2^63, 2^63)]. *)
Definition float64 (z : Z) : float :=
  if z <? 0 then PrimFloat.opp (PrimFloat.of_uint63 (Uint63.of_Z (- z)))
  else PrimFloat.of_uint63 (Uint63.of_Z z).

(** [int(f)] for a finite [f]: the fractional part is dropped. *)
Definition int (f : float) : Z :=
  match Prim2SF f with
  | S754_finite s m e =>
    let v := if 0 <=? e then Z.pos m * 2 ^ e else Z.pos m / 2 ^ (- e) in
    wrap (if s then - v else v)
  | _ => 0
  end.

Definition Second : Z := 1000000000.

(** [time.Duration.Seconds], on a duration in nanoseconds. *)
Definition Seconds (d : Z) : float :=
  let sec := Z.quot d Second in
  let nsec := Z.rem d Second in
  (float64 sec + float64 nsec / 1000000000)%float.

(** The [remaining] duration of the worker loop, in nanoseconds, from the
    index of the part that has just been stored and the time elapsed. *)
Definition remaining (numParts partNum elapsed : Z) : Z :=
  wrap (wrap ((numParts - partNum - 1) * int (Seconds elapsed / float64 (partNum + 1))%float)
        * Second).

(** ** The transfer of one part *)

Inductive panic : Type :=
| MakeChanSizeOutOfRange                   (* make(chan int, numParts), numParts < 0 *)
| IndexOutOfRange (i : Z) (len : nat)      (* presignedURLs[partNum], parts[partNum] *)
| MakeSliceLenOutOfRange                   (* make([]byte, partSize), partSize < 0 *)
| SliceBoundsOutOfRange (hi cap : Z).      (* buffer[:readSize] *)

(** [l[i]] on a slice: [None] is the index-out-of-range panic. *)
Definition at_index {A : Type} (l : list A) (i : Z) : option A :=
  if i <? 0 then None else l !! Z.to_nat i.

(** What [multipartUpload] has in hand once the session is negotiated. *)
Record Upload := {
  filePath : string;
  fileSize : Z;
  concurrency : Z;
  session : CreateMediaUploadResponse
}.

Definition partSize (u : Upload) : Z := PartSize (session u).
Definition numParts (u : Upload) : Z := NumParts (session u).
Definition presignedURLs (u : Upload) : list string := PresignedURLs (session u).

Definition partOffset (u : Upload) (partNum : Z) : Z := wrap (partNum * partSize u).

Definition readSize (u : Upload) (partNum : Z) : Z :=
  if fileSize u <? wrap (partOffset u partNum + partSize u)
  then wrap (fileSize u - partOffset u partNum)
  else partSize u.

Inductive transfer : Type :=
| Panics (p : panic)
| Fails (e : error)
| Uploads (url : string) (body : list Byte.byte) (resp : Response).

(** The part of the loop body before the PUT: the target and the bytes
    [buffer[:n]] of the request. *)
Inductive prepared : Type :=
| Panicked (p : panic)
| Failed (e : error)
| Ready (url : string) (body : list Byte.byte).

(** [err != nil && err != io.EOF]: the error, when it is one to report. *)
Definition notEOF (err : option error) : option error :=
  match err with
  | Some EOF => None
  | _ => err
  end.

Definition prepare (w : World) (u : Upload) (partNum : Z) : prepared :=
  match at_index (presignedURLs u) partNum with
  | None => Panicked (IndexOutOfRange partNum (length (presignedURLs u)))
  | Some url =>
    if partSize u <? 0 then Panicked MakeSliceLenOutOfRange else
    match Open w (Worker partNum) (filePath u) with
    | Err err => Failed (Wrap "failed to open file" err)
    | Ok data =>
      match Seek w (Worker partNum) (partOffset u partNum) with
      | Some err => Failed (WrapPart "failed to seek file for part" partNum err)
      | None =>
        let readSize := readSize u partNum in
        if (readSize <? 0) || (partSize u <? readSize)
        then Panicked (SliceBoundsOutOfRange readSize (partSize u)) else
        let '(got, err) := Read w (Worker partNum) data (partOffset u partNum) readSize in
        match notEOF err with
        | Some err => Failed (WrapPart "failed to read file for part" partNum err)
        | None =>
          match put_request_error w url with
          | Some err => Failed (WrapPart "failed to create PUT request for part" partNum err)
          | None => Ready url got
          end
        end
      end
    end
  end.

(** The whole loop body up to the status check. *)
Definition transferPart (w : World) (u : Upload) (partNum : Z) : transfer :=
  match prepare w u partNum with
  | Panicked p => Panics p
  | Failed e => Fails e
  | Ready url body =>
    match put w partNum url body with
    | Err err => Fails (WrapPart "failed to upload part" partNum err)
    | Ok resp =>
      if negb (StatusCode resp =? 200)
      then Fails (NonOKStatus partNum (StatusCode resp))
      else Uploads url body resp
    end
  end.

(** The entry [parts[partNum]] written after a PUT answered 200. *)
Definition partOf (partNum : Z) (resp : Response) : Part :=
  {| PartNumber := partNum + 1; ETag := Some (HeaderETag resp) |}.

(** ** [multipartUpload] *)

Definition systemConcurrency (w : World) : Z :=
  let numCores := NumCPU w in
  if 1 <? numCores then numCores else defaultConcurrency.

Definition createMediaUpload (w : World) (fileName : string) (fileSize : Z)
    : result CreateMediaUploadResponse :=
  match @CreateMediaUpload (network w) (json_string (codec w)) (json_map (codec w))
          (json_create_request (codec w)) (json_create_response (codec w))
          (client w) fileName fileSize with
  | Err err => Err (Wrap "failed to get presigned URLs from API" err)
  | Ok presignedURLResp => Ok presignedURLResp
  end.

Definition completeMultipartUpload (w : World) (mediaUploadId uploadID : string)
    (parts : list Part) : option error :=
  match @CompleteMultipartUpload (network w) (json_string (codec w)) (json_map (codec w))
          (json_create_response (codec w)) (json_complete_request (codec w))
          (client w) mediaUploadId uploadID parts with
  | Some err => Some (Wrap "failed to complete multipart upload" err)
  | None => None
  end.

(** The calls that have left the process and have ended, in the order they
    ended: [CreateCall] and [CompleteCall] are the calls of
    [createMediaUpload] and [completeMultipartUpload], [PutCall] is the PUT
    request of a part, listed when [http.DefaultClient.Do] has returned
    (a request in flight is not listed yet). *)
Inductive call : Type :=
| CreateCall (fileName : string) (fileSize : Z)
| PutCall (partNum : Z) (url : string) (body : list Byte.byte)
| CompleteCall (mediaUploadId uploadID : string) (parts : list Part).

Inductive status : Type :=
| Running
| Crashed (p : panic)
| Returned (err : option error).

(** The state of [multipartUpload] while the pool runs.  The worker
    goroutines are the same closure, so the pool is recorded by how many
    workers are at each point of the loop: [idle] at [range jobs], [busy]
    with a part in flight, [reporting] with an error to send on [errChan],
    [exited] after the loop ended and [failed] after the send.
    [failures] and [completed] are the history of the run, in the order the
    transfers ended; the program does not read them. *)
Record State := {
  state : status;
  next : Z;                          (* i of the loop that sends the jobs *)
  closed : bool;                     (* close(jobs) *)
  jobs : list Z;
  idle : nat;
  busy : list Z;
  reporting : list error;
  exited : nat;
  failed : nat;
  errChan : list error;
  parts : list Part;
  bar : Z;                           (* the counter of the progress bar *)
  label : option Z;                  (* the duration shown as "ETA: ..." *)
  calls : list call;
  failures : list (Z * error);
  completed : list Z
}.

Definition init (u : Upload) : State :=
  {| state := if numParts u <? 0 then Crashed MakeChanSizeOutOfRange else Running;
     next := 0; closed := false; jobs := [];
     idle := Z.to_nat (concurrency u); busy := []; reporting := [];
     exited := 0; failed := 0;
     errChan := [];
     parts := replicate (length (presignedURLs u)) zeroPart;
     bar := 0; label := None; calls := [];
     failures := []; completed := [] |}.

Inductive action : Type :=
| Send                               (* jobs <- i; i++ *)
| CloseJobs                          (* close(jobs) *)
| Receive                            (* a worker takes partNum from jobs *)
| Finish (k : nat) (elapsed : Z)     (* the k-th transfer in flight ends *)
| Report (k : nat)                   (* errChan <- err; return *)
| Leave                              (* range jobs ends; the worker returns *)
| Collect.                           (* wg.Wait() returns; the rest of the function *)

Definition putCalls (w : World) (u : Upload) (partNum : Z) : list call :=
  match prepare w u partNum with
  | Ready url body => [PutCall partNum url body]
  | _ => []
  end.

Definition crash (p : panic) (st : State) : State :=
  {| state := Crashed p;
     next := next st; closed := closed st; jobs := jobs st;
     idle := idle st; busy := busy st; reporting := reporting st;
     exited := exited st; failed := failed st;
     errChan := errChan st; parts := parts st;
     bar := bar st; label := label st; calls := calls st;
     failures := failures st; completed := completed st |}.

(** One action of the schedule; an action that cannot happen in [st]
    leaves it as it is.  A send on a full channel and a receive on an
    empty one cannot happen: the goroutine waits.  [i + 1] and
    [partNum + 1] do not wrap around, [i] and [partNum] being below
    [numParts]. *)
Definition step (w : World) (u : Upload) (a : action) (st : State) : State :=
  match state st with
  | Crashed _ | Returned _ => st
  | Running =>
    match a with
    | Send =>
      if negb (closed st) && (next st <? numParts u)
         && (Z.of_nat (length (jobs st)) <? numParts u)
      then {| state := Running;
              next := next st + 1; closed := closed st; jobs := jobs st ++ [next st];
              idle := idle st; busy := busy st; reporting := reporting st;
              exited := exited st; failed := failed st;
              errChan := errChan st; parts := parts st;
              bar := bar st; label := label st; calls := calls st;
              failures := failures st; completed := completed st |}
      else st
    | CloseJobs =>
      if negb (closed st) && negb (next st <? numParts u)
      then {| state := Running;
              next := next st; closed := true; jobs := jobs st;
              idle := idle st; busy := busy st; reporting := reporting st;
              exited := exited st; failed := failed st;
              errChan := errChan st; parts := parts st;
              bar := bar st; label := label st; calls := calls st;
              failures := failures st; completed := completed st |}
      else st
    | Receive =>
      match idle st, jobs st with
      | S n, partNum :: rest =>
        {| state := Running;
           next := next st; closed := closed st; jobs := rest;
           idle := n; busy := busy st ++ [partNum]; reporting := reporting st;
           exited := exited st; failed := failed st;
           errChan := errChan st; parts := parts st;
           bar := bar st; label := label st; calls := calls st;
           failures := failures st; completed := completed st |}
      | _, _ => st
      end
    | Finish k elapsed =>
      match busy st !! k with
      | None => st
      | Some partNum =>
        match transferPart w u partNum with
        | Panics p => crash p st
        | Fails err =>
          {| state := Running;
             next := next st; closed := closed st; jobs := jobs st;
             idle := idle st; busy := delete k (busy st);
             reporting := reporting st ++ [err];
             exited := exited st; failed := failed st;
             errChan := errChan st; parts := parts st;
             bar := bar st; label := label st;
             calls := calls st ++ putCalls w u partNum;
             failures := failures st ++ [(partNum, err)]; completed := completed st |}
        | Uploads _ _ resp =>
          match at_index (parts st) partNum with
          | None => crash (IndexOutOfRange partNum (length (parts st))) st
          | Some _ =>
            {| state := Running;
               next := next st; closed := closed st; jobs := jobs st;
               idle := S (idle st); busy := delete k (busy st);
               reporting := reporting st;
               exited := exited st; failed := failed st;
               errChan := errChan st;
               parts := <[Z.to_nat partNum := partOf partNum resp]> (parts st);
               bar := bar st + 1;
               label := Some (remaining (numParts u) partNum elapsed);
               calls := calls st ++ putCalls w u partNum;
               failures := failures st; completed := completed st ++ [partNum] |}
          end
        end
      end
    | Report k =>
      match reporting st !! k with
      | None => st
      | Some err =>
        if (length (errChan st) <? length (presignedURLs u))%nat
        then {| state := Running;
                next := next st; closed := closed st; jobs := jobs st;
                idle := idle st; busy := busy st;
                reporting := delete k (reporting st);
                exited := exited st; failed := S (failed st);
                errChan := errChan st ++ [err]; parts := parts st;
                bar := bar st; label := label st; calls := calls st;
                failures := failures st; completed := completed st |}
        else st
      end
    | Leave =>
      match idle st, jobs st with
      | S n, [] =>
        if closed st
        then {| state := Running;
                next := next st; closed := closed st; jobs := jobs st;
                idle := n; busy := busy st; reporting := reporting st;
                exited := S (exited st); failed := failed st;
                errChan := errChan st; parts := parts st;
                bar := bar st; label := label st; calls := calls st;
                failures := failures st; completed := completed st |}
        else st
      | _, _ => st
      end
    | Collect =>
      match closed st, idle st, busy st, reporting st with
      | true, O, [], [] =>
        match errChan st with
        | err :: _ =>
          {| state := Returned (Some err);
             next := next st; closed := closed st; jobs := jobs st;
             idle := idle st; busy := busy st; reporting := reporting st;
             exited := exited st; failed := failed st;
             errChan := errChan st; parts := parts st;
             bar := bar st; label := label st; calls := calls st;
             failures := failures st; completed := completed st |}
        | [] =>
          let mediaUpload := MediaUpload' (session u) in
          let uploadID := UploadID (session u) in
          {| state :=
               Returned
                 match completeMultipartUpload w (ID mediaUpload) uploadID (parts st) with
                 | Some err => Some (Wrap "failed to complete multipart upload" err)
                 | None => None
                 end;     (* return nil *)
             next := next st; closed := closed st; jobs := jobs st;
             idle := idle st; busy := busy st; reporting := reporting st;
             exited := exited st; failed := failed st;
             errChan := errChan st; parts := parts st;
             bar := bar st; label := label st;
             calls := calls st ++ [CompleteCall (ID mediaUpload) uploadID (parts st)];
             failures := failures st; completed := completed st |}
        end
      | _, _, _, _ => st
      end
    end
  end.

(** The state after a schedule. *)
Definition run (w : World) (u : Upload) (sched : list action) (st : State) : State :=
  foldl (fun st a => step w u a st) st sched.

(** [st] with the calls [cs]. *)
Definition withCalls (cs : list call) (st : State) : State :=
  {| state := state st;
     next := next st; closed := closed st; jobs := jobs st;
     idle := idle st; busy := busy st; reporting := reporting st;
     exited := exited st; failed := failed st;
     errChan := errChan st; parts := parts st;
     bar := bar st; label := label st; calls := cs;
     failures := failures st; completed := completed st |}.

(** The state of a call that returns [err] before the pool is started. *)
Definition returnsBeforePool (err : error) (cs : list call) : State :=
  {| state := Returned (Some err);
     next := 0; closed := false; jobs := [];
     idle := 0; busy := []; reporting := [];
     exited := 0; failed := 0;
     errChan := []; parts := [];
     bar := 0; label := None; calls := cs;
     failures := []; completed := [] |}.

Definition upload (w : World) (filePath : string) (fileSize : Z)
    (createMediaUploadResp : CreateMediaUploadResponse) : Upload :=
  {| filePath := filePath; fileSize := fileSize;
     concurrency := systemConcurrency w;
     session := createMediaUploadResp |}.

(** The state [multipartUpload] is in after the schedule [sched] of its
    goroutines, from the call on.  [int(fileSize)] is [fileSize]. *)
Definition multipartUpload (w : World) (filePath fileName : string)
    (sched : list action) : State :=
  match Stat w filePath with
  | Err err => returnsBeforePool (Wrap "failed to get file info" err) []
  | Ok fileSize =>
    match createMediaUpload w fileName fileSize with
    | Err err =>
      returnsBeforePool (Wrap "failed to get presigned URLs" err)
                        [CreateCall fileName fileSize]
    | Ok createMediaUploadResp =>
      let u := upload w filePath fileSize createMediaUploadResp in
      let st := run w u sched (init u) in
      withCalls (CreateCall fileName fileSize :: calls st) st
    end
  end.

(** How the command ends. *)
Inductive outcome : Type :=
| Exit1 (msg : exit)                 (* os.Exit(1) *)
| Panic (p : panic)                  (* the process dies of a run-time panic *)
| Unfinished                         (* the schedule stops before the command ends *)
| Success.                           (* "File uploaded successfully" *)

(** The [upload] command under a schedule: how it ends and the calls made. *)
Definition uploadCmd (w : World) (filePath uploadName : string) (sched : list action)
    : outcome * list call :=
  match validate w filePath uploadName with
  | inl msg => (Exit1 msg, [])
  | inr (absPath, uploadName) =>
    let st := multipartUpload w absPath uploadName sched in
    (match state st with
     | Running => Unfinished
     | Crashed p => Panic p
     | Returned (Some err) => Exit1 (ErrorUploadingFile err)
     | Returned None => Success
     end, calls st)
  end.

(** ** Sample worlds

    Concrete worlds on which the definitions above are evaluated.  The
    control plane answers at [https://api.reel.tube]; the texts ["session"]
    and ["done"] stand for the JSON documents of its two answers. *)

Definition quote : string := String "034"%char "".

(** encoding/json on a Go [string], for texts without escapes: a quoted
    text gives its content, [null] leaves the value, the rest is an error. *)
Definition decodeString (text v : string) : result string :=
  if decide (text = "null") then Ok v
  else match text with
       | String c rest =>
         if Ascii.eqb c "034"%char && bool_decide (String.length rest <> 0%nat)
            && bool_decide (String.substring (String.length rest - 1) 1 rest = quote)
         then Ok (String.substring 0 (String.length rest - 1) rest)
         else Err (Raw "json: cannot unmarshal into Go value of type string")
       | EmptyString => Err EOF
       end.

Definition decodeSession (s : CreateMediaUploadResponse) (text : string)
    (v : CreateMediaUploadResponse) : result CreateMediaUploadResponse :=
  if decide (text = "session") then Ok s
  else if decide (text = "done") then Ok v
  else Err (Raw "json: cannot unmarshal into Go value of type CreateMediaUploadResponse").

(** encoding/json on [map[string]interface{}]: the texts ["session"],
    ["done"] and ["me"], which stand for JSON objects, are decoded, [null]
    leaves the value, and no other text is an object. *)
Definition decodeObject (text : string) (v : jsonMap) : result jsonMap :=
  if decide (text = "null") then Ok v
  else if bool_decide (text = "session") || bool_decide (text = "done")
          || bool_decide (text = "me")
  then Ok (JSONMap text)
  else Err (Raw "json: cannot unmarshal into Go value of type map[string]interface {}").

(** [json.Marshal] of an [ETag]: a [json.RawMessage] is written as it is
    and must be JSON, the nil slice is written as [null].  Of JSON the
    sample worlds have quoted texts and [null]. *)
Definition validRawMessage (etag : option string) : bool :=
  match etag with
  | None => true
  | Some text =>
    match decodeString text "" with
    | Ok _ => true
    | Err _ => false
    end
  end.

(** [json.Marshal] of the body of the completion; the error stands for the
    one of encoding/json, which also says where the text stops being JSON. *)
Definition marshalCompletion (r : CompleteUploadRequest) : result string :=
  if forallb (fun p => validRawMessage (ETag p)) (Parts r) then Ok "{}"
  else Err (Raw "json: error calling MarshalJSON for type json.RawMessage").

Definition sampleCodec (s : CreateMediaUploadResponse) : Codec :=
  {| json_string :=
       {| Marshal := fun _ => Ok "text"; Unmarshal := decodeString; Decode := decodeString |};
     json_map :=
       {| Marshal := fun _ => Ok "{}"; Unmarshal := decodeObject; Decode := decodeObject |};
     json_create_request :=
       {| Marshal := fun _ => Ok "{}"; Unmarshal := fun _ v => Ok v; Decode := fun _ v => Ok v |};
     json_create_response :=
       {| Marshal := fun _ => Ok "{}"; Unmarshal := decodeSession s; Decode := decodeSession s |};
     json_complete_request :=
       {| Marshal := marshalCompletion; Unmarshal := fun _ v => Ok v;
          Decode := fun _ v => Ok v |} |}.

Definition sampleNetwork (create complete : Response) : Network :=
  {| JoinPath := fun base path => base +:+ path;
     NewRequest := fun method url body =>
       Ok {| Method := method; URL := url; Header := []; ReqBody := body |};
     Do := fun req =>
       if decide (URL req = "https://api.reel.tube/api/v0/media_uploads")
       then Ok create else Ok complete |}.

Definition ok200 (text : string) : Response :=
  {| StatusCode := 200; Body := Ok text; HeaderETag := "" |}.

(** ASCII lower-casing, which is [strings.ToLower] on ASCII text. *)
Definition lowerASCII (s : string) : string :=
  String.string_of_list_ascii
    (map (fun c => let n := nat_of_ascii c in
                   if (65 <=? n)%nat && (n <=? 90)%nat then ascii_of_nat (n + 32) else c)
         (String.list_ascii_of_string s)).

(** A host with two cores and one file [/media/clip.mp4] holding [data],
    a control plane that answers [create] and [complete], and part targets
    that answer [puts partNum]. *)
Definition sampleWorld (data : list Byte.byte) (s : CreateMediaUploadResponse)
    (create complete : Response) (puts : Z -> result Response) : World :=
  {| NumCPU := 2;
     Abs := fun p => Ok p;
     Base := fun _ => "clip.mp4";
     ToLower := lowerASCII;
     TypeByExtension := fun ext => if decide (ext = ".mp4") then "video/mp4" else
                                   if decide (ext = ".jpg") then "image/jpeg" else "";
     DetectContentType := fun _ => "application/octet-stream";
     file := fun p => if decide (p = "/media/clip.mp4") then Some data else
                      if decide (p = "/media/empty.jpg") then Some [] else None;
     lookup_error := fun _ => None;
     stat_error := fun _ => None;
     open_error := fun _ => None;
     seek_error := fun _ => None;
     read_error := fun _ => None;
     put_request_error := fun _ => None;
     put := fun partNum _ _ => puts partNum;
     client := NewClient "https://api.reel.tube" "key" [];
     network := sampleNetwork create complete;
     codec := sampleCodec s |}.

Definition etag (status : Z) (tag : string) : result Response :=
  Ok {| StatusCode := status; Body := Ok ""; HeaderETag := tag |}.

(** ** Runs of the pool: what is counted and what stays true *)

(** The calls of the Finalizer among the calls made. *)
Definition completeCalls (cs : list call) : list (string * string * list Part) :=
  omap (fun c => match c with
                 | CompleteCall mediaUploadId uploadID ps => Some (mediaUploadId, uploadID, ps)
                 | _ => None
                 end) cs.

(** What is left to do: every action that happens makes it smaller. *)
Definition measure (u : Upload) (st : State) : nat :=
  ((match state st with Running => 1 | _ => 0 end)
   + (if closed st then 0 else 1)
   + 3 * Z.to_nat (numParts u - next st)
   + 2 * length (jobs st) + 2 * length (busy st) + length (reporting st) + idle st)%nat.

(** What [multipartUpload] returns after [Collect] when no error was sent. *)
Definition finalResult (w : World) (u : Upload) (ps : list Part) : option error :=
  match completeMultipartUpload w (ID (MediaUpload' (session u))) (UploadID (session u)) ps with
  | Some err => Some (Wrap "failed to complete multipart upload" err)
  | None => None
  end.

(** The invariant of the pool. *)
Record Inv (w : World) (u : Upload) (st : State) : Prop := {
  inv_next : 0 <= next st <= Z.max 0 (numParts u);
  inv_closed : closed st = true -> numParts u <= next st;
  inv_parts : length (parts st) = length (presignedURLs u);
  inv_jobs : jobs st ++ busy st ++ (failures st).*1 ++ completed st ≡ₚ seqZ 0 (next st);
  inv_errors : errChan st ++ reporting st ≡ₚ (failures st).*2;
  inv_failures : forall j e, (j, e) ∈ failures st -> transferPart w u j = Fails e;
  inv_completed : forall j, j ∈ completed st ->
    exists url body resp, transferPart w u j = Uploads url body resp
                          /\ parts st !! Z.to_nat j = Some (partOf j resp);
  inv_untouched : forall i : nat, Z.of_nat i ∉ completed st ->
    (i < length (parts st))%nat -> parts st !! i = Some zeroPart;
  inv_workers :
    (idle st + length (busy st) + length (reporting st) + exited st + failed st)%nat
    = Z.to_nat (concurrency u);
  inv_exited : (0 < exited st)%nat -> closed st = true /\ jobs st = [];
  inv_failed : failed st = length (errChan st);
  inv_bar : bar st = Z.of_nat (length (completed st));
  inv_negative : numParts u < 0 -> state st = Crashed MakeChanSizeOutOfRange;
  inv_state :
    match state st with
    | Running => completeCalls (calls st) = []
    | Crashed p =>
      completeCalls (calls st) = []
      /\ ((numParts u < 0 /\ p = MakeChanSizeOutOfRange)
          \/ exists j, j ∈ busy st /\ transferPart w u j = Panics p)
    | Returned r =>
      closed st = true /\ idle st = O /\ busy st = [] /\ reporting st = []
      /\ match errChan st with
         | e :: _ => r = Some e /\ completeCalls (calls st) = []
         | [] => r = finalResult w u (parts st)
                 /\ completeCalls (calls st)
                    = [(ID (MediaUpload' (session u)), UploadID (session u), parts st)]
         end
    end
}.

(** ** Sample sessions and runs *)

Definition tenBytes : list Byte.byte := replicate 10 Byte.x61.

(** Three parts of four bytes for the ten bytes of the file. *)
Definition threeParts : CreateMediaUploadResponse :=
  {| UploadID := "up"; PartSize := 4; NumParts := 3;
     PresignedURLs := ["u0"; "u1"; "u2"]; MediaUpload' := {| ID := "m" |} |}.

(** Four parts of three bytes for the ten bytes of the file. *)
Definition fourParts : CreateMediaUploadResponse :=
  {| UploadID := "up"; PartSize := 3; NumParts := 4;
     PresignedURLs := ["u0"; "u1"; "u2"; "u3"]; MediaUpload' := {| ID := "m" |} |}.

(** Two parts announced, one target supplied. *)
Definition oneTargetShort : CreateMediaUploadResponse :=
  {| UploadID := "up"; PartSize := 5; NumParts := 2;
     PresignedURLs := ["u0"]; MediaUpload' := {| ID := "m" |} |}.

(** One part announced, two targets supplied. *)
Definition oneTargetSpare : CreateMediaUploadResponse :=
  {| UploadID := "up"; PartSize := 10; NumParts := 1;
     PresignedURLs := ["u0"; "u1"]; MediaUpload' := {| ID := "m" |} |}.

(** No part announced, one target supplied. *)
Definition noPartOneTarget : CreateMediaUploadResponse :=
  {| UploadID := "up"; PartSize := 10; NumParts := 0;
     PresignedURLs := ["u0"]; MediaUpload' := {| ID := "m" |} |}.

(** The control plane negotiates the session [s]; the targets answer [puts]. *)
Definition world (s : CreateMediaUploadResponse) (puts : Z -> result Response) : World :=
  sampleWorld tenBytes s (ok200 "session") (ok200 "done") puts.

(** The control plane answers 404 to the creation and 500 to the
    completion, each with a JSON string as its body. *)
Definition refusingControlPlane : World :=
  sampleWorld tenBytes threeParts
    {| StatusCode := 404; Body := Ok (quote +:+ "not found" +:+ quote); HeaderETag := "" |}
    {| StatusCode := 500; Body := Ok (quote +:+ "internal error" +:+ quote);
       HeaderETag := "" |}
    (fun _ => etag 200 "a").

(** Every part is stored with status 200 and the tags "a", "b", "c". *)
Definition allStored (partNum : Z) : result Response :=
  etag 200 (if decide (partNum = 0) then "a" else if decide (partNum = 1) then "b" else "c").

(** The text [tag] in quotes, as a storage service writes an [ETag]. *)
Definition quoted (tag : string) : string := quote +:+ tag +:+ quote.

(** Every part is stored with status 200 and the tags "a", "b", "c", each
    in quotes. *)
Definition allTagged (partNum : Z) : result Response :=
  etag 200 (quoted (if decide (partNum = 0) then "a"
                    else if decide (partNum = 1) then "b" else "c")).

(** Part 0 is answered 500 and part 1 is answered 503. *)
Definition twoRefused (partNum : Z) : result Response :=
  if decide (partNum = 0) then etag 500 ""
  else if decide (partNum = 1) then etag 503 "" else etag 200 "c".

(** Every part is answered 204 with the tag "t". *)
Definition allNoContent (partNum : Z) : result Response := etag 204 "t".

(** Both workers take a part; the transfers end in the order 0, 1. *)
Definition bothInFlight : list action :=
  [Send; Send; CloseJobs; Receive; Receive; Finish 0 0; Finish 0 0].

(** Two parts announced with one target: part 0 is refused, then the worker
    of part 1 looks up its target. *)
Definition crashedRun : State :=
  multipartUpload (world oneTargetShort twoRefused) "/media/clip.mp4" "clip.mp4"
                  bothInFlight.

(** The transfers of parts 0 and 1 fail in that order; the worker of part 1
    is the first to send its error. *)
Definition secondErrorFirst : list action :=
  [Send; Send; Send; CloseJobs; Receive; Receive; Finish 0 0; Finish 0 0;
   Report 1; Report 0; Collect].

Definition refusedRun : State :=
  multipartUpload (world threeParts twoRefused) "/media/clip.mp4" "clip.mp4"
                  secondErrorFirst.

(** One worker after the other, every part in turn. *)
Definition inTurn : list action :=
  [Send; Send; Send; CloseJobs;
   Receive; Finish 0 1000000000; Receive; Finish 0 2000000000;
   Receive; Finish 0 3000000000; Leave; Leave; Collect].

Definition storedRun : State :=
  multipartUpload (world threeParts allTagged) "/media/clip.mp4" "clip.mp4" inTurn.

(** No job is sent; both workers leave. *)
Definition nothingToDo : list action := [CloseJobs; Leave; Leave; Collect].

Definition noPartRun : State :=
  multipartUpload (world noPartOneTarget allStored) "/media/clip.mp4" "clip.mp4"
                  nothingToDo.

(** One part, stored by the first worker. *)
Definition onePart : list action :=
  [Send; CloseJobs; Receive; Finish 0 1000000000; Leave; Leave; Collect].

Definition sparePartRun : State :=
  multipartUpload (world oneTargetSpare allTagged) "/media/clip.mp4" "clip.mp4" onePart.

(** [n] parts one after the other: each is sent, received and transferred
    before the next is sent. *)
Definition oneByOne (n : nat) : list action :=
  concat (replicate n [Send; Receive; Finish 0 0]).

(** Of four parts, parts 0 and 1 are in flight; one of them is stored 8
    seconds after the start: part 0, or part 1. *)
Definition firstPartFirst : list action :=
  [Send; Send; Send; Send; CloseJobs; Receive; Receive; Finish 0 8000000000].

Definition secondPartFirst : list action :=
  [Send; Send; Send; Send; CloseJobs; Receive; Receive; Finish 1 8000000000].

Definition firstPartFirstRun : State :=
  multipartUpload (world fourParts allStored) "/media/clip.mp4" "clip.mp4"
                  firstPartFirst.

Definition secondPartFirstRun : State :=
  multipartUpload (world fourParts allStored) "/media/clip.mp4" "clip.mp4"
                  secondPartFirst.

(** ** The specification's wording, where the program departs from it *)

Definition extensionList : list string :=
  [".jpg"; ".jpeg"; ".png"; ".gif"; ".mp4"; ".mov"; ".avi"; ".mkv"].

Definition mimeList : list string :=
  ["image/jpeg"; "image/png"; "image/gif"; "video/mp4"; "video/quicktime";
   "video/x-msvideo"; "video/x-matroska"].

(** Every run with a failed part ends with an error returned, one of the
    errors recorded, and without a call of the Finalizer. *)
Definition failed_part_returns_error : Prop :=
  forall w filePath fileName sched,
    let st := multipartUpload w filePath fileName sched in
    failures st <> [] -> state st <> Running ->
    completeCalls (calls st) = []
    /\ exists e, state st = Returned (Some e) /\ e ∈ (failures st).*2.

(** In every successful run the manifest given to the Finalizer has
    [NumParts] entries, numbered 1 to [NumParts]. *)
Definition manifest_has_NumParts_entries : Prop :=
  forall w filePath fileName sched fileSize s,
    let st := multipartUpload w filePath fileName sched in
    Stat w filePath = Ok fileSize -> createMediaUpload w fileName fileSize = Ok s ->
    state st = Returned None ->
    forall m, m ∈ completeCalls (calls st) ->
      Z.of_nat (length m.2) = NumParts s /\ PartNumber <$> m.2 = seqZ 1 (NumParts s).

(** When no part is announced, no error is recorded and the Finalizer is
    called once, with no part. *)
Definition no_part_empty_manifest : Prop :=
  forall w filePath fileName sched fileSize s,
    let st := multipartUpload w filePath fileName sched in
    Stat w filePath = Ok fileSize -> createMediaUpload w fileName fileSize = Ok s ->
    NumParts s = 0 -> state st <> Running ->
    failures st = []
    /\ completeCalls (calls st) = [(ID (MediaUpload' s), UploadID s, [])].

(** A part is stored exactly when its PUT is answered in the 200 range. *)
Definition stored_iff_status_2xx : Prop :=
  forall w u partNum url body resp,
    prepare w u partNum = Ready url body -> put w partNum url body = Ok resp ->
    (exists url' body' resp', transferPart w u partNum = Uploads url' body' resp')
    <-> 200 <= StatusCode resp < 300.

(** An existing file is accepted exactly when its extension and the MIME
    type resolved for it are in the allow-lists. *)
Definition accepted_iff_allow_listed : Prop :=
  forall w filePath uploadName absPath data,
    filePath <> "" -> Abs w filePath = Ok absPath -> file w absPath = Some data ->
    let ext := ToLower w (Ext absPath) in
    (exists r, validate w filePath uploadName = inr r)
    <-> ext ∈ extensionList
        /\ resolveMIME w ext (buffer512 (bytesAt data 0 512)) ∈ mimeList.

(** The estimate in the words of the specification: the parts that remain
    times the time elapsed per part completed so far, in whole seconds
    (the nearest), as a duration in nanoseconds. *)
Definition remaining_spec (partsRemaining partsCompleted elapsed : Z) : Z :=
  Second * ((2 * partsRemaining * elapsed + partsCompleted * Second)
            / (2 * partsCompleted * Second)).

(** ** client.go: the other methods *)

(** The anonymous struct of [MeResponse.Profile]; [Bio] and [ImagePath]
    are pointers, [None] being [nil]. *)
Record MeProfile := {
  ProfileID : string;
  Handle : string;
  Bio : option string;
  ImagePath : option string;
  IsBusiness : bool;
  IsVerified : bool
}.

Record MeResponse := { Profile : MeProfile }.

Definition zeroMeResponse : MeResponse :=
  {| Profile := {| ProfileID := ""; Handle := ""; Bio := None; ImagePath := None;
                   IsBusiness := false; IsVerified := false |} |}.

(** [req.Header.Get(k)] for a canonical key [k]. *)
Definition headerGet (k : string) (req : Request) : string :=
  default "" (snd <$> head (filter (fun kv => kv.1 = k) (Header req))).

Section ClientQueries.
Context (net : Network).
Context `{JSON string} `{JSON jsonMap}.

Definition Get {P T : Type} `{JSON P} `{JSON T}
    (c : Client) (path : string) (params : option P) (target : T) :=
  DoRequest net c "GET" path params target.

Definition Put {P T : Type} `{JSON P} `{JSON T}
    (c : Client) (path : string) (params : option P) (target : T) :=
  DoRequest net c "PUT" path params target.

Definition Delete {P T : Type} `{JSON P} `{JSON T}
    (c : Client) (path : string) (params : option P) (target : T) :=
  DoRequest net c "DELETE" path params target.

Context `{JSON MeResponse}.

(** [params] is [nil]: no request body is built. *)
Definition Me (c : Client) : result MeResponse :=
  let data := zeroMeResponse in
  match Get c "/api/v0/me" (None : option jsonMap) data with
  | Err err => Err err
  | Ok (_, data) => Ok data
  end.
End ClientQueries.

(** ** main.go: the root command and [whoami] *)

(** [PersistentPreRun] of the root command for the command [use], with the
    flags [apiKey], [baseURL] and [debug] and [env] the value of
    [REELTUBE_API_KEY] in the environment (empty when it is not set): the
    global [client], or [None] for [os.Exit(1)]. *)
Definition PersistentPreRun (use apiKey env baseURL : string) (debug : bool)
    : option Client :=
  if bool_decide (apiKey = "") && negb (bool_decide (use = "version")) then
    let apiKey := env in
    if decide (apiKey = "") then None
    else Some (NewClient baseURL apiKey [debug])
  else Some (NewClient baseURL apiKey [debug]).

(** What a command prints with [fmt.Println]. *)
Inductive printed : Type :=
| PrintError (err : error)           (* fmt.Println("Error:", err) *)
| PrintLine (text : string).

Definition whoamiCmd (net : Network) `{JSON string} `{JSON jsonMap} `{JSON MeResponse}
    (c : Client) : printed :=
  match Me net c with
  | Err err => PrintError err
  | Ok data => PrintLine (Handle (Profile data))
  end.

(** ** The calls of a run *)

(** The part numbers of the PUT requests among the calls made. *)
Definition putParts (cs : list call) : list Z :=
  omap (fun c => match c with
                 | PutCall partNum _ _ => Some partNum
                 | _ => None
                 end) cs.

Definition isPut (c : call) : bool :=
  match c with
  | PutCall _ _ _ => true
  | _ => false
  end.

(** The call with which a run that has returned ends. *)
Definition lastCalls (u : Upload) (st : State) : list call :=
  match state st, errChan st with
  | Returned _, [] =>
    [CompleteCall (ID (MediaUpload' (session u))) (UploadID (session u)) (parts st)]
  | _, _ => []
  end.

(** The calls made are the PUT requests of the transfers that have ended,
    in some order, and then the call of the Finalizer, if it is made. *)
Definition CallsInv (w : World) (u : Upload) (st : State) : Prop :=
  exists puts,
    calls st = puts ++ lastCalls u st
    /\ puts ≡ₚ ((failures st).*1 ++ completed st) ≫= putCalls w u.

(** Every action of the schedule happens: none finds its goroutine waiting
    or the function over. *)
Fixpoint allHappen (w : World) (u : Upload) (sched : list action) (st : State) : Prop :=
  match sched with
  | [] => True
  | a :: sched => step w u a st <> st /\ allHappen w u sched (step w u a st)
  end.

(** ** More sample sessions and runs *)

(** The session of three parts once negotiated, with the targets [puts]. *)
Definition threePartUpload (puts : Z -> result Response) : Upload :=
  upload (world threeParts puts) "/media/clip.mp4" 10 threeParts.

(** Part 0 alone is sent, received and transferred. *)
Definition firstAlone : list action := [Send; Receive; Finish 0 0].

(** Of four parts, parts 0 and 1 are stored; parts 2 and 3 are in flight. *)
Definition lastPartBeforeThird : list action :=
  [Send; Send; Send; Send; Receive; Receive; Finish 0 1000000000; Finish 0 2000000000;
   Receive; Receive].

Definition fourPartUpload : Upload :=
  upload (world fourParts allStored) "/media/clip.mp4" 10 fourParts.

(** Part 0 of three is stored; the others wait in the channel. *)
Definition firstStored : list action :=
  [Send; Send; Send; CloseJobs; Receive; Finish 0 1000000000].

(** Two parts at a time; the second of them is stored first. *)
Definition twoAtATime : list action :=
  [Send; Send; Send; CloseJobs; Receive; Receive; Finish 1 1000000000;
   Finish 0 2000000000; Receive; Finish 0 3000000000; Leave; Leave; Collect].

(** [os.Stat] fails on the file, which exists and can be opened. *)
Definition deniedStat : World :=
  let w := world threeParts allStored in
  {| NumCPU := NumCPU w; Abs := Abs w; Base := Base w; ToLower := ToLower w;
     TypeByExtension := TypeByExtension w; DetectContentType := DetectContentType w;
     file := file w; lookup_error := lookup_error w;
     stat_error := fun _ => Some (Raw "permission denied");
     open_error := open_error w; seek_error := seek_error w; read_error := read_error w;
     put_request_error := put_request_error w; put := put w;
     client := client w; network := network w; codec := codec w |}.

(** A negative part count and a negative part size. *)
Definition negativeSizes : CreateMediaUploadResponse :=
  {| UploadID := "up"; PartSize := -4; NumParts := -1;
     PresignedURLs := ["u0"]; MediaUpload' := {| ID := "m" |} |}.

(** A file of 1 GiB and two bytes. *)
Definition bigFile : list Byte.byte := replicate (Z.to_nat (2 ^ 30 + 2)) Byte.x61.

(** Two parts of 1 GiB and one byte for it. *)
Definition aboveOneRead : CreateMediaUploadResponse :=
  {| UploadID := "up"; PartSize := 2 ^ 30 + 1; NumParts := 2;
     PresignedURLs := ["u0"; "u1"]; MediaUpload' := {| ID := "m" |} |}.

Definition bigWorld : World :=
  sampleWorld bigFile aboveOneRead (ok200 "session") (ok200 "done") allTagged.

Definition bigUpload : Upload :=
  upload bigWorld "/media/clip.mp4" (2 ^ 30 + 2) aboveOneRead.

(** Four parts of five bytes announced for the ten bytes of the file. *)
Definition twoPartsTooMany : CreateMediaUploadResponse :=
  {| UploadID := "up"; PartSize := 5; NumParts := 4;
     PresignedURLs := ["u0"; "u1"; "u2"; "u3"]; MediaUpload' := {| ID := "m" |} |}.

(** A network that refuses every request without the bearer token [key]. *)
Definition keyChecking (key : string) (net : Network) : Network :=
  {| JoinPath := JoinPath net; NewRequest := NewRequest net;
     Do := fun req =>
             if decide (headerGet "Authorization" req = "Bearer " +:+ key)
             then Do net req else Err (Raw "unauthorized") |}.

(** The answer to a key that the API does not know. *)
Definition unauthorized : Response :=
  {| StatusCode := 401; Body := Ok (quote +:+ "unauthorized" +:+ quote); HeaderETag := "" |}.

Definition alice : MeResponse :=
  {| Profile := {| ProfileID := "1"; Handle := "alice"; Bio := None; ImagePath := None;
                   IsBusiness := false; IsVerified := true |} |}.

(** encoding/json on [MeResponse]: the text ["me"] stands for the JSON
    document of the profile [alice]. *)
Definition sampleMe : JSON MeResponse :=
  {| Marshal := fun _ => Ok "{}";
     Unmarshal := fun text v =>
       if decide (text = "me") then Ok alice
       else Err (Raw "json: cannot unmarshal into Go value of type MeResponse");
     Decode := fun text v =>
       if decide (text = "me") then Ok alice
       else Err (Raw "json: cannot unmarshal into Go value of type MeResponse") |}.

Definition sampleClient : Client := NewClient "https://api.reel.tube" "key" [].

(** ** The order of the jobs *)

(** The jobs waiting in the channel are the last ones sent, in the order sent. *)
Definition waiting (st : State) : list Z :=
  seqZ (next st - Z.of_nat (length (jobs st))) (Z.of_nat (length (jobs st))).

(** * Properties *)

(** *** The invariant of the pool *)

Lemma completeCalls_app cs cs' :
  completeCalls (cs ++ cs') = completeCalls cs ++ completeCalls cs'.
Proof. unfold completeCalls. apply omap_app. Qed.

Lemma completeCalls_putCalls w u j : completeCalls (putCalls w u j) = [].
Proof. unfold putCalls. destruct (prepare w u j); reflexivity. Qed.

Ltac fields HI :=
  destruct HI as [Hnext Hclosed Hparts Hjobs Herrs Hfail Hcomp Hunt Hwork Hexit
                  Hfailed Hbar Hneg Hstate].

(** Closes the fields of [Inv] that an action leaves as they are. *)
Ltac same_fields :=
  try done;
  try (match goal with
       | Hneg : numParts _ < 0 -> _, Hst : state _ = Running |- numParts _ < 0 -> _ =>
         let H := fresh in intros H; apply Hneg in H; congruence
       end).

Lemma Inv_init w u : Inv w u (init u).
Proof.
  split; simpl; try done.
  - lia.
  - apply length_replicate.
  - intros j e H. by apply elem_of_nil in H.
  - intros j H. by apply elem_of_nil in H.
  - intros i _ Hi. rewrite length_replicate in Hi. by apply lookup_replicate_2.
  - lia.
  - lia.
  - intros H. by destruct (Z.ltb_spec (numParts u) 0); [|lia].
  - destruct (Z.ltb_spec (numParts u) 0); [|done]. split; [done|]. by left.
Qed.

Lemma Inv_Send w u st :
  Inv w u st -> state st = Running -> Inv w u (step w u Send st).
Proof.
  intros HI Hst. unfold step. rewrite Hst.
  destruct (negb (closed st) && (next st <? numParts u)
            && (Z.of_nat (length (jobs st)) <? numParts u)) eqn:E; [|done].
  fields HI.
  apply andb_prop in E as [E E3]. apply andb_prop in E as [E1 E2].
  apply Z.ltb_lt in E2. apply negb_true_iff in E1.
  split; simpl; same_fields.
  - lia.
  - congruence.
  - replace (next st + 1) with (Z.of_nat (S (Z.to_nat (next st)))) by lia.
    rewrite seqZ_S. rewrite Z2Nat.id by lia. simpl.
    rewrite <- Hjobs. solve_Permutation.
  - intros H. apply Hexit in H as [? ?]. congruence.
  - by rewrite Hst in Hstate.
Qed.

Lemma Inv_CloseJobs w u st :
  Inv w u st -> state st = Running -> Inv w u (step w u CloseJobs st).
Proof.
  intros HI Hst. unfold step. rewrite Hst.
  destruct (negb (closed st) && negb (next st <? numParts u)) eqn:E; [|done].
  apply andb_prop in E as [E1 E2].
  apply negb_true_iff in E1. apply negb_true_iff, Z.ltb_ge in E2.
  fields HI. split; simpl; same_fields.
  - intros H. by apply Hexit in H as [? ?].
  - by rewrite Hst in Hstate.
Qed.

Lemma Inv_Receive w u st :
  Inv w u st -> state st = Running -> Inv w u (step w u Receive st).
Proof.
  intros HI Hst. unfold step. rewrite Hst.
  destruct (idle st) as [|n] eqn:Ei; [done|].
  destruct (jobs st) as [|partNum rest] eqn:Ej; [done|].
  fields HI. rewrite ?Ei, ?Ej, ?Hst in *. split; simpl; same_fields.
  - rewrite <- Hjobs. solve_Permutation.
  - rewrite length_app. simpl. lia.
  - intros H. by apply Hexit in H as [? ?].
Qed.

Lemma at_index_is_Some {A} (l : list A) (i : Z) :
  is_Some (at_index l i) <-> 0 <= i < Z.of_nat (length l).
Proof.
  unfold at_index. destruct (Z.ltb_spec i 0).
  - split.
    + intros [? ?]. discriminate.
    + intros ?. lia.
  - simpl. rewrite lookup_lt_is_Some. lia.
Qed.

Lemma prepare_Ready_index w u j url body :
  prepare w u j = Ready url body -> at_index (presignedURLs u) j = Some url.
Proof.
  unfold prepare. destruct (at_index (presignedURLs u) j) eqn:E; [|done].
  intros H. f_equal. revert H.
  repeat (case_match; try done); congruence.
Qed.

Lemma transferPart_Uploads_index w u j url body resp :
  transferPart w u j = Uploads url body resp ->
  at_index (presignedURLs u) j = Some url.
Proof.
  unfold transferPart. destruct (prepare w u j) eqn:E; try done.
  intros H. apply prepare_Ready_index in E.
  repeat case_match; try done. congruence.
Qed.

Lemma transferPart_Fails_index w u j e :
  transferPart w u j = Fails e -> is_Some (at_index (presignedURLs u) j).
Proof.
  unfold transferPart, prepare.
  destruct (at_index (presignedURLs u) j) eqn:E; [eauto|done].
Qed.

Lemma busy_not_completed (js bs fs cs : list Z) n j :
  js ++ bs ++ fs ++ cs ≡ₚ seqZ 0 n -> j ∈ bs -> j ∉ cs.
Proof.
  intros HP Hj Hc.
  assert (HN : NoDup (js ++ bs ++ fs ++ cs)) by (rewrite HP; apply NoDup_seqZ).
  apply NoDup_app in HN as (_ & _ & HN).
  apply NoDup_app in HN as (_ & HN & _).
  apply (HN j Hj). apply elem_of_app. by right.
Qed.

Lemma tracked_range (js bs fs cs : list Z) n j :
  js ++ bs ++ fs ++ cs ≡ₚ seqZ 0 n -> j ∈ js ++ bs ++ fs ++ cs -> 0 <= j < n.
Proof.
  intros HP Hj. rewrite HP in Hj. apply elem_of_seqZ in Hj. lia.
Qed.

Lemma Inv_Finish w u st k elapsed :
  Inv w u st -> state st = Running -> Inv w u (step w u (Finish k elapsed) st).
Proof.
  intros HI Hst. unfold step. rewrite Hst.
  destruct (busy st !! k) as [partNum|] eqn:Ek; [|done].
  assert (Hin : partNum ∈ busy st) by (apply list_elem_of_lookup; eauto).
  pose proof (delete_Permutation _ _ _ Ek) as Hdel.
  assert (Hlen : length (busy st) = S (length (delete k (busy st)))).
  { by rewrite Hdel at 1. }
  destruct (transferPart w u partNum) as [p|err|url body resp] eqn:Et.
  - fields HI. split; simpl; same_fields.
    rewrite Hst in Hstate. split; [done|]. right. eauto.
  - fields HI. split; simpl; same_fields.
    + rewrite fmap_app. simpl. rewrite <- Hjobs. rewrite Hdel at 2. solve_Permutation.
    + rewrite fmap_app. simpl. rewrite <- Herrs. solve_Permutation.
    + intros j e [H|H]%elem_of_app; [by apply Hfail|].
      apply list_elem_of_singleton in H. congruence.
    + rewrite length_app. simpl. lia.
    + rewrite Hst in Hstate. by rewrite completeCalls_app, Hstate, completeCalls_putCalls.
  - pose proof (transferPart_Uploads_index _ _ _ _ _ _ Et) as Hurl.
    assert (Hr : 0 <= partNum < Z.of_nat (length (parts st))).
    { rewrite (inv_parts _ _ _ HI). apply at_index_is_Some. eauto. }
    destruct (at_index (parts st) partNum) eqn:Ep.
    2: { apply at_index_is_Some in Hr. rewrite Ep in Hr. by destruct Hr. }
    fields HI. split; simpl; same_fields.
    + by rewrite length_insert.
    + rewrite <- Hjobs. rewrite Hdel at 2. solve_Permutation.
    + intros j [H|H]%elem_of_app.
      * destruct (Hcomp j H) as (url' & body' & resp' & Ht & Hp).
        exists url', body', resp'. split; [done|].
        rewrite list_lookup_insert_ne; [done|].
        assert (j ≠ partNum).
        { intros ->. by eapply busy_not_completed. }
        assert (0 <= j < next st).
        { eapply tracked_range; [exact Hjobs|].
          rewrite !elem_of_app. auto. }
        lia.
      * apply list_elem_of_singleton in H as ->.
        exists url, body, resp. split; [done|].
        apply list_lookup_insert_eq. lia.
    + intros i Hi Hl. rewrite length_insert in Hl.
      rewrite list_lookup_insert_ne.
      * apply Hunt; [|done]. intros H. apply Hi, elem_of_app. by left.
      * intros H. apply Hi, elem_of_app. right. apply list_elem_of_singleton. lia.
    + lia.
    + rewrite length_app. simpl. lia.
    + rewrite Hst in Hstate. by rewrite completeCalls_app, Hstate, completeCalls_putCalls.
Qed.

Lemma Inv_Report w u st k :
  Inv w u st -> state st = Running -> Inv w u (step w u (Report k) st).
Proof.
  intros HI Hst. unfold step. rewrite Hst.
  destruct (reporting st !! k) as [err|] eqn:Ek; [|done].
  destruct (length (errChan st) <? length (presignedURLs u))%nat eqn:E; [|done].
  pose proof (delete_Permutation _ _ _ Ek) as Hdel.
  assert (Hlen : length (reporting st) = S (length (delete k (reporting st)))).
  { by rewrite Hdel at 1. }
  fields HI. split; simpl; same_fields.
  - rewrite <- Herrs. rewrite Hdel at 2. solve_Permutation.
  - lia.
  - rewrite length_app. simpl. lia.
  - by rewrite Hst in Hstate.
Qed.

Lemma Inv_Leave w u st :
  Inv w u st -> state st = Running -> Inv w u (step w u Leave st).
Proof.
  intros HI Hst. unfold step. rewrite Hst.
  destruct (idle st) as [|n] eqn:Ei; [done|].
  destruct (jobs st) as [|partNum rest] eqn:Ej; [|done].
  destruct (closed st) eqn:Ec; [|done].
  fields HI. rewrite ?Ei, ?Ej, ?Ec, ?Hst in *. split; simpl; same_fields.
  lia.
Qed.

Lemma Inv_Collect w u st :
  Inv w u st -> state st = Running -> Inv w u (step w u Collect st).
Proof.
  intros HI Hst. unfold step. rewrite Hst.
  destruct (closed st) eqn:Ec; [|done].
  destruct (idle st) as [|n] eqn:Ei; [|done].
  destruct (busy st) as [|b bs] eqn:Eb; [|done].
  destruct (reporting st) as [|r rs] eqn:Er; [|done].
  fields HI.
  destruct (errChan st) as [|err errs] eqn:Ee;
    rewrite ?Ec, ?Ei, ?Eb, ?Er, ?Ee, ?Hst in *; split; simpl; same_fields.
  repeat split; try done.
  by rewrite completeCalls_app, Hstate.
Qed.

Lemma step_Inv w u a st : Inv w u st -> Inv w u (step w u a st).
Proof.
  intros HI. destruct (state st) eqn:Hst.
  - destruct a; auto using Inv_Send, Inv_CloseJobs, Inv_Receive, Inv_Finish,
      Inv_Report, Inv_Leave, Inv_Collect.
  - unfold step. by rewrite Hst.
  - unfold step. by rewrite Hst.
Qed.

Lemma run_Inv w u sched st : Inv w u st -> Inv w u (run w u sched st).
Proof.
  revert st. induction sched as [|a sched IH]; intros st HI; [done|].
  simpl. apply IH. by apply step_Inv.
Qed.

(** *** Every action that happens brings the run nearer to its end *)

Lemma step_measure w u a st :
  step w u a st = st \/ (measure u (step w u a st) < measure u st)%nat.
Proof.
  unfold step. destruct (state st) eqn:Hst; [|by left..].
  destruct a.
  - destruct (negb (closed st) && (next st <? numParts u)
              && (Z.of_nat (length (jobs st)) <? numParts u)) eqn:E; [|by left].
    apply andb_prop in E as [E E3]. apply andb_prop in E as [E1 E2].
    apply Z.ltb_lt in E2. right. unfold measure. simpl.
    rewrite Hst, length_app. simpl. lia.
  - destruct (negb (closed st) && negb (next st <? numParts u)) eqn:E; [|by left].
    apply andb_prop in E as [E1 E2]. apply negb_true_iff in E1.
    right. unfold measure. simpl. rewrite Hst, E1. lia.
  - destruct (idle st) as [|n] eqn:Ei; [by left|].
    destruct (jobs st) as [|partNum rest] eqn:Ej; [by left|].
    right. unfold measure. simpl. rewrite Hst, Ei, Ej, length_app. simpl. lia.
  - destruct (busy st !! k) as [partNum|] eqn:Ek; [|by left].
    pose proof (delete_Permutation _ _ _ Ek) as Hdel.
    assert (Hlen : length (busy st) = S (length (delete k (busy st)))).
    { by rewrite Hdel at 1. }
    right. destruct (transferPart w u partNum).
    + unfold measure. simpl. rewrite Hst. lia.
    + unfold measure. simpl. rewrite Hst, length_app. simpl. lia.
    + destruct (at_index (parts st) partNum); unfold measure; simpl; rewrite Hst; lia.
  - destruct (reporting st !! k) as [err|] eqn:Ek; [|by left].
    destruct (length (errChan st) <? length (presignedURLs u))%nat; [|by left].
    pose proof (delete_Permutation _ _ _ Ek) as Hdel.
    assert (Hlen : length (reporting st) = S (length (delete k (reporting st)))).
    { by rewrite Hdel at 1. }
    right. unfold measure. simpl. rewrite Hst. lia.
  - destruct (idle st) as [|n] eqn:Ei; [by left|].
    destruct (jobs st) as [|partNum rest] eqn:Ej; [|by left].
    destruct (closed st) eqn:Ec; [|by left].
    right. unfold measure. simpl. rewrite Hst, Ei, Ej, Ec. simpl. lia.
  - destruct (closed st) eqn:Ec; [|by left].
    destruct (idle st) as [|n] eqn:Ei; [|by left].
    destruct (busy st) as [|b bs] eqn:Eb; [|by left].
    destruct (reporting st) as [|r rs] eqn:Er; [|by left].
    right. destruct (errChan st); unfold measure; simpl;
      rewrite Hst, ?Ec, ?Ei, ?Eb, ?Er; simpl; lia.
Qed.

Lemma run_measure w u sched st : (measure u (run w u sched st) <= measure u st)%nat.
Proof.
  revert st. induction sched as [|a sched IH]; intros st; [done|].
  simpl. etrans; [apply IH|]. destruct (step_measure w u a st) as [->|]; lia.
Qed.

(** The parts that failed are distinct parts with a target, so the errors
    never outnumber the capacity of [errChan]. *)
Lemma failures_bound w u st :
  Inv w u st -> (length (failures st) <= length (presignedURLs u))%nat.
Proof.
  intros HI. fields HI.
  assert (HN : NoDup ((failures st).*1)).
  { assert (HN : NoDup (jobs st ++ busy st ++ (failures st).*1 ++ completed st))
      by (rewrite Hjobs; apply NoDup_seqZ).
    apply NoDup_app in HN as (_ & _ & HN). apply NoDup_app in HN as (_ & _ & HN).
    by apply NoDup_app in HN as (HN & _ & _). }
  assert (Hsub : (failures st).*1 ⊆+ seqZ 0 (Z.of_nat (length (presignedURLs u)))).
  { apply NoDup_submseteq; [done|]. intros j Hj.
    apply list_elem_of_fmap in Hj as ([j' e] & -> & Hj). simpl.
    apply Hfail, transferPart_Fails_index, at_index_is_Some in Hj.
    apply elem_of_seqZ. lia. }
  apply submseteq_length in Hsub.
  rewrite length_fmap, length_seqZ in Hsub. lia.
Qed.

(** A run that has not ended is never stuck: no send blocks for ever. *)
Lemma progress w u st :
  Inv w u st -> state st = Running ->
  exists a, (measure u (step w u a st) < measure u st)%nat.
Proof.
  intros HI Hst. pose proof (failures_bound _ _ _ HI) as Hbound. fields HI.
  assert (Hstep : forall a, step w u a st <> st ->
                            (measure u (step w u a st) < measure u st)%nat).
  { intros a Ha. by destruct (step_measure w u a st). }
  assert (Hneq : forall st', state st' <> Running \/ next st' <> next st
                             \/ closed st' <> closed st \/ idle st' <> idle st
                             \/ length (busy st') <> length (busy st)
                             \/ length (reporting st') <> length (reporting st) ->
                             st' <> st).
  { intros st' H ->. rewrite Hst in H. intuition. }
  destruct (reporting st) as [|err errs] eqn:Er.
  2: { exists (Report 0). apply Hstep, Hneq. unfold step. rewrite Hst, Er. simpl.
       apply Permutation_length in Herrs.
       rewrite length_app, length_fmap in Herrs. simpl in Herrs.
       destruct (Nat.ltb_spec (length (errChan st)) (length (presignedURLs u))); [|lia].
       simpl. rewrite ?Er. simpl. right. right. right. right. right. lia. }
  destruct (busy st) as [|b bs] eqn:Eb.
  2: { exists (Finish 0 0). apply Hstep, Hneq. unfold step. rewrite Hst, Eb. simpl.
       destruct (transferPart w u b); simpl; [by left| |].
       - rewrite ?Eb. simpl. right. right. right. right. left. lia.
       - destruct (at_index (parts st) b); simpl; [|by left].
         rewrite ?Eb. simpl. right. right. right. right. left. lia. }
  destruct (closed st) eqn:Ec.
  - destruct (idle st) as [|n] eqn:Ei.
    + exists Collect. apply Hstep, Hneq. unfold step. rewrite Hst, Ec, Ei, Eb, Er.
      destruct (errChan st); simpl; by left.
    + destruct (jobs st) as [|j js] eqn:Ej.
      * exists Leave. apply Hstep, Hneq. unfold step. rewrite Hst, Ec, Ei, Ej. simpl.
        rewrite ?Ei. right. right. right. left. lia.
      * exists Receive. apply Hstep, Hneq. unfold step. rewrite Hst, Ei, Ej. simpl.
        rewrite ?Ei. right. right. right. left. lia.
  - destruct (Z.ltb_spec (next st) (numParts u)) as [Hlt|Hge].
    + exists Send. apply Hstep, Hneq. unfold step. rewrite Hst, Ec.
      apply Permutation_length in Hjobs.
      rewrite !length_app, length_seqZ in Hjobs.
      destruct (Z.ltb_spec (next st) (numParts u)); [|lia].
      destruct (Z.ltb_spec (Z.of_nat (length (jobs st))) (numParts u)); [|lia].
      simpl. right. left. lia.
    + exists CloseJobs. apply Hstep, Hneq. unfold step. rewrite Hst, Ec.
      destruct (Z.ltb_spec (next st) (numParts u)); [lia|].
      simpl. rewrite ?Ec. right. right. left. done.
Qed.

Lemma run_app w u sched sched' st :
  run w u (sched ++ sched') st = run w u sched' (run w u sched st).
Proof. apply foldl_app. Qed.

(** Every run can be brought to its end. *)
Lemma run_completes w u st :
  Inv w u st -> exists sched, state (run w u sched st) <> Running.
Proof.
  remember (measure u st) as n eqn:Hn. revert st Hn.
  induction (lt_wf n) as [n _ IH]. intros st -> HI.
  destruct (state st) eqn:Hst.
  - destruct (progress _ _ _ HI Hst) as [a Ha].
    destruct (IH _ Ha (step w u a st) eq_refl (step_Inv _ _ a _ HI)) as [sched Hs].
    exists (a :: sched). done.
  - exists []. simpl. by rewrite Hst.
  - exists []. simpl. by rewrite Hst.
Qed.

(** *** The layout of the parts *)

Lemma wrap_small z : int_min <= z <= int_max -> wrap z = z.
Proof.
  unfold int_min, int_max, wrap. intros H.
  rewrite Z.mod_small; lia.
Qed.

Lemma wrap_over z : int_max < z < 2 ^ 64 -> wrap z = z - 2 ^ 64.
Proof.
  unfold int_max, wrap. intros H.
  replace (z + 2 ^ 63) with ((z - 2 ^ 63) + 1 * 2 ^ 64) by lia.
  rewrite Z.mod_add by lia. rewrite Z.mod_small; lia.
Qed.

Lemma bytesAt_length data pos n :
  0 <= pos -> 0 <= n -> pos + n <= Z.of_nat (length data) ->
  Z.of_nat (length (bytesAt data pos n)) = n.
Proof.
  intros Hp Hn Hl. unfold bytesAt. rewrite length_take, length_drop. lia.
Qed.

Lemma bytesAt_rest data pos n :
  0 <= pos -> Z.of_nat (length data) <= pos + n ->
  bytesAt data pos n = drop (Z.to_nat pos) data.
Proof.
  intros Hp Hl. unfold bytesAt. apply take_ge. rewrite length_drop. lia.
Qed.

Lemma chunks_take data (P : Z) (k : nat) :
  0 <= P ->
  concat ((fun i => bytesAt data (i * P) P) <$> seqZ 0 (Z.of_nat k))
  = take (k * Z.to_nat P) data.
Proof.
  intros HP. induction k as [|k IH]; [done|].
  rewrite seqZ_S, fmap_app, concat_app, IH. cbn [fmap list_fmap concat].
  rewrite app_nil_r, Z.add_0_l.
  unfold bytesAt. replace (Z.to_nat (Z.of_nat k * P)) with (k * Z.to_nat P)%nat by lia.
  rewrite take_take_drop. f_equal. lia.
Qed.

Lemma ceil_bounds S P :
  1 <= S -> 1 <= P ->
  ((S + P - 1) / P - 1) * P < S <= (S + P - 1) / P * P.
Proof.
  intros HS HP.
  pose proof (Z.div_mod (S + P - 1) P ltac:(lia)) as Hd.
  pose proof (Z.mod_pos_bound (S + P - 1) P ltac:(lia)) as Hm.
  nia.
Qed.

(** The slice [buffer[:readSize]] is within the buffer of every part that
    starts in the file. *)
Lemma readSize_in_buffer u j :
  0 <= partSize u <= int_max -> 0 <= fileSize u <= int_max ->
  0 <= j -> j * partSize u <= fileSize u ->
  0 <= readSize u j <= partSize u.
Proof.
  intros HP HS Hj Hoff. unfold readSize, partOffset.
  rewrite (wrap_small (j * partSize u)) by (unfold int_min, int_max in *; lia).
  destruct (Z.le_gt_cases (j * partSize u + partSize u) int_max).
  - rewrite (wrap_small (j * partSize u + partSize u))
      by (unfold int_min, int_max in *; lia).
    destruct (Z.ltb_spec (fileSize u) (j * partSize u + partSize u)); [|lia].
    rewrite wrap_small by (unfold int_min, int_max in *; lia). lia.
  - rewrite (wrap_over (j * partSize u + partSize u)) by (unfold int_max in *; lia).
    destruct (Z.ltb_spec (fileSize u) (j * partSize u + partSize u - 2 ^ 64));
      [unfold int_max in *; lia|lia].
Qed.

(** No part of a session that holds a URL for every part it announces, and
    whose parts all start in the file, panics. *)
Lemma well_formed_no_panic w u j p :
  numParts u <= Z.of_nat (length (presignedURLs u)) ->
  0 <= partSize u <= int_max -> 0 <= fileSize u <= int_max ->
  (numParts u - 1) * partSize u <= fileSize u ->
  0 <= j < numParts u ->
  transferPart w u j <> Panics p.
Proof.
  intros Hn HP HS Hlast Hj.
  assert (Hr : 0 <= readSize u j <= partSize u) by (apply readSize_in_buffer; nia).
  assert (Hu : is_Some (at_index (presignedURLs u) j)) by (apply at_index_is_Some; lia).
  destruct Hu as [url Hu].
  unfold transferPart, prepare. rewrite Hu.
  destruct (Z.ltb_spec (partSize u) 0); [lia|].
  destruct (Open _ _ _); [|done].
  destruct (Seek _ _ _); [done|].
  destruct (Z.ltb_spec (readSize u j) 0); [lia|].
  destruct (Z.ltb_spec (partSize u) (readSize u j)); [lia|]. simpl.
  destruct (Read _ _ _ _ _) as [got err].
  destruct (notEOF err); [done|].
  destruct (put_request_error w url); [done|].
  destruct (put w j url got) as [resp|]; [|done].
  by destruct (negb _).
Qed.

(** *** The call as a whole *)

Lemma multipartUpload_cases w filePath fileName sched :
  (exists err cs, multipartUpload w filePath fileName sched = returnsBeforePool err cs
                  /\ completeCalls cs = [])
  \/ (exists fileSize s,
        Stat w filePath = Ok fileSize
        /\ createMediaUpload w fileName fileSize = Ok s
        /\ multipartUpload w filePath fileName sched
           = let u := upload w filePath fileSize s in
             withCalls (CreateCall fileName fileSize :: calls (run w u sched (init u)))
                       (run w u sched (init u))).
Proof.
  unfold multipartUpload. destruct (Stat w filePath) as [fileSize|err].
  - destruct (createMediaUpload w fileName fileSize) as [s|err] eqn:E.
    + right. exists fileSize, s. auto.
    + left. eexists _, _. split; reflexivity.
  - left. eexists _, _. split; reflexivity.
Qed.

Lemma reachable_Inv w u sched : Inv w u (run w u sched (init u)).
Proof. apply run_Inv, Inv_init. Qed.

(** In the pool: once a part has failed the Finalizer is not called, and
    a run that returns gives the error at the head of [errChan]. *)
Lemma pool_failure w u st :
  Inv w u st -> failures st <> [] ->
  completeCalls (calls st) = []
  /\ (state st <> Running ->
      (exists p, state st = Crashed p)
      \/ exists e, state st = Returned (Some e)
                   /\ head (errChan st) = Some e /\ e ∈ (failures st).*2).
Proof.
  intros HI Hf. fields HI. destruct (state st) as [|p|r] eqn:Hst.
  - done.
  - split; [by destruct Hstate|]. intros _. left. eauto.
  - destruct Hstate as (_ & _ & _ & Hr & Hs). rewrite Hr, app_nil_r in Herrs.
    destruct (errChan st) as [|e errs] eqn:He.
    + apply Permutation_length in Herrs. rewrite length_fmap in Herrs.
      by destruct (failures st).
    + destruct Hs as [-> Hc]. split; [done|]. intros _. right. exists e.
      repeat split. rewrite <- Herrs. apply list_elem_of_here.
Qed.

(** In the pool: without a part that panics there is no crash. *)
Lemma pool_no_crash w u st :
  Inv w u st -> 0 <= numParts u ->
  (forall j p, 0 <= j < numParts u -> transferPart w u j <> Panics p) ->
  forall p, state st <> Crashed p.
Proof.
  intros HI Hn Hj p Hst. fields HI. rewrite Hst in Hstate.
  destruct Hstate as [_ [[? _]|(j & Hin & Ht)]]; [lia|].
  apply (Hj j p); [|done].
  assert (0 <= j < next st); [|lia].
  eapply tracked_range; [exact Hjobs|]. rewrite !elem_of_app. auto.
Qed.

(** C1 (as amended).  In every run of [multipartUpload] in which a part
    transfer has failed, the Finalizer is not called; when the run has
    ended it has either died of a run-time panic or returned the error at
    the head of the error channel, which is one of the errors recorded for
    the failed parts (and need not be the first of them in time); the run
    can always be brought to its end; and it does not die of a panic when
    the session holds a URL for every part it announces, announces no
    negative count or size, and all its parts start in the file. *)
Theorem C1_failed_part_aborts w filePath fileName sched :
  let st := multipartUpload w filePath fileName sched in
  failures st <> [] ->
  completeCalls (calls st) = []
  /\ (state st <> Running ->
      (exists p, state st = Crashed p)
      \/ exists e, state st = Returned (Some e)
                   /\ head (errChan st) = Some e /\ e ∈ (failures st).*2)
  /\ (exists sched', state (multipartUpload w filePath fileName (sched ++ sched')) <> Running)
  /\ (forall fileSize s,
        Stat w filePath = Ok fileSize -> createMediaUpload w fileName fileSize = Ok s ->
        0 <= NumParts s <= Z.of_nat (length (PresignedURLs s)) ->
        0 <= PartSize s <= int_max -> fileSize <= int_max ->
        (NumParts s - 1) * PartSize s <= fileSize ->
        forall p, state st <> Crashed p).
Proof.
  intros st Hf. subst st.
  destruct (multipartUpload_cases w filePath fileName sched)
    as [(err & cs & Heq & Hc)|(fileSize & s & HS & Hcr & Heq)].
  { rewrite Heq in Hf. done. }
  set (u := upload w filePath fileSize s) in *.
  pose proof (reachable_Inv w u sched) as HI.
  rewrite Heq in Hf |- *. simpl in Hf |- *.
  destruct (pool_failure _ _ _ HI Hf) as [Hc Hr].
  split; [done|]. split; [done|]. split.
  - destruct (run_completes _ _ _ HI) as [sched' Hs]. exists sched'.
    unfold multipartUpload. rewrite HS, Hcr. simpl. fold u. by rewrite run_app.
  - intros fileSize' s' HS' Hcr' Hn HP HSm Hlast. rewrite HS in HS'. injection HS' as <-.
    rewrite Hcr in Hcr'. injection Hcr' as <-.
    assert (0 <= fileSize) as HS0.
    { unfold Stat in HS. repeat case_match; simplify_eq. lia. }
    apply (pool_no_crash _ _ _ HI); [by destruct Hn|].
    intros j p Hj.
    apply well_formed_no_panic; unfold numParts, partSize, presignedURLs in *;
      simpl in *; lia.
Qed.
(** C1, its counterexample: two parts are announced and one target is
    supplied; part 0 is answered 500, then the worker of part 1 dies of
    the index out of range and nothing is returned. *)
Lemma C1_counterexample :
  failures crashedRun = [(0, NonOKStatus 0 500)]
  /\ state crashedRun = Crashed (IndexOutOfRange 1 1)
  /\ ~ failed_part_returns_error.
Proof.
  assert (Hf : failures crashedRun = [(0, NonOKStatus 0 500)]) by (vm_compute; reflexivity).
  assert (Hc : state crashedRun = Crashed (IndexOutOfRange 1 1)) by (vm_compute; reflexivity).
  split; [done|]. split; [done|]. intros H.
  destruct (H (world oneTargetShort twoRefused) "/media/clip.mp4" "clip.mp4" bothInFlight)
    as [_ (e & He & _)].
  - fold crashedRun. rewrite Hf. congruence.
  - fold crashedRun. rewrite Hc. congruence.
  - fold crashedRun in He. rewrite Hc in He. congruence.
Qed.

(** C1, an instance: parts 0 and 1 of three are refused in this order; the
    error returned is the one of part 1, which was sent first. *)
Lemma C1_witness :
  failures refusedRun = [(0, NonOKStatus 0 500); (1, NonOKStatus 1 503)]
  /\ state refusedRun = Returned (Some (NonOKStatus 1 503))
  /\ completeCalls (calls refusedRun) = []
  /\ forall p, state refusedRun <> Crashed p.
Proof.
  assert (Hf : failures refusedRun <> []) by (vm_compute; congruence).
  destruct (C1_failed_part_aborts (world threeParts twoRefused) "/media/clip.mp4"
              "clip.mp4" secondErrorFirst Hf) as (Hc & _ & _ & Hp).
  split; [vm_compute; reflexivity|]. split; [vm_compute; reflexivity|].
  split; [exact Hc|].
  apply (Hp 10 threeParts); try reflexivity; vm_compute; intuition congruence.
Defined.

Lemma transferPart_Uploads w u j url body resp :
  transferPart w u j = Uploads url body resp ->
  prepare w u j = Ready url body /\ put w j url body = Ok resp /\ StatusCode resp = 200.
Proof.
  unfold transferPart. destruct (prepare w u j) as [| |url' body']; try done.
  destruct (put w j url' body') as [resp'|] eqn:Hput; [|done].
  destruct (Z.eqb_spec (StatusCode resp') 200); simpl; [|done].
  intros [= -> -> ->]. done.
Qed.

(** In the pool: what a run that returns [nil] has done. *)
Lemma pool_success w u st :
  Inv w u st -> 0 < concurrency u -> state st = Returned None ->
  completeCalls (calls st)
    = [(ID (MediaUpload' (session u)), UploadID (session u), parts st)]
  /\ length (parts st) = length (presignedURLs u)
  /\ 0 <= numParts u <= Z.of_nat (length (presignedURLs u))
  /\ failures st = []
  /\ completed st ≡ₚ seqZ 0 (numParts u)
  /\ (forall i, 0 <= i < numParts u ->
        exists url body resp, transferPart w u i = Uploads url body resp
                              /\ parts st !! Z.to_nat i = Some (partOf i resp))
  /\ (forall i : nat, numParts u <= Z.of_nat i -> (i < length (parts st))%nat ->
        parts st !! i = Some zeroPart).
Proof.
  intros HI Hc Hst. fields HI. rewrite Hst in Hstate.
  destruct Hstate as (Hcl & Hi & Hb & Hr & Hs).
  destruct (errChan st) as [|e errs] eqn:He; [|by destruct Hs].
  destruct Hs as [_ Hcalls]. rewrite Hb, Hr in *. simpl in *.
  assert (Hn : 0 <= numParts u).
  { destruct (Z.le_gt_cases 0 (numParts u)); [done|].
    rewrite Hneg in Hst by lia. done. }
  assert (failures st = []) as Hf.
  { apply Permutation_length in Herrs. rewrite length_fmap in Herrs.
    by destruct (failures st). }
  destruct Hexit as [_ Hj]; [lia|]. rewrite Hj, Hf in Hjobs. simpl in Hjobs.
  assert (next st = numParts u) as Hnx by (specialize (Hclosed Hcl); lia).
  rewrite Hnx in Hjobs.
  assert (Hall : forall i, 0 <= i < numParts u ->
            exists url body resp, transferPart w u i = Uploads url body resp
                                  /\ parts st !! Z.to_nat i = Some (partOf i resp)).
  { intros i Hi'. apply Hcomp. rewrite Hjobs. apply elem_of_seqZ. lia. }
  repeat split; try done.
  - destruct (Z.eq_dec (numParts u) 0) as [->|]; [lia|].
    destruct (Hall (numParts u - 1)) as (url & body & resp & Ht & _); [lia|].
    apply transferPart_Uploads_index in Ht.
    assert (is_Some (at_index (presignedURLs u) (numParts u - 1))) as Hs by eauto.
    apply at_index_is_Some in Hs. lia.
  - intros i Hi' Hl. apply Hunt; [|done]. rewrite Hjobs. intros H%elem_of_seqZ. lia.
Qed.

Lemma seqZ_sorted m n : StronglySorted Z.lt (seqZ m n).
Proof.
  destruct (Z.le_gt_cases n 0); [rewrite seqZ_nil by done; constructor|].
  replace n with (Z.of_nat (Z.to_nat n)) by lia.
  induction (Z.to_nat n) as [|k IH]; [constructor|].
  rewrite seqZ_S. apply StronglySorted_app. split; [|split; [done|]].
  - intros x y Hx Hy. apply elem_of_seqZ in Hx.
    apply list_elem_of_singleton in Hy. lia.
  - repeat constructor.
Qed.

Lemma seqZ_lookup_parts (ps : list Part) (n : Z) :
  Z.of_nat (length ps) = n ->
  (forall i, 0 <= i < n -> exists p, ps !! Z.to_nat i = Some p /\ PartNumber p = i + 1) ->
  PartNumber <$> ps = seqZ 1 n.
Proof.
  intros Hl Hp. apply list_eq. intros i. rewrite list_lookup_fmap.
  destruct (decide (Z.of_nat i < n)) as [Hi|Hi].
  - destruct (Hp (Z.of_nat i)) as (p & Hps & Hn); [lia|].
    rewrite Nat2Z.id in Hps. rewrite Hps. simpl.
    rewrite lookup_seqZ_lt by done. f_equal. lia.
  - rewrite lookup_seqZ_ge by lia. rewrite lookup_ge_None_2; [done|lia].
Qed.

(** A run that returns [nil] has called the Finalizer and got [nil]. *)
Lemma pool_success_final w u st :
  Inv w u st -> state st = Returned None -> finalResult w u (parts st) = None.
Proof.
  intros HI Hst. pose proof (inv_state _ _ _ HI) as Hstate. rewrite Hst in Hstate.
  destruct Hstate as (_ & _ & _ & _ & Hs).
  destruct (errChan st); [by destruct Hs as [<- _]|by destruct Hs].
Qed.

(** [completeMultipartUpload] returns [nil] only for a body that
    [json.Marshal] accepts. *)
Lemma completeMultipartUpload_marshals w mediaUploadId uploadID ps :
  completeMultipartUpload w mediaUploadId uploadID ps = None ->
  exists text,
    @Marshal _ (json_complete_request (codec w))
      {| MediaUploadID := mediaUploadId; CompleteUploadID := uploadID; Parts := ps |}
    = Ok text.
Proof.
  unfold completeMultipartUpload, CompleteMultipartUpload, Post, DoRequest.
  destruct (@Marshal _ (json_complete_request (codec w)) _) as [text|err]; [eauto|done].
Qed.

(** C2 (as amended).  In every run of [multipartUpload] that returns [nil]
    the Finalizer has been called once, with a manifest that has one entry
    for every presigned URL of the session; the session announced at most
    that many parts; for every [i] below the announced count the entry at
    index [i] has the part number [i + 1] and the ETag of the response with
    status 200 that the PUT of part [i], with the bytes read for part [i],
    received; the entries from the announced count on are zero; so when
    the session holds as many URLs as it announces parts, the part numbers
    of the manifest are 1, 2, ..., [NumParts] in this order.  The manifest
    is one that [json.Marshal] accepts, every [ETag] being a
    [json.RawMessage], and the Finalizer returned [nil] for it. *)
Theorem C2_manifest_of_successful_run w filePath fileName sched :
  let st := multipartUpload w filePath fileName sched in
  state st = Returned None ->
  exists fileSize s,
    Stat w filePath = Ok fileSize
    /\ createMediaUpload w fileName fileSize = Ok s
    /\ completeCalls (calls st) = [(ID (MediaUpload' s), UploadID s, parts st)]
    /\ length (parts st) = length (PresignedURLs s)
    /\ 0 <= NumParts s <= Z.of_nat (length (PresignedURLs s))
    /\ (forall i, 0 <= i < NumParts s ->
          exists url body resp,
            at_index (PresignedURLs s) i = Some url
            /\ prepare w (upload w filePath fileSize s) i = Ready url body
            /\ put w i url body = Ok resp /\ StatusCode resp = 200
            /\ parts st !! Z.to_nat i
               = Some {| PartNumber := i + 1; ETag := Some (HeaderETag resp) |})
    /\ (forall i : nat, NumParts s <= Z.of_nat i -> (i < length (parts st))%nat ->
          parts st !! i = Some zeroPart)
    /\ (Z.of_nat (length (PresignedURLs s)) = NumParts s ->
          PartNumber <$> parts st = seqZ 1 (NumParts s)
          /\ StronglySorted Z.lt (PartNumber <$> parts st)
          /\ NoDup (PartNumber <$> parts st)
          /\ forall k, 1 <= k <= NumParts s -> k ∈ PartNumber <$> parts st)
    /\ (exists text,
          @Marshal _ (json_complete_request (codec w))
            {| MediaUploadID := ID (MediaUpload' s); CompleteUploadID := UploadID s;
               Parts := parts st |}
          = Ok text)
    /\ completeMultipartUpload w (ID (MediaUpload' s)) (UploadID s) (parts st) = None.
Proof.
  intros st Hst. subst st.
  destruct (multipartUpload_cases w filePath fileName sched)
    as [(err & cs & Heq & Hc)|(fileSize & s & HS & Hcr & Heq)].
  { rewrite Heq in Hst. done. }
  set (u := upload w filePath fileSize s) in *.
  pose proof (reachable_Inv w u sched) as HI.
  rewrite Heq in Hst |- *. simpl in Hst |- *.
  assert (Hc : 0 < concurrency u).
  { simpl. unfold systemConcurrency, defaultConcurrency. case_match; lia. }
  destruct (pool_success _ _ _ HI Hc Hst) as (Hcalls & Hlen & Hn & _ & _ & Hall & Hrest).
  assert (Hfin : completeMultipartUpload w (ID (MediaUpload' s)) (UploadID s)
                   (parts (run w u sched (init u))) = None).
  { pose proof (pool_success_final _ _ _ HI Hst) as Hf. unfold finalResult in Hf.
    change (session u) with s in Hf.
    by destruct (completeMultipartUpload w _ _ _). }
  unfold numParts, presignedURLs in Hlen, Hn, Hall, Hrest. simpl in Hlen, Hn, Hall, Hrest.
  exists fileSize, s. split_and!; try done.
  - lia.
  - lia.
  - intros i Hi. destruct (Hall i Hi) as (url & body & resp & Ht & Hp).
    pose proof (transferPart_Uploads_index _ _ _ _ _ _ Ht) as Hurl.
    apply transferPart_Uploads in Ht as (Hprep & Hput & H200). eauto 10.
  - intros Heq'.
    assert (Hseq : PartNumber <$> parts (run w u sched (init u)) = seqZ 1 (NumParts s)).
    { apply seqZ_lookup_parts.
      - rewrite Hlen. done.
      - intros i Hi. destruct (Hall i Hi) as (url & body & resp & _ & Hp). eauto. }
    rewrite Hseq. split; [done|]. split; [apply seqZ_sorted|].
    split; [apply NoDup_seqZ|]. intros k Hk. apply elem_of_seqZ. lia.
  - by apply completeMultipartUpload_marshals.
Qed.

(** C2, its counterexample: one part is announced with two URLs and stored
    with the tag "a" in quotes; the run succeeds and the manifest has two
    entries, the second with number 0 and no tag. *)
Lemma C2_counterexample :
  state sparePartRun = Returned None
  /\ completeCalls (calls sparePartRun)
     = [("m", "up", [{| PartNumber := 1; ETag := Some (quoted "a") |}; zeroPart])]
  /\ ~ manifest_has_NumParts_entries.
Proof.
  assert (Hc : completeCalls (calls sparePartRun)
               = [("m", "up", [{| PartNumber := 1; ETag := Some (quoted "a") |}; zeroPart])])
    by (vm_compute; reflexivity).
  split; [vm_compute; reflexivity|]. split; [done|]. intros H.
  destruct (H (world oneTargetSpare allTagged) "/media/clip.mp4" "clip.mp4" onePart
              10 oneTargetSpare eq_refl eq_refl eq_refl
              ("m", "up", [{| PartNumber := 1; ETag := Some (quoted "a") |}; zeroPart]))
    as [Hl _].
  - fold sparePartRun. rewrite Hc. apply list_elem_of_here.
  - vm_compute in Hl. congruence.
Qed.

(** C2, an instance: the ten bytes in three parts, stored with the tags
    "a", "b" and "c" in quotes.  With the tags as they are, without
    quotes, [json.Marshal] refuses the manifest and the run is not a
    successful one. *)
Lemma C2_witness :
  completeCalls (calls storedRun)
    = [("m", "up", [{| PartNumber := 1; ETag := Some (quoted "a") |};
                    {| PartNumber := 2; ETag := Some (quoted "b") |};
                    {| PartNumber := 3; ETag := Some (quoted "c") |}])]
  /\ PartNumber <$> parts storedRun = [1; 2; 3]
  /\ marshalCompletion {| MediaUploadID := "m"; CompleteUploadID := "up";
                          Parts := parts storedRun |} = Ok "{}"
  /\ exists err,
       marshalCompletion
         {| MediaUploadID := "m"; CompleteUploadID := "up";
            Parts := parts (multipartUpload (world threeParts allStored) "/media/clip.mp4"
                                            "clip.mp4" inTurn) |} = Err err
       /\ state (multipartUpload (world threeParts allStored) "/media/clip.mp4" "clip.mp4"
                                 inTurn)
          = Returned (Some (Wrap "failed to complete multipart upload"
                              (Wrap "failed to complete multipart upload" err))).
Proof.
  destruct (C2_manifest_of_successful_run (world threeParts allTagged) "/media/clip.mp4"
              "clip.mp4" inTurn eq_refl)
    as (fileSize & s & HS & Hcr & Hcalls & _ & _ & _ & _ & Hsorted & [text Hm] & _).
  injection HS as <-. injection Hcr as <-.
  split; [exact Hcalls|]. split; [exact (proj1 (Hsorted eq_refl))|].
  split; [vm_compute; reflexivity|].
  eexists. split; vm_compute; reflexivity.
Defined.

(** In the pool: with no part announced nothing is transferred. *)
Lemma pool_no_part w u st :
  Inv w u st -> numParts u = 0 ->
  failures st = [] /\ errChan st = [] /\ completed st = []
  /\ parts st = replicate (length (presignedURLs u)) zeroPart
  /\ (forall p, state st <> Crashed p)
  /\ (state st = Running -> completeCalls (calls st) = [])
  /\ (forall r, state st = Returned r ->
        r = finalResult w u (parts st)
        /\ completeCalls (calls st)
           = [(ID (MediaUpload' (session u)), UploadID (session u), parts st)]).
Proof.
  intros HI Hn. fields HI. rewrite Hn in Hnext.
  assert (next st = 0) as Hnx by lia. rewrite Hnx in Hjobs. simpl in Hjobs.
  apply Permutation_nil_r in Hjobs.
  apply app_eq_nil in Hjobs as [Hj Hjobs]. apply app_eq_nil in Hjobs as [Hb Hjobs].
  apply app_eq_nil in Hjobs as [Hf Hc]. apply fmap_nil_inv in Hf.
  rewrite Hf in Herrs. simpl in Herrs. apply Permutation_nil_r in Herrs.
  apply app_eq_nil in Herrs as [He Hr].
  assert (Hps : parts st = replicate (length (presignedURLs u)) zeroPart).
  { apply list_eq. intros i. destruct (decide (i < length (parts st))%nat) as [Hi|Hi].
    - rewrite Hunt; [|rewrite Hc; apply not_elem_of_nil|done].
      symmetry. apply lookup_replicate_2. lia.
    - rewrite lookup_ge_None_2 by lia. symmetry. apply lookup_ge_None_2.
      rewrite length_replicate. lia. }
  repeat split; try done.
  - intros p Hst. rewrite Hst in Hstate.
    destruct Hstate as [_ [[? _]|(j & Hin & _)]]; [lia|].
    rewrite Hb in Hin. by apply elem_of_nil in Hin.
  - intros Hst. by rewrite Hst in Hstate.
  - rewrite H in Hstate. rewrite He in Hstate. by destruct Hstate as (_ & _ & _ & _ & ? & _).
  - rewrite H in Hstate. rewrite He in Hstate. by destruct Hstate as (_ & _ & _ & _ & _ & ?).
Qed.

(** C7 (as amended).  When the session announces no part, no error is
    recorded, the run does not die of a panic and can always be brought
    to its end, and a run that has ended has called the Finalizer once,
    with one zero entry for every presigned URL of the session: with the
    empty list when the session holds no URL. *)
Theorem C7_no_part_announced w filePath fileName sched fileSize s :
  let st := multipartUpload w filePath fileName sched in
  Stat w filePath = Ok fileSize -> createMediaUpload w fileName fileSize = Ok s ->
  NumParts s = 0 ->
  failures st = [] /\ errChan st = []
  /\ (exists sched', state (multipartUpload w filePath fileName (sched ++ sched')) <> Running)
  /\ (state st <> Running ->
        parts st = replicate (length (PresignedURLs s)) zeroPart
        /\ completeCalls (calls st) = [(ID (MediaUpload' s), UploadID s, parts st)]
        /\ state st
           = Returned (finalResult w (upload w filePath fileSize s) (parts st)))
  /\ (PresignedURLs s = [] -> parts st = []).
Proof.
  intros st HS Hcr Hn. subst st. unfold multipartUpload. rewrite HS, Hcr. simpl.
  set (u := upload w filePath fileSize s).
  pose proof (reachable_Inv w u sched) as HI.
  destruct (pool_no_part _ _ _ HI Hn) as (Hf & He & _ & Hps & Hcrash & _ & Hret).
  repeat split; try done.
  - destruct (run_completes _ _ _ HI) as [sched' Hs]. exists sched'.
    fold u. by rewrite run_app.
  - destruct (state (run w u sched (init u))) as [|p|r] eqn:Hst; [done| |].
    + by destruct (Hcrash p).
    + by destruct (Hret r eq_refl).
  - destruct (state (run w u sched (init u))) as [|p|r] eqn:Hst; [done| |].
    + by destruct (Hcrash p).
    + destruct (Hret r eq_refl) as [-> _]. done.
  - intros Hu. rewrite Hps. unfold presignedURLs. simpl. by rewrite Hu.
Qed.

(** C7, its counterexample: no part is announced and one URL is supplied;
    the Finalizer is called with a list of one zero entry. *)
Lemma C7_counterexample :
  state noPartRun = Returned None
  /\ completeCalls (calls noPartRun) = [("m", "up", [zeroPart])]
  /\ ~ no_part_empty_manifest.
Proof.
  assert (Hc : completeCalls (calls noPartRun) = [("m", "up", [zeroPart])])
    by (vm_compute; reflexivity).
  assert (Hs : state noPartRun = Returned None) by (vm_compute; reflexivity).
  split; [done|]. split; [done|]. intros H.
  destruct (H (world noPartOneTarget allStored) "/media/clip.mp4" "clip.mp4" nothingToDo
              10 noPartOneTarget eq_refl eq_refl eq_refl) as [_ Hc'].
  - fold noPartRun. rewrite Hs. congruence.
  - fold noPartRun in Hc'. rewrite Hc in Hc'. vm_compute in Hc'. congruence.
Qed.

(** C7, an instance: no part announced, one URL supplied. *)
Lemma C7_witness :
  failures noPartRun = [] /\ completeCalls (calls noPartRun) = [("m", "up", [zeroPart])].
Proof.
  destruct (C7_no_part_announced (world noPartOneTarget allStored) "/media/clip.mp4"
              "clip.mp4" nothingToDo 10 noPartOneTarget eq_refl eq_refl eq_refl)
    as (Hf & _ & _ & Hend & _).
  split; [exact Hf|].
  destruct Hend as (Hps & Hc & _); [vm_compute; congruence|].
  unfold noPartRun. rewrite Hc, Hps. reflexivity.
Defined.

Lemma oneByOne_S n : oneByOne (S n) = oneByOne n ++ [Send; Receive; Finish 0 0].
Proof.
  unfold oneByOne. rewrite replicate_S_end, concat_app. reflexivity.
Qed.

Lemma transferPart_out_of_range w u partNum :
  Z.of_nat (length (presignedURLs u)) <= partNum ->
  transferPart w u partNum = Panics (IndexOutOfRange partNum (length (presignedURLs u))).
Proof.
  intros H. unfold transferPart, prepare.
  destruct (at_index (presignedURLs u) partNum) eqn:E; [|done].
  assert (is_Some (at_index (presignedURLs u) partNum)) as Hs by eauto.
  apply at_index_is_Some in Hs. lia.
Qed.

(** A part number with a URL does not die of the index out of range. *)
Lemma transferPart_in_range w u partNum i n :
  0 <= partNum < Z.of_nat (length (presignedURLs u)) ->
  transferPart w u partNum <> Panics (IndexOutOfRange i n).
Proof.
  intros H. apply at_index_is_Some in H as [url Hu].
  unfold transferPart, prepare. rewrite Hu.
  repeat case_match; congruence.
Qed.

(** In the pool: with a URL for every part announced, no run dies of the
    index out of range. *)
Lemma pool_in_range w u st i n :
  Inv w u st -> numParts u <= Z.of_nat (length (presignedURLs u)) ->
  state st <> Crashed (IndexOutOfRange i n).
Proof.
  intros HI Hn Hst. fields HI. rewrite Hst in Hstate.
  destruct Hstate as [_ [[_ ?]|(j & Hin & Ht)]]; [done|].
  apply (transferPart_in_range w u j i n); [|done].
  assert (0 <= j < next st); [|lia].
  eapply tracked_range; [exact Hjobs|]. rewrite !elem_of_app. auto.
Qed.

(** What the actions of a round do when they can happen. *)
Lemma Send_effect w u st :
  state st = Running -> closed st = false -> next st < numParts u ->
  Z.of_nat (length (jobs st)) < numParts u ->
  let st' := step w u Send st in
  state st' = Running /\ next st' = next st + 1 /\ closed st' = false
  /\ jobs st' = jobs st ++ [next st] /\ busy st' = busy st /\ idle st' = idle st
  /\ parts st' = parts st.
Proof.
  intros Hst Hcl Hn Hj. unfold step. rewrite Hst, Hcl.
  destruct (Z.ltb_spec (next st) (numParts u)); [|lia].
  destruct (Z.ltb_spec (Z.of_nat (length (jobs st))) (numParts u)); [|lia].
  simpl. done.
Qed.

Lemma Receive_effect w u st n partNum rest :
  state st = Running -> idle st = S n -> jobs st = partNum :: rest ->
  let st' := step w u Receive st in
  state st' = Running /\ next st' = next st /\ closed st' = closed st
  /\ jobs st' = rest /\ busy st' = busy st ++ [partNum] /\ idle st' = n
  /\ parts st' = parts st.
Proof. intros Hst Hi Hj. unfold step. rewrite Hst, Hi, Hj. simpl. done. Qed.

Lemma Finish_effect w u st k elapsed partNum url body resp :
  state st = Running -> busy st !! k = Some partNum ->
  transferPart w u partNum = Uploads url body resp ->
  is_Some (at_index (parts st) partNum) ->
  let st' := step w u (Finish k elapsed) st in
  state st' = Running /\ next st' = next st /\ closed st' = closed st
  /\ jobs st' = jobs st /\ busy st' = delete k (busy st) /\ idle st' = S (idle st)
  /\ parts st' = <[Z.to_nat partNum := partOf partNum resp]> (parts st)
  /\ reporting st' = reporting st /\ completed st' = completed st ++ [partNum]
  /\ bar st' = bar st + 1
  /\ label st' = Some (remaining (numParts u) partNum elapsed).
Proof.
  intros Hst Hk Ht [p Hp]. unfold step. rewrite Hst, Hk, Ht, Hp. simpl. done.
Qed.

Lemma Finish_panic w u st k elapsed partNum p :
  state st = Running -> busy st !! k = Some partNum ->
  transferPart w u partNum = Panics p ->
  state (step w u (Finish k elapsed) st) = Crashed p.
Proof. intros Hst Hk Ht. unfold step. rewrite Hst, Hk, Ht. done. Qed.

Lemma Finish_failure w u st k elapsed partNum err :
  state st = Running -> busy st !! k = Some partNum ->
  transferPart w u partNum = Fails err ->
  let st' := step w u (Finish k elapsed) st in
  state st' = Running /\ parts st' = parts st
  /\ reporting st' = reporting st ++ [err] /\ completed st' = completed st
  /\ bar st' = bar st /\ label st' = label st.
Proof. intros Hst Hk Ht. unfold step. rewrite Hst, Hk, Ht. simpl. done. Qed.

(** The state between two rounds of [oneByOne]. *)
Lemma oneByOne_state w u (k : nat) :
  0 < concurrency u ->
  Z.of_nat k < numParts u ->
  (forall j, 0 <= j < Z.of_nat k ->
     exists url body resp, transferPart w u j = Uploads url body resp) ->
  let st := run w u (oneByOne k) (init u) in
  state st = Running /\ next st = Z.of_nat k /\ closed st = false /\ jobs st = []
  /\ busy st = [] /\ idle st = Z.to_nat (concurrency u).
Proof.
  intros Hc. induction k as [|k IH]; intros Hk Hup.
  - simpl. destruct (Z.ltb_spec (numParts u) 0); [lia|done].
  - destruct IH as (Hst & Hnx & Hcl & Hj & Hb & Hi); [lia|intros; apply Hup; lia|].
    rewrite oneByOne_S, run_app.
    pose proof (reachable_Inv w u (oneByOne k)) as HI.
    set (st := run w u (oneByOne k) (init u)) in *.
    destruct (idle st) as [|n] eqn:Ei; [lia|].
    destruct (Hup (Z.of_nat k)) as (url & body & resp & Ht); [lia|].
    destruct (Send_effect w u st) as (Hst1 & Hnx1 & Hcl1 & Hj1 & Hb1 & Hi1 & Hp1);
      [done|done|lia|rewrite Hj; simpl; lia|].
    rewrite Hj, Hnx in Hj1. simpl in Hj1.
    destruct (Receive_effect w u _ n _ _ Hst1 (eq_trans Hi1 Ei) Hj1)
      as (Hst2 & Hnx2 & Hcl2 & Hj2 & Hb2 & Hi2 & Hp2).
    rewrite Hb1, Hb in Hb2. simpl in Hb2.
    destruct (Finish_effect w u (step w u Receive (step w u Send st)) 0 0 _ _ _ _
                Hst2 (f_equal (.!! 0%nat) Hb2) Ht)
      as (Hst3 & Hnx3 & Hcl3 & Hj3 & Hb3 & Hi3 & _).
    { rewrite Hp2, Hp1. apply at_index_is_Some. rewrite (inv_parts _ _ _ HI).
      apply at_index_is_Some. apply transferPart_Uploads_index in Ht. eauto. }
    change (run w u [Send; Receive; Finish 0 0] st)
      with (step w u (Finish 0 0) (step w u Receive (step w u Send st))).
    cbv zeta.
    rewrite Hst3, Hnx3, Hnx2, Hnx1, Hcl3, Hcl2, Hcl1, Hj3, Hj2, Hb3, Hb2, Hi3, Hi2, Hnx.
    repeat split; try done; lia.
Qed.

(** C10.  The accesses [presignedURLs[partNum]] and [parts[partNum]] are in
    bounds for every part number below the announced count exactly when
    the session announces no more parts than it holds URLs, and then no
    run dies of the index out of range; a worker that receives a part
    number from the number of URLs on dies of the index out of range
    whatever the file and the network are; and nothing prevents it: when
    more parts are announced than URLs are held and the parts that have a
    URL are stored, the run that transfers the parts one by one dies at
    the first part without a URL. *)
Theorem C10_targets_are_not_checked :
  (forall u,
     (forall partNum, 0 <= partNum < numParts u ->
        is_Some (at_index (presignedURLs u) partNum)
        /\ is_Some (at_index (parts (init u)) partNum))
     <-> numParts u <= Z.of_nat (length (presignedURLs u)))
  /\ (forall w u sched i n,
        numParts u <= Z.of_nat (length (presignedURLs u)) ->
        state (run w u sched (init u)) <> Crashed (IndexOutOfRange i n))
  /\ (forall w u partNum,
        Z.of_nat (length (presignedURLs u)) <= partNum ->
        transferPart w u partNum
        = Panics (IndexOutOfRange partNum (length (presignedURLs u))))
  /\ (forall w u,
        0 < concurrency u ->
        Z.of_nat (length (presignedURLs u)) < numParts u ->
        (forall j, 0 <= j < Z.of_nat (length (presignedURLs u)) ->
           exists url body resp, transferPart w u j = Uploads url body resp) ->
        state (run w u (oneByOne (S (length (presignedURLs u)))) (init u))
        = Crashed (IndexOutOfRange (Z.of_nat (length (presignedURLs u)))
                                   (length (presignedURLs u)))).
Proof.
  split; [|split; [|split]].
  - intros u. split.
    + intros H. destruct (Z.le_gt_cases (numParts u) 0) as [|Hn]; [lia|].
      destruct (H (numParts u - 1)) as [Hs _]; [lia|].
      apply at_index_is_Some in Hs. lia.
    + intros H partNum Hp. rewrite !at_index_is_Some. simpl.
      rewrite length_replicate. lia.
  - intros w u sched i n Hn. apply (pool_in_range w u); [apply reachable_Inv|done].
  - apply transferPart_out_of_range.
  - intros w u Hc Hn Hup.
    destruct (oneByOne_state w u (length (presignedURLs u)) Hc Hn Hup)
      as (Hst & Hnx & Hcl & Hj & Hb & Hi).
    rewrite oneByOne_S, run_app.
    set (st := run w u (oneByOne (length (presignedURLs u))) (init u)) in *.
    destruct (idle st) as [|n] eqn:Ei; [lia|].
    destruct (Send_effect w u st) as (Hst1 & Hnx1 & Hcl1 & Hj1 & Hb1 & Hi1 & Hp1);
      [done|done|lia|rewrite Hj; simpl; lia|].
    rewrite Hj, Hnx in Hj1. simpl in Hj1.
    destruct (Receive_effect w u _ n _ _ Hst1 (eq_trans Hi1 Ei) Hj1)
      as (Hst2 & Hnx2 & Hcl2 & Hj2 & Hb2 & Hi2 & Hp2).
    rewrite Hb1, Hb in Hb2. simpl in Hb2.
    change (run w u [Send; Receive; Finish 0 0] st)
      with (step w u (Finish 0 0) (step w u Receive (step w u Send st))).
    apply (Finish_panic w u _ 0 0 _ _ Hst2 (f_equal (.!! 0%nat) Hb2)).
    by apply transferPart_out_of_range.
Qed.

(** C10, an instance: two parts announced, one URL held. *)
Lemma C10_witness :
  state (multipartUpload (world oneTargetShort allStored) "/media/clip.mp4" "clip.mp4"
                         (oneByOne 2))
  = Crashed (IndexOutOfRange 1 1).
Proof.
  destruct C10_targets_are_not_checked as (_ & _ & _ & H).
  apply (H (world oneTargetShort allStored)
           (upload (world oneTargetShort allStored) "/media/clip.mp4" 10 oneTargetShort)).
  - reflexivity.
  - reflexivity.
  - intros j Hj. change (0 <= j < 1) in Hj. assert (j = 0) as -> by lia.
    eexists _, _, _. vm_compute. reflexivity.
Defined.

(** C5 (as amended).  When a part reaches its PUT and the PUT is answered,
    the part is stored exactly when the status is 200: then the worker
    writes at [parts[partNum]] the part number [partNum + 1] with the value
    of the ETag header of the response; with any other status, those of
    the 200 range included, the worker records the error of a non-200
    status and leaves [parts] as it is. *)
Theorem C5_stored_iff_status_200 w u partNum url body resp :
  prepare w u partNum = Ready url body -> put w partNum url body = Ok resp ->
  ((exists url' body' resp', transferPart w u partNum = Uploads url' body' resp')
   <-> StatusCode resp = 200)
  /\ (StatusCode resp <> 200 ->
        transferPart w u partNum = Fails (NonOKStatus partNum (StatusCode resp)))
  /\ forall st k elapsed,
       state st = Running -> busy st !! k = Some partNum ->
       length (parts st) = length (presignedURLs u) ->
       let st' := step w u (Finish k elapsed) st in
       (StatusCode resp = 200 ->
          parts st' !! Z.to_nat partNum
          = Some {| PartNumber := partNum + 1; ETag := Some (HeaderETag resp) |}
          /\ completed st' = completed st ++ [partNum]
          /\ reporting st' = reporting st)
       /\ (StatusCode resp <> 200 ->
             parts st' = parts st /\ completed st' = completed st
             /\ reporting st' = reporting st ++ [NonOKStatus partNum (StatusCode resp)]).
Proof.
  intros Hprep Hput.
  assert (H200 : StatusCode resp = 200 -> transferPart w u partNum = Uploads url body resp).
  { intros H. unfold transferPart. rewrite Hprep, Hput, H. done. }
  assert (Hnot : StatusCode resp <> 200 ->
                 transferPart w u partNum = Fails (NonOKStatus partNum (StatusCode resp))).
  { intros H. unfold transferPart. rewrite Hprep, Hput.
    by destruct (Z.eqb_spec (StatusCode resp) 200). }
  split; [|split; [done|]].
  - split; [|eauto]. intros (url' & body' & resp' & Ht).
    destruct (decide (StatusCode resp = 200)) as [|Hne]; [done|].
    rewrite (Hnot Hne) in Ht. done.
  - intros st k elapsed Hst Hk Hlen st'. subst st'. split.
    + intros H. pose proof (H200 H) as Ht.
      assert (Hs : is_Some (at_index (parts st) partNum)).
      { apply at_index_is_Some. rewrite Hlen. apply at_index_is_Some.
        apply transferPart_Uploads_index in Ht. eauto. }
      destruct (Finish_effect w u st k elapsed _ _ _ _ Hst Hk Ht Hs)
        as (_ & _ & _ & _ & _ & _ & Hp & Hr & Hc & _).
      rewrite Hp, Hr, Hc. repeat split.
      apply list_lookup_insert_eq. apply at_index_is_Some in Hs. lia.
    + intros H.
      destruct (Finish_failure w u st k elapsed _ _ Hst Hk (Hnot H))
        as (_ & Hp & Hr & Hc & _).
      by rewrite Hp, Hr, Hc.
Qed.

(** C5, its counterexample: the PUT of part 0 is answered 204 and the part
    is not stored. *)
Lemma C5_counterexample :
  transferPart (world threeParts allNoContent)
               (upload (world threeParts allNoContent) "/media/clip.mp4" 10 threeParts) 0
  = Fails (NonOKStatus 0 204)
  /\ ~ stored_iff_status_2xx.
Proof.
  assert (Ht : transferPart (world threeParts allNoContent)
                 (upload (world threeParts allNoContent) "/media/clip.mp4" 10 threeParts) 0
               = Fails (NonOKStatus 0 204)) by (vm_compute; reflexivity).
  split; [done|]. intros H.
  destruct (H (world threeParts allNoContent)
              (upload (world threeParts allNoContent) "/media/clip.mp4" 10 threeParts)
              0 "u0" (replicate 4 Byte.x61)
              {| StatusCode := 204; Body := Ok ""; HeaderETag := "t" |}
              eq_refl eq_refl) as [_ Hs].
  destruct Hs as (url & body & resp & Ht'); [simpl; lia|].
  rewrite Ht in Ht'. congruence.
Qed.

(** C5, an instance: part 1 of the ten bytes, answered 200 with the tag "b". *)
Lemma C5_witness :
  transferPart (world threeParts allStored)
               (upload (world threeParts allStored) "/media/clip.mp4" 10 threeParts) 1
  = Uploads "u1" (replicate 4 Byte.x61)
            {| StatusCode := 200; Body := Ok ""; HeaderETag := "b" |}.
Proof.
  destruct (C5_stored_iff_status_200 (world threeParts allStored)
              (upload (world threeParts allStored) "/media/clip.mp4" 10 threeParts)
              1 "u1" (replicate 4 Byte.x61)
              {| StatusCode := 200; Body := Ok ""; HeaderETag := "b" |}
              eq_refl eq_refl) as [[_ H] _].
  destruct (H eq_refl) as (url & body & resp & Ht).
  rewrite Ht. vm_compute in Ht. injection Ht as <- <- <-. reflexivity.
Defined.

Lemma maxRW_value : maxRW = 1073741824.
Proof. reflexivity. Qed.

(** Reading at most [m] bytes of what [n] bytes would give. *)
Lemma bytesAt_min data pos n m :
  bytesAt data pos (Z.min n m) = take (Z.to_nat m) (bytesAt data pos n).
Proof.
  unfold bytesAt. rewrite take_take. f_equal. lia.
Qed.

Lemma bytesAt_length_min data pos n :
  0 <= pos -> 0 <= n ->
  Z.of_nat (length (bytesAt data pos n)) = Z.min n (Z.max 0 (Z.of_nat (length data) - pos)).
Proof.
  intros Hpos Hn. unfold bytesAt. rewrite length_take, length_drop. lia.
Qed.

Lemma prepare_Ready_body w u i url body data :
  file w (filePath u) = Some data ->
  prepare w u i = Ready url body ->
  body = bytesAt data (partOffset u i) (Z.min (readSize u i) maxRW).
Proof.
  intros Hfile. unfold prepare, Open, Read. rewrite Hfile.
  destruct (at_index (presignedURLs u) i); [|done].
  destruct (partSize u <? 0); [done|].
  destruct (open_error w (Worker i)); [done|].
  destruct (Seek w (Worker i) (partOffset u i)); [done|].
  destruct ((readSize u i <? 0) || (partSize u <? readSize u i)); [done|].
  destruct (read_error w (Worker i)); [done|].
  destruct (notEOF _); [done|].
  destruct (put_request_error w s); [done|].
  by intros [= _ <-].
Qed.

(** A part whose file operations succeed: the one [Read] gives the body of
    the PUT request. *)
Lemma prepare_one_Read w u i url data :
  at_index (presignedURLs u) i = Some url ->
  file w (filePath u) = Some data ->
  open_error w (Worker i) = None -> seek_error w (Worker i) = None ->
  read_error w (Worker i) = None -> put_request_error w url = None ->
  0 <= partOffset u i -> 0 <= readSize u i <= partSize u ->
  prepare w u i
  = Ready url (bytesAt data (partOffset u i) (Z.min (readSize u i) maxRW)).
Proof.
  intros Hurl Hfile Hopen Hseek Hread Hreq Hoff Hsize.
  unfold prepare, Open, Seek, Read. rewrite Hurl, Hfile, Hopen, Hseek, Hread.
  destruct (Z.ltb_spec (partSize u) 0); [lia|].
  destruct (Z.ltb_spec (partOffset u i) 0); [lia|].
  destruct (Z.ltb_spec (readSize u i) 0); [lia|].
  destruct (Z.ltb_spec (partSize u) (readSize u i)); [lia|].
  cbn [orb]. destruct (decide _) as [[-> _]|_]; cbn [notEOF]; by rewrite Hreq.
Qed.

Lemma transferPart_prepared w u i url body :
  prepare w u i = Ready url body ->
  transferPart w u i
  = match put w i url body with
    | Err err => Fails (WrapPart "failed to upload part" i err)
    | Ok resp =>
      if negb (StatusCode resp =? 200) then Fails (NonOKStatus i (StatusCode resp))
      else Uploads url body resp
    end.
Proof. intros Hprep. unfold transferPart. by rewrite Hprep. Qed.

(** The ranges of the parts, for a file of [S >= 1] bytes, a part size
    [P >= 1] and [ceil(S / P)] parts, and what one [Read] gives of them. *)
Lemma parts_of_the_file w u data :
  file w (filePath u) = Some data ->
  fileSize u = Z.of_nat (length data) ->
  1 <= fileSize u <= int_max -> 1 <= partSize u <= int_max ->
  numParts u = (fileSize u + partSize u - 1) / partSize u ->
  let S := fileSize u in
  let P := partSize u in
  let len i := if i <? numParts u - 1 then P else S - (numParts u - 1) * P in
  let sent i := bytesAt data (i * P) (Z.min (len i) maxRW) in
  (forall i, 0 <= i < numParts u ->
     partOffset u i = i * P
     /\ 0 <= readSize u i <= P
     /\ 0 < len i <= P
     /\ bytesAt data (partOffset u i) (readSize u i) = bytesAt data (i * P) (len i)
     /\ Z.of_nat (length (bytesAt data (i * P) (len i))) = len i
     /\ (i + 1 < numParts u -> len i = P /\ partOffset u (i + 1) = partOffset u i + len i)
     /\ (i + 1 = numParts u -> partOffset u i + len i = S)
     /\ Z.of_nat (length (sent i)) = Z.min (len i) maxRW
     /\ (forall url,
           at_index (presignedURLs u) i = Some url ->
           open_error w (Worker i) = None -> seek_error w (Worker i) = None ->
           read_error w (Worker i) = None -> put_request_error w url = None ->
           prepare w u i = Ready url (sent i)
           /\ transferPart w u i
              = match put w i url (sent i) with
                | Err err => Fails (WrapPart "failed to upload part" i err)
                | Ok resp =>
                  if negb (StatusCode resp =? 200)
                  then Fails (NonOKStatus i (StatusCode resp))
                  else Uploads url (sent i) resp
                end))
  /\ concat ((fun i => bytesAt data (i * P) (len i)) <$> seqZ 0 (numParts u)) = data
  /\ sum_list ((fun i => length (bytesAt data (i * P) (len i))) <$> seqZ 0 (numParts u))
     = length data.
Proof.
  intros Hfile HS HSr HPr Hn S P len sent.
  pose proof (ceil_bounds S P ltac:(lia) ltac:(lia)) as Hb.
  fold S P in Hn. rewrite <- Hn in Hb. set (n := numParts u) in *.
  assert (1 <= n) as Hn1 by nia.
  assert (Hoff : forall i, 0 <= i < n -> partOffset u i = i * P).
  { intros i Hi. unfold partOffset. fold P. apply wrap_small.
    unfold int_min, int_max in *. nia. }
  assert (Hlen : forall i, 0 <= i < n -> 0 < len i <= P /\ i * P + len i <= S
                  /\ (i + 1 = n -> i * P + len i = S)
                  /\ (i + 1 < n -> len i = P)).
  { intros i Hi. unfold len. destruct (Z.ltb_spec i (n - 1)); nia. }
  assert (Hconcat :
    concat ((fun i => bytesAt data (i * P) (len i)) <$> seqZ 0 n) = data).
  { replace n with (Z.of_nat (Datatypes.S (Z.to_nat (n - 1)))) at 1 by lia.
    rewrite seqZ_S, fmap_app, concat_app. cbn [fmap list_fmap concat].
    rewrite app_nil_r, Z.add_0_l.
    rewrite (list_fmap_ext _ (fun i => bytesAt data (i * P) P)).
    2: { intros k i Hk. apply lookup_seqZ in Hk as [-> Hk]. unfold len.
         destruct (Z.ltb_spec (0 + Z.of_nat k) (n - 1)); [done|lia]. }
    rewrite chunks_take by lia.
    rewrite Z2Nat.id by lia. unfold len.
    destruct (Z.ltb_spec (n - 1) (n - 1)); [lia|].
    unfold bytesAt.
    replace (Z.to_nat ((n - 1) * P)) with (Z.to_nat (n - 1) * Z.to_nat P)%nat by nia.
    rewrite take_take_drop. apply take_ge. nia. }
  split; [|split; [done|]].
  - intros i Hi. destruct (Hlen i Hi) as (Hl1 & Hl2 & Hl3 & Hl4).
    pose proof (Hoff i Hi) as Ho.
    assert (Hrs : 0 <= readSize u i <= P
                  /\ bytesAt data (i * P) (readSize u i) = bytesAt data (i * P) (len i)).
    { unfold readSize. rewrite Ho. fold P S.
      destruct (Z.le_gt_cases (i * P + P) int_max) as [Hsum|Hsum].
      - rewrite (wrap_small (i * P + P)) by (unfold int_min, int_max in *; nia).
        destruct (Z.ltb_spec S (i * P + P)).
        + rewrite wrap_small by (unfold int_min, int_max in *; nia).
          assert (i + 1 = n) as Hlast by nia.
          split; [nia|]. f_equal. specialize (Hl3 Hlast). lia.
        + split; [lia|]. f_equal.
          destruct (Z.eq_dec (i + 1) n) as [Hlast|]; [|symmetry; apply Hl4; lia].
          specialize (Hl3 Hlast). nia.
      - rewrite (wrap_over (i * P + P)) by (unfold int_max in *; nia).
        destruct (Z.ltb_spec S (i * P + P - 2 ^ 64)); [unfold int_max in *; nia|].
        split; [lia|].
        assert (i + 1 = n) as Hlast by (unfold int_max in *; nia).
        specialize (Hl3 Hlast).
        rewrite !bytesAt_rest; [done|nia|nia|nia|nia]. }
    destruct Hrs as [Hr1 Hr2]. rewrite Ho.
    assert (Hsent : bytesAt data (i * P) (Z.min (readSize u i) maxRW) = sent i).
    { unfold sent. by rewrite !bytesAt_min, Hr2. }
    split; [done|]. split; [done|]. split; [done|]. split; [done|].
    split; [apply bytesAt_length; nia|].
    split; [|split; [|split]].
    + intros Hi'. split; [by apply Hl4|]. rewrite Hoff by lia. rewrite Hl4 by done. lia.
    + done.
    + unfold sent. rewrite bytesAt_length_min by (pose proof maxRW_value; nia).
      pose proof maxRW_value. nia.
    + intros url Hurl Hopen Hseek Hread Hreq.
      assert (prepare w u i = Ready url (sent i)) as Hprep.
      { rewrite <- Hsent, <- Ho.
        apply prepare_one_Read; try done; rewrite ?Ho; try nia; done. }
      split; [done|]. by apply transferPart_prepared.
  - apply (f_equal length) in Hconcat.
    rewrite length_concat, <- list_fmap_compose in Hconcat. done.
Qed.

(** C3, the code and its failing input.  For a file of [S >= 1] bytes, a
    part size [P >= 1] and [ceil(S / P)] parts, part [i] starts at the
    byte [i * P]; the slice of the buffer it reads into is within the
    buffer and asks for the bytes [[i * P, i * P + len i)], which are [P]
    bytes but for the last part, which has [S - (numParts - 1) * P];
    these ranges in the order of their numbers are the file.  A part is
    read with one call of [Read], and what that call gives is the body of
    the PUT request.  When [P] is at most [maxRW], 1 GiB, it is the whole
    range: the part is read and sent as the claim says.  At the failing
    input, a file of 1 GiB and two bytes in two parts of 1 GiB and one
    byte, part 0 is sent with 1 GiB, the answer 200 stores it, and the
    two parts sent have one byte less than the file. *)
Theorem C3_a_part_is_read_with_one_Read :
  (forall w u data,
     file w (filePath u) = Some data ->
     fileSize u = Z.of_nat (length data) ->
     1 <= fileSize u <= int_max -> 1 <= partSize u <= int_max ->
     numParts u = (fileSize u + partSize u - 1) / partSize u ->
     let S := fileSize u in
     let P := partSize u in
     let len i := if i <? numParts u - 1 then P else S - (numParts u - 1) * P in
     (forall i, 0 <= i < numParts u ->
        partOffset u i = i * P
        /\ 0 <= readSize u i <= P
        /\ bytesAt data (partOffset u i) (readSize u i) = bytesAt data (i * P) (len i)
        /\ Z.of_nat (length (bytesAt data (i * P) (len i))) = len i
        /\ (i + 1 < numParts u -> len i = P /\ partOffset u (i + 1) = partOffset u i + len i)
        /\ (i + 1 = numParts u -> partOffset u i + len i = S)
        /\ (P <= maxRW ->
            forall url,
              at_index (presignedURLs u) i = Some url ->
              open_error w (Worker i) = None -> seek_error w (Worker i) = None ->
              read_error w (Worker i) = None -> put_request_error w url = None ->
              prepare w u i = Ready url (bytesAt data (i * P) (len i))
              /\ transferPart w u i
                 = match put w i url (bytesAt data (i * P) (len i)) with
                   | Err err => Fails (WrapPart "failed to upload part" i err)
                   | Ok resp =>
                     if negb (StatusCode resp =? 200)
                     then Fails (NonOKStatus i (StatusCode resp))
                     else Uploads url (bytesAt data (i * P) (len i)) resp
                   end))
     /\ concat ((fun i => bytesAt data (i * P) (len i)) <$> seqZ 0 (numParts u)) = data
     /\ sum_list ((fun i => length (bytesAt data (i * P) (len i))) <$> seqZ 0 (numParts u))
        = length data)
  /\ (fileSize bigUpload = Z.of_nat (length bigFile)
      /\ numParts bigUpload
         = (fileSize bigUpload + partSize bigUpload - 1) / partSize bigUpload
      /\ exists body0 body1 resp0 resp1,
           transferPart bigWorld bigUpload 0 = Uploads "u0" body0 resp0
           /\ transferPart bigWorld bigUpload 1 = Uploads "u1" body1 resp1
           /\ Z.of_nat (length body0) = 2 ^ 30
           /\ partSize bigUpload = 2 ^ 30 + 1
           /\ Z.of_nat (length body1) = 1
           /\ Z.of_nat (length (body0 ++ body1)) = fileSize bigUpload - 1).
Proof.
  assert (Hgeneral : forall w u data,
     file w (filePath u) = Some data ->
     fileSize u = Z.of_nat (length data) ->
     1 <= fileSize u <= int_max -> 1 <= partSize u <= int_max ->
     numParts u = (fileSize u + partSize u - 1) / partSize u ->
     let S := fileSize u in
     let P := partSize u in
     let len i := if i <? numParts u - 1 then P else S - (numParts u - 1) * P in
     (forall i, 0 <= i < numParts u ->
        partOffset u i = i * P
        /\ 0 <= readSize u i <= P
        /\ bytesAt data (partOffset u i) (readSize u i) = bytesAt data (i * P) (len i)
        /\ Z.of_nat (length (bytesAt data (i * P) (len i))) = len i
        /\ (i + 1 < numParts u -> len i = P /\ partOffset u (i + 1) = partOffset u i + len i)
        /\ (i + 1 = numParts u -> partOffset u i + len i = S)
        /\ (P <= maxRW ->
            forall url,
              at_index (presignedURLs u) i = Some url ->
              open_error w (Worker i) = None -> seek_error w (Worker i) = None ->
              read_error w (Worker i) = None -> put_request_error w url = None ->
              prepare w u i = Ready url (bytesAt data (i * P) (len i))
              /\ transferPart w u i
                 = match put w i url (bytesAt data (i * P) (len i)) with
                   | Err err => Fails (WrapPart "failed to upload part" i err)
                   | Ok resp =>
                     if negb (StatusCode resp =? 200)
                     then Fails (NonOKStatus i (StatusCode resp))
                     else Uploads url (bytesAt data (i * P) (len i)) resp
                   end))
     /\ concat ((fun i => bytesAt data (i * P) (len i)) <$> seqZ 0 (numParts u)) = data
     /\ sum_list ((fun i => length (bytesAt data (i * P) (len i))) <$> seqZ 0 (numParts u))
        = length data).
  { intros w u data Hfile HS HSr HPr Hn S P len.
    destruct (parts_of_the_file w u data Hfile HS HSr HPr Hn) as (Hparts & Hconcat & Hsum).
    split; [|split; [exact Hconcat|exact Hsum]].
    intros i Hi.
    destruct (Hparts i Hi) as (Ho & Hr & Hl & Hr2 & Hlen & Hnext & Hlast & _ & Hput).
    split; [exact Ho|]. split; [exact Hr|]. split; [exact Hr2|]. split; [exact Hlen|].
    split; [exact Hnext|]. split; [exact Hlast|].
    intros HP url Hurl Hopen Hseek Hread Hreq.
    destruct (Hput url Hurl Hopen Hseek Hread Hreq) as [Hprep Ht].
    rewrite Z.min_l in Hprep, Ht by (unfold P in HP; lia).
    split; [exact Hprep|exact Ht]. }
  split; [exact Hgeneral|]. clear Hgeneral.
  assert (Hsize : fileSize bigUpload = Z.of_nat (length bigFile)).
  { change (fileSize bigUpload) with (2 ^ 30 + 2).
    unfold bigFile. rewrite length_replicate. lia. }
  assert (Hlen : Z.of_nat (length bigFile) = 2 ^ 30 + 2).
  { unfold bigFile. rewrite length_replicate. lia. }
  assert (Hn : numParts bigUpload
               = (fileSize bigUpload + partSize bigUpload - 1) / partSize bigUpload).
  { change (2 = (2 ^ 30 + 2 + (2 ^ 30 + 1) - 1) / (2 ^ 30 + 1)). reflexivity. }
  assert (Hfile : file bigWorld (filePath bigUpload) = Some bigFile) by reflexivity.
  assert (Ho0 : partOffset bigUpload 0 = 0) by reflexivity.
  assert (Ho1 : partOffset bigUpload 1 = 2 ^ 30 + 1) by reflexivity.
  assert (Hr0 : readSize bigUpload 0 = 2 ^ 30 + 1) by reflexivity.
  assert (Hr1 : readSize bigUpload 1 = 1) by reflexivity.
  assert (HP : partSize bigUpload = 2 ^ 30 + 1) by reflexivity.
  pose proof maxRW_value as HM.
  pose proof (prepare_one_Read bigWorld bigUpload 0 "u0" bigFile eq_refl Hfile
                eq_refl eq_refl eq_refl eq_refl) as Hp0.
  pose proof (prepare_one_Read bigWorld bigUpload 1 "u1" bigFile eq_refl Hfile
                eq_refl eq_refl eq_refl eq_refl) as Hp1.
  rewrite Ho0, Hr0, HP in Hp0. rewrite Ho1, Hr1, HP in Hp1.
  specialize (Hp0 ltac:(lia) ltac:(lia)). specialize (Hp1 ltac:(lia) ltac:(lia)).
  pose proof (transferPart_prepared _ _ _ _ _ Hp0) as Ht0.
  pose proof (transferPart_prepared _ _ _ _ _ Hp1) as Ht1.
  split; [exact Hsize|]. split; [exact Hn|].
  eexists _, _, _, _. split; [exact Ht0|]. split; [exact Ht1|].
  rewrite length_app, Nat2Z.inj_add, !bytesAt_length_min, Hlen by lia.
  change (fileSize bigUpload) with (2 ^ 30 + 2).
  split; [lia|]. split; [exact HP|]. split; lia.
Qed.

(** C3, an instance with a part size below 1 GiB: the last part of the ten
    bytes in parts of four is read and sent whole. *)
Lemma C3_witness :
  prepare (world threeParts allTagged) (threePartUpload allTagged) 2
  = Ready "u2" [Byte.x61; Byte.x61]
  /\ transferPart (world threeParts allTagged) (threePartUpload allTagged) 2
     = Uploads "u2" [Byte.x61; Byte.x61]
               {| StatusCode := 200; Body := Ok ""; HeaderETag := quoted "c" |}.
Proof.
  destruct C3_a_part_is_read_with_one_Read as [Hgeneral _].
  destruct (Hgeneral (world threeParts allTagged) (threePartUpload allTagged) tenBytes
              eq_refl eq_refl) as (Hparts & _).
  - vm_compute. split; congruence.
  - vm_compute. split; congruence.
  - reflexivity.
  - destruct (Hparts 2) as (_ & _ & _ & _ & _ & _ & Hput);
      [vm_compute; split; congruence|].
    destruct (Hput ltac:(vm_compute; congruence) "u2" eq_refl eq_refl eq_refl eq_refl eq_refl)
      as [Hprep Ht].
    split; [exact Hprep|exact Ht].
Defined.

(** *** The validation of the file *)

Lemma allowedExtensions_list ext :
  index allowedExtensions ext = true <-> ext ∈ extensionList.
Proof.
  unfold index, allowedExtensions, extensionList. split.
  - destruct (list_to_map _ !! ext) as [[]|] eqn:E; try done. intros _.
    apply elem_of_list_to_map_2 in E. set_unfold in E. set_unfold.
    intuition congruence.
  - intros H. repeat (apply elem_of_cons in H as [->|H]; [done|]).
    by apply elem_of_nil in H.
Qed.

Lemma allowedMIMEs_list mimeType :
  index allowedMIMEs mimeType = true <-> mimeType ∈ mimeList.
Proof.
  unfold index, allowedMIMEs, mimeList. split.
  - destruct (list_to_map _ !! mimeType) as [[]|] eqn:E; try done. intros _.
    apply elem_of_list_to_map_2 in E. set_unfold in E. set_unfold.
    intuition congruence.
  - intros H. repeat (apply elem_of_cons in H as [->|H]; [done|]).
    by apply elem_of_nil in H.
Qed.

Lemma Read_start w data :
  Read w Validation data 0 512
  = match read_error w Validation with
    | Some msg => ([], Some (Raw msg))
    | None => (bytesAt data 0 512, if decide (data = []) then Some EOF else None)
    end.
Proof.
  unfold Read. destruct (read_error w Validation); [done|]. f_equal.
  destruct data as [|b data].
  - rewrite decide_True by (split; [done|lia]). by rewrite decide_True.
  - rewrite decide_False by (intros [He _]; discriminate He). by rewrite decide_False.
Qed.

(** C6 (as amended).  A path is accepted exactly when it is not empty and
    names an existing file whose lower-cased extension is one of the eight
    of the allow-list, which opens, whose first read of up to 512 bytes
    succeeds (so the file is not empty), and whose resolved MIME type is
    one of the seven of the allow-list; the resolved type is the one of
    the extension table when the table has one, whatever the content, and
    the one sniffed from the 512-byte buffer only when it has none. *)
Theorem C6_accepted_files w filePath uploadName :
  ((exists r, validate w filePath uploadName = inr r)
   <-> exists absPath data,
         filePath <> "" /\ Abs w filePath = Ok absPath /\ file w absPath = Some data
         /\ ToLower w (Ext absPath) ∈ extensionList
         /\ open_error w Validation = None /\ read_error w Validation = None
         /\ data <> []
         /\ resolveMIME w (ToLower w (Ext absPath)) (buffer512 (bytesAt data 0 512))
            ∈ mimeList)
  /\ (forall ext buffer,
        TypeByExtension w ext <> "" -> resolveMIME w ext buffer = TypeByExtension w ext)
  /\ (forall ext buffer,
        TypeByExtension w ext = "" -> resolveMIME w ext buffer = DetectContentType w buffer).
Proof.
  split; [|split].
  - unfold validate, notExist, Open. split.
    + intros [r Hr]. revert Hr.
      destruct (decide (filePath = "")); [done|].
      destruct (Abs w filePath) as [absPath|]; [|done].
      destruct (file w absPath) as [data|] eqn:Hfile;
        [|destruct (lookup_error w absPath); [|done];
          by destruct (index allowedExtensions _)].
      destruct (index allowedExtensions _) eqn:Hext; [|done]. simpl.
      destruct (open_error w Validation) eqn:Hopen; [done|].
      rewrite Read_start.
      destruct (read_error w Validation) eqn:Hread; [done|].
      destruct (decide (data = [])); [done|].
      destruct (index allowedMIMEs _) eqn:Hmime; [|done]. intros _.
      exists absPath, data. rewrite Hfile.
      apply allowedExtensions_list in Hext. apply allowedMIMEs_list in Hmime. done.
    + intros (absPath & data & Hne & Habs & Hfile & Hext & Hopen & Hread & Hdata & Hmime).
      apply allowedExtensions_list in Hext. apply allowedMIMEs_list in Hmime.
      destruct (decide (filePath = "")); [done|].
      rewrite Habs, Hfile, Hext, Hopen. simpl. rewrite Read_start, Hread.
      destruct (decide (data = [])); [done|]. rewrite Hmime. simpl. eauto.
  - intros ext buffer H. unfold resolveMIME. by destruct (decide _).
  - intros ext buffer H. unfold resolveMIME. by destruct (decide _).
Qed.

(** C6, its counterexample: the empty file [/media/empty.jpg] has an
    allowed extension and the allowed type of its extension, and is
    refused. *)
Lemma C6_counterexample :
  validate (world threeParts allStored) "/media/empty.jpg" "" = inl (UnableToReadFile EOF)
  /\ ~ accepted_iff_allow_listed.
Proof.
  assert (Hv : validate (world threeParts allStored) "/media/empty.jpg" ""
               = inl (UnableToReadFile EOF)) by (vm_compute; reflexivity).
  split; [done|]. intros H.
  destruct (H (world threeParts allStored) "/media/empty.jpg" "" "/media/empty.jpg" [])
    as [_ Hacc]; try done.
  destruct Hacc as [r Hr].
  - split; vm_compute; set_solver.
  - rewrite Hv in Hr. congruence.
Qed.

(** C6, an instance: the ten bytes of [/media/clip.mp4] are accepted. *)
Lemma C6_witness :
  exists r, validate (world threeParts allStored) "/media/clip.mp4" "" = inr r.
Proof.
  apply (C6_accepted_files (world threeParts allStored) "/media/clip.mp4" "").
  exists "/media/clip.mp4", tenBytes.
  repeat split; try done; vm_compute; set_solver.
Defined.

(** C9.  For an empty file with an allowed extension the command ends in
    the validation, with the exit of a file that cannot be opened or
    read, under every schedule and without a call to the network; when
    the file opens and no I/O error occurs it is the exit of the read
    that failed with [io.EOF].  A file of 1 to 511 bytes whose read meets
    no I/O error is not refused by the read. *)
Theorem C9_empty_file_rejected_locally :
  (forall w filePath uploadName absPath sched,
     filePath <> "" -> Abs w filePath = Ok absPath -> file w absPath = Some [] ->
     index allowedExtensions (ToLower w (Ext absPath)) = true ->
     (exists e, uploadCmd w filePath uploadName sched = (Exit1 (UnableToOpenFile e), [])
                \/ uploadCmd w filePath uploadName sched = (Exit1 (UnableToReadFile e), []))
     /\ (open_error w Validation = None -> read_error w Validation = None ->
         uploadCmd w filePath uploadName sched = (Exit1 (UnableToReadFile EOF), [])))
  /\ (forall w filePath uploadName absPath data,
        filePath <> "" -> Abs w filePath = Ok absPath -> file w absPath = Some data ->
        (1 <= length data <= 511)%nat -> read_error w Validation = None ->
        forall e, validate w filePath uploadName <> inl (UnableToReadFile e)).
Proof.
  split.
  - intros w filePath uploadName absPath sched Hne Habs Hfile Hext.
    unfold uploadCmd, validate, notExist, Open.
    destruct (decide (filePath = "")); [done|].
    rewrite Habs, Hfile, Hext. simpl.
    destruct (open_error w Validation) as [e|]; [split; [eauto|done]|].
    rewrite Read_start.
    destruct (read_error w Validation) as [msg|]; [split; [eauto|done]|].
    simpl. split; [eauto|done].
  - intros w filePath uploadName absPath data Hne Habs Hfile Hlen Hread e.
    unfold validate, notExist, Open.
    destruct (decide (filePath = "")); [done|].
    rewrite Habs, Hfile.
    destruct (negb (index allowedExtensions _)); [done|].
    destruct (open_error w Validation); [done|].
    rewrite Read_start, Hread.
    destruct (decide (data = [])) as [->|]; [simpl in Hlen; lia|].
    by destruct (negb (index allowedMIMEs _)).
Qed.

(** C9, an instance: the empty file [/media/empty.jpg], and the ten bytes
    of [/media/clip.mp4]. *)
Lemma C9_witness :
  uploadCmd (world threeParts allStored) "/media/empty.jpg" "" inTurn
  = (Exit1 (UnableToReadFile EOF), [])
  /\ validate (world threeParts allStored) "/media/clip.mp4" ""
     <> inl (UnableToReadFile EOF).
Proof.
  destruct C9_empty_file_rejected_locally as [H0 H1]. split.
  - apply (H0 (world threeParts allStored) "/media/empty.jpg" "" "/media/empty.jpg" inTurn);
      try done.
  - apply (H1 (world threeParts allStored) "/media/clip.mp4" "" "/media/clip.mp4" tenBytes);
      try done.
    vm_compute. split; apply Nat.leb_le; reflexivity.
Defined.

(** *** The answers of the control plane *)

(** A status outside the 200 range whose body decodes as a Go string is
    not an error of [DoRequest]: the target is left as it was. *)
Lemma DoRequest_non_success (net : Network) `{JSON string} `{JSON jsonMap}
    {P T : Type} `{JSON P} `{JSON T}
    (c : Client) (method path : string) (p : P) (target : T) text req resp body msg :
  Marshal p = Ok text ->
  NewRequest net method (JoinPath net (baseURL c) path) (Some text) = Ok req ->
  Do net (setHeader "Content-Type" "application/json"
            (setHeader "Authorization" ("Bearer " +:+ apiKey c) req)) = Ok resp ->
  StatusCode resp < 200 \/ 300 <= StatusCode resp ->
  Body resp = Ok body -> Decode body "" = Ok msg ->
  DoRequest net c method path (Some p) target
  = Ok ({| Data := None; Error := msg; Status := StatusCode resp |}, target).
Proof.
  intros Hm Hreq Hdo Hstatus Hbody Hdec. unfold DoRequest.
  rewrite Hm. simpl. rewrite Hreq. simpl. rewrite Hdo. simpl.
  replace ((StatusCode resp <? 200) || (300 <=? StatusCode resp)) with true.
  - rewrite Hbody. simpl. by rewrite Hdec.
  - symmetry. apply orb_true_iff. rewrite Z.ltb_lt, Z.leb_le. done.
Qed.

(** C4, the code at the failing input.  The control plane answers 404 to
    the creation and 500 to the completion, each with a JSON string as
    its body: [CreateMediaUpload] gives the zero response and no error,
    [CompleteMultipartUpload] gives no error, and the command makes both
    calls and ends with the message of success. *)
Theorem C4_non_success_status_is_not_an_error :
  createMediaUpload refusingControlPlane "clip.mp4" 10 = Ok zeroCreateMediaUploadResponse
  /\ completeMultipartUpload refusingControlPlane "" "" [] = None
  /\ uploadCmd refusingControlPlane "/media/clip.mp4" "" nothingToDo
     = (Success, [CreateCall "clip.mp4" 10; CompleteCall "" "" []]).
Proof. repeat split; vm_compute; reflexivity. Qed.

(** *** The progress bar *)

(** The counter of the bar is the number of parts stored so far. *)
Lemma bar_counts_completed w u sched :
  bar (run w u sched (init u)) = Z.of_nat (length (completed (run w u sched (init u)))).
Proof. apply inv_bar with w u, reachable_Inv. Qed.

(** An action adds one to the counter or leaves it. *)
Lemma bar_monotone w u a st :
  bar (step w u a st) = bar st \/ bar (step w u a st) = bar st + 1.
Proof.
  unfold step. destruct (state st); [|by left..].
  destruct a; repeat case_match; simpl; auto.
Qed.

(** C8, the code at the failing input.  Of four parts, parts 0 and 1 are
    in flight and part 1 is stored first, 8 seconds after the start: the
    counter shows one part, three remain, and the bar shows 8 seconds
    where three times the 8 seconds of one part are 24 seconds.  Had part
    0 been the one stored at that moment, the bar would show the 24
    seconds. *)
Theorem C8_estimate_uses_part_index :
  completed secondPartFirstRun = [1] /\ bar secondPartFirstRun = 1
  /\ label secondPartFirstRun = Some (8 * Second)
  /\ remaining_spec (NumParts fourParts - bar secondPartFirstRun)
                    (bar secondPartFirstRun) 8000000000
     = 24 * Second
  /\ completed firstPartFirstRun = [0] /\ bar firstPartFirstRun = 1
  /\ label firstPartFirstRun = Some (24 * Second).
Proof. repeat split; vm_compute; reflexivity. Qed.

(** ** The calls and the pool of [multipartUpload] *)

Lemma putParts_app cs cs' : putParts (cs ++ cs') = putParts cs ++ putParts cs'.
Proof. unfold putParts. apply omap_app. Qed.

Lemma CallsInv_init w u : CallsInv w u (init u).
Proof.
  exists []. split; [|done].
  unfold lastCalls, init; simpl. by destruct (numParts u <? 0).
Qed.

Lemma lastCalls_Running u st : state st = Running -> lastCalls u st = [].
Proof. unfold lastCalls. by intros ->. Qed.

Lemma step_CallsInv w u a st : CallsInv w u st -> CallsInv w u (step w u a st).
Proof.
  intros [puts [Hcalls Hputs]].
  unfold step. destruct (state st) eqn:Hst; [|by exists puts..].
  rewrite lastCalls_Running in Hcalls by done. rewrite app_nil_r in Hcalls.
  destruct a.
  - case_match; [|exists puts; by rewrite lastCalls_Running, app_nil_r].
    exists puts. by rewrite lastCalls_Running, app_nil_r.
  - case_match; [|exists puts; by rewrite lastCalls_Running, app_nil_r].
    exists puts. by rewrite lastCalls_Running, app_nil_r.
  - repeat case_match; exists puts; by rewrite lastCalls_Running, app_nil_r.
  - destruct (busy st !! k) as [partNum|];
      [|exists puts; by rewrite lastCalls_Running, app_nil_r].
    destruct (transferPart w u partNum).
    + exists puts. unfold lastCalls; simpl. by rewrite app_nil_r.
    + exists (puts ++ putCalls w u partNum). rewrite lastCalls_Running by done.
      simpl. split; [by rewrite Hcalls, app_nil_r|].
      rewrite fmap_app; simpl. rewrite !bind_app; simpl. rewrite app_nil_r.
      rewrite Hputs, bind_app. solve_Permutation.
    + destruct (at_index (parts st) partNum).
      * exists (puts ++ putCalls w u partNum). rewrite lastCalls_Running by done.
        simpl. split; [by rewrite Hcalls, app_nil_r|].
        rewrite !bind_app; simpl. rewrite app_nil_r.
        rewrite Hputs, bind_app. solve_Permutation.
      * exists puts. unfold lastCalls; simpl. by rewrite app_nil_r.
  - repeat case_match; exists puts; by rewrite lastCalls_Running, app_nil_r.
  - repeat case_match; exists puts; by rewrite lastCalls_Running, app_nil_r.
  - destruct (closed st), (idle st), (busy st), (reporting st);
      try (exists puts; by rewrite lastCalls_Running, app_nil_r).
    destruct (errChan st) eqn:E; exists puts; unfold lastCalls; simpl.
    + by rewrite Hcalls.
    + by rewrite app_nil_r.
Qed.

Lemma reachable_CallsInv w u sched : CallsInv w u (run w u sched (init u)).
Proof.
  unfold run. generalize (CallsInv_init w u). generalize (init u).
  induction sched as [|a sched IH]; intros st HI; simpl; [done|].
  apply IH. by apply step_CallsInv.
Qed.

Lemma putParts_putCalls w u (l : list Z) :
  putParts (l ≫= putCalls w u)
  = omap (fun j => match prepare w u j with Ready _ _ => Some j | _ => None end) l.
Proof.
  induction l as [|j l IH]; [done|].
  change ((j :: l) ≫= putCalls w u) with (putCalls w u j ++ l ≫= putCalls w u).
  rewrite putParts_app, IH. unfold putCalls; simpl.
  by destruct (prepare w u j).
Qed.

Lemma omap_guard_sublist {A} (f : A -> bool) (l : list A) :
  omap (fun j => if f j then Some j else None) l `sublist_of` l.
Proof.
  induction l as [|j l IH]; simpl; [done|].
  destruct (f j); by constructor.
Qed.

Lemma putParts_bind_sublist w u (l : list Z) :
  putParts (l ≫= putCalls w u) `sublist_of` l.
Proof.
  rewrite putParts_putCalls.
  induction l as [|j l IH]; simpl; [done|].
  destruct (prepare w u j); by constructor.
Qed.

Lemma elem_of_putCalls w u j c :
  c ∈ putCalls w u j <-> exists url body, c = PutCall j url body /\ prepare w u j = Ready url body.
Proof.
  unfold putCalls. destruct (prepare w u j) eqn:E.
  - split; [intros Hc; by apply elem_of_nil in Hc | intros (? & ? & _ & ?); done].
  - split; [intros Hc; by apply elem_of_nil in Hc | intros (? & ? & _ & ?); done].
  - rewrite list_elem_of_singleton. split.
    + intros ->. eauto.
    + intros (? & ? & -> & ?). congruence.
Qed.

Lemma putParts_lastCalls u st : putParts (lastCalls u st) = [].
Proof. unfold lastCalls. by repeat case_match. Qed.

Lemma elem_of_lastCalls u st j url body : PutCall j url body ∉ lastCalls u st.
Proof.
  unfold lastCalls. intros Hin.
  repeat case_match; try (by apply elem_of_nil in Hin);
    by apply list_elem_of_singleton in Hin.
Qed.

Lemma finished_NoDup w u st : Inv w u st -> NoDup ((failures st).*1 ++ completed st).
Proof.
  intros HI. fields HI.
  assert (NoDup (jobs st ++ busy st ++ (failures st).*1 ++ completed st)) as Hnd.
  { rewrite Hjobs. apply NoDup_seqZ. }
  apply NoDup_app in Hnd as (_ & _ & Hnd). by apply NoDup_app in Hnd as (_ & _ & Hnd).
Qed.

Lemma finished_range w u st j :
  Inv w u st -> j ∈ (failures st).*1 ++ completed st -> 0 <= j < numParts u.
Proof.
  intros HI Hj. pose proof HI as HI'. fields HI.
  assert (0 <= j < next st).
  { eapply tracked_range; [exact Hjobs|]. rewrite !elem_of_app. right; right.
    by apply elem_of_app. }
  lia.
Qed.

(** X1. No part is transferred twice, also counting the transfers in
    flight: in every state of a run the parts that workers have taken from
    [jobs], in flight, failed or stored, are pairwise distinct and below
    [numParts], and so are the parts of the PUT requests listed.  A worker
    that reaches the PUT request of part [partNum] sends it to
    [presignedURLs[partNum]] with what one [Read] gave at [partOffset]:
    the bytes of the file from there, up to [readSize] and up to [maxRW]
    of them. *)
Theorem each_part_is_transferred_at_most_once w u sched :
  let st := run w u sched (init u) in
  NoDup (busy st ++ (failures st).*1 ++ completed st)
  /\ (forall j, j ∈ busy st ++ (failures st).*1 ++ completed st -> 0 <= j < numParts u)
  /\ NoDup (putParts (calls st))
  /\ (forall j url body, PutCall j url body ∈ calls st ->
        0 <= j < numParts u /\ prepare w u j = Ready url body)
  /\ (forall j url body, prepare w u j = Ready url body ->
        at_index (presignedURLs u) j = Some url
        /\ forall data, file w (filePath u) = Some data ->
             body = bytesAt data (partOffset u j) (Z.min (readSize u j) maxRW)).
Proof.
  intros st.
  pose proof (reachable_Inv w u sched) as HI.
  destruct (reachable_CallsInv w u sched) as [puts [Hcalls Hputs]].
  fold st in HI, Hcalls, Hputs.
  split; [|split; [|split; [|split]]].
  - assert (NoDup (jobs st ++ busy st ++ (failures st).*1 ++ completed st)) as Hnd.
    { rewrite (inv_jobs _ _ _ HI). apply NoDup_seqZ. }
    by apply NoDup_app in Hnd as (_ & _ & Hnd).
  - intros j Hj.
    assert (0 <= j < next st).
    { eapply tracked_range; [exact (inv_jobs _ _ _ HI)|]. apply elem_of_app. by right. }
    pose proof (inv_next _ _ _ HI). lia.
  - rewrite Hcalls, putParts_app, putParts_lastCalls, app_nil_r.
    unfold putParts. rewrite Hputs.
    fold (putParts (((failures st).*1 ++ completed st) ≫= putCalls w u)).
    eapply sublist_NoDup; [by eapply finished_NoDup|apply putParts_bind_sublist].
  - intros j url body Hin. rewrite Hcalls in Hin.
    apply elem_of_app in Hin as [Hin|Hin]; [|by apply elem_of_lastCalls in Hin].
    rewrite Hputs in Hin. apply list_elem_of_bind in Hin as (j' & Hc & Hj').
    apply elem_of_putCalls in Hc as (url' & body' & Heq & Hprep).
    injection Heq as -> -> ->.
    split; [eapply finished_range; eauto|done].
  - intros j url body Hprep. split; [by eapply prepare_Ready_index|].
    intros data Hfile. by eapply prepare_Ready_body.
Qed.

Lemma each_part_is_transferred_at_most_once_witness :
  (0 <= 1 < 3)
  /\ prepare (world threeParts twoRefused) (threePartUpload twoRefused) 1
     = Ready "u1" (replicate 4 Byte.x61).
Proof.
  assert (calls (run (world threeParts twoRefused) (threePartUpload twoRefused)
                     secondErrorFirst (init (threePartUpload twoRefused)))
          = [PutCall 0 "u0" (replicate 4 Byte.x61); PutCall 1 "u1" (replicate 4 Byte.x61)])
    as Hcalls.
  { vm_compute. reflexivity. }
  destruct (each_part_is_transferred_at_most_once (world threeParts twoRefused)
              (threePartUpload twoRefused) secondErrorFirst) as (_ & _ & _ & Hput & _).
  apply (Hput 1 "u1" (replicate 4 Byte.x61)).
  rewrite Hcalls. apply list_elem_of_further, list_elem_of_here.
Defined.

Lemma systemConcurrency_ge w : 2 <= systemConcurrency w.
Proof.
  unfold systemConcurrency, defaultConcurrency.
  destruct (1 <? NumCPU w) eqn:E; [apply Z.ltb_lt in E|]; lia.
Qed.

Lemma puts_are_puts w u (l : list Z) (puts : list call) :
  puts ≡ₚ l ≫= putCalls w u -> Forall (fun c => isPut c = true) puts.
Proof.
  intros Hputs. apply Forall_forall. intros c Hc. rewrite Hputs in Hc.
  apply list_elem_of_bind in Hc as (j & Hc & _).
  by apply elem_of_putCalls in Hc as (url & body & -> & _).
Qed.

(** X2. The calls of [multipartUpload] follow the protocol: none when
    [os.Stat] fails; otherwise the creation of the session first, with the
    size [os.Stat] gave, then PUT requests only, no part twice, and then at
    most one call of the Finalizer, which is the last call, is made with
    the slice [parts] and only in a run that returned without a failed
    part. *)
Theorem calls_follow_the_protocol w filePath fileName sched :
  let st := multipartUpload w filePath fileName sched in
  (exists err, Stat w filePath = Err err /\ calls st = []
               /\ state st = Returned (Some (Wrap "failed to get file info" err)))
  \/ exists fileSize puts tail,
       Stat w filePath = Ok fileSize
       /\ calls st = CreateCall fileName fileSize :: puts ++ tail
       /\ Forall (fun c => isPut c = true) puts
       /\ NoDup (putParts puts)
       /\ (tail = []
           \/ exists s r,
                createMediaUpload w fileName fileSize = Ok s
                /\ tail = [CompleteCall (ID (MediaUpload' s)) (UploadID s) (parts st)]
                /\ state st = Returned r /\ failures st = []).
Proof.
  intros st. subst st. unfold multipartUpload.
  destruct (Stat w filePath) as [fileSize|err]; [|left; eauto].
  right. exists fileSize.
  destruct (createMediaUpload w fileName fileSize) as [s|err] eqn:E.
  - set (u := upload w filePath fileSize s).
    pose proof (reachable_Inv w u sched) as HI.
    destruct (reachable_CallsInv w u sched) as [puts [Hcalls Hputs]].
    exists puts, (lastCalls u (run w u sched (init u))). simpl.
    split; [done|]. split; [by rewrite Hcalls|].
    split; [by eapply puts_are_puts|]. split.
    { unfold putParts. rewrite Hputs.
      eapply sublist_NoDup; [by eapply finished_NoDup|apply putParts_bind_sublist]. }
    unfold lastCalls.
    destruct (state (run w u sched (init u))) as [| |r] eqn:Hst; [by left..|].
    destruct (errChan (run w u sched (init u))) eqn:Herr; [|by left].
    right. exists s, r. split; [done|]. split; [done|]. split; [done|].
    fields HI. rewrite Hst in Hstate. destruct Hstate as (_ & _ & _ & Hrep & _).
    rewrite Herr, Hrep in Herrs. simpl in Herrs.
    apply Permutation_nil_l in Herrs. symmetry in Herrs. by apply fmap_nil_inv in Herrs.
  - exists [], []. simpl. split; [done|]. split; [done|]. split; [done|].
    split; [apply NoDup_nil_2|by left].
Qed.

Lemma omap_Ready_all w u (l : list Z) :
  (forall j, j ∈ l -> exists url body, prepare w u j = Ready url body) ->
  omap (fun j => match prepare w u j with Ready _ _ => Some j | _ => None end) l = l.
Proof.
  induction l as [|j l IH]; intros Hall; [done|]. simpl.
  destruct (Hall j) as (url & body & ->); [apply list_elem_of_here|].
  simpl. f_equal. apply IH. intros j' Hj'. apply Hall. by apply elem_of_cons; right.
Qed.

(** X3. A run that returns [nil] has made exactly these calls: the
    creation of the session, one PUT request for each part 0 .. NumParts - 1
    (in some order), each to the target of its part and answered 200, and
    the call of the Finalizer. *)
Theorem successful_run_puts_every_part_once w filePath fileName sched :
  let st := multipartUpload w filePath fileName sched in
  state st = Returned None ->
  exists fileSize s puts,
    Stat w filePath = Ok fileSize
    /\ createMediaUpload w fileName fileSize = Ok s
    /\ calls st = CreateCall fileName fileSize :: puts
                  ++ [CompleteCall (ID (MediaUpload' s)) (UploadID s) (parts st)]
    /\ Forall (fun c => isPut c = true) puts
    /\ putParts puts ≡ₚ seqZ 0 (NumParts s)
    /\ forall j url body, PutCall j url body ∈ puts ->
         at_index (PresignedURLs s) j = Some url
         /\ exists resp, put w j url body = Ok resp /\ StatusCode resp = 200.
Proof.
  intros st Hst. subst st.
  destruct (multipartUpload_cases w filePath fileName sched)
    as [(err & cs & Heq & Hc)|(fileSize & s & HS & Hcr & Heq)].
  { rewrite Heq in Hst. done. }
  set (u := upload w filePath fileSize s) in *.
  pose proof (reachable_Inv w u sched) as HI.
  destruct (reachable_CallsInv w u sched) as [puts [Hcalls Hputs]].
  rewrite Heq in Hst |- *. simpl in Hst |- *.
  assert (Hc : 0 < concurrency u).
  { simpl. pose proof (systemConcurrency_ge w). lia. }
  destruct (pool_success _ _ _ HI Hc Hst) as (_ & _ & _ & Hfail & Hcompl & _ & _).
  fold u in Hcalls, Hputs. rewrite Hfail in Hputs. simpl in Hputs.
  assert (Hready : forall j, j ∈ completed (run w u sched (init u)) ->
                     exists url body resp, prepare w u j = Ready url body
                                           /\ put w j url body = Ok resp
                                           /\ StatusCode resp = 200).
  { intros j Hj. destruct (inv_completed _ _ _ HI j Hj) as (url & body & resp & Ht & _).
    apply transferPart_Uploads in Ht. eauto. }
  exists fileSize, s, puts. split; [done|]. split; [done|]. split.
  { rewrite Hcalls. unfold lastCalls. rewrite Hst.
    pose proof (inv_state _ _ _ HI) as Hstate.
    rewrite Hst in Hstate. destruct Hstate as (_ & _ & _ & Hrep & Hfin).
    destruct (errChan (run w u sched (init u))); [done|]. by destruct Hfin. }
  split; [by eapply puts_are_puts|]. split.
  { unfold putParts. rewrite Hputs.
    fold (putParts (completed (run w u sched (init u)) ≫= putCalls w u)).
    rewrite putParts_putCalls, omap_Ready_all; [done|].
    intros j Hj. destruct (Hready j Hj) as (url & body & _ & ? & _). eauto. }
  intros j url body Hin. rewrite Hputs in Hin.
  apply list_elem_of_bind in Hin as (j' & Hcall & Hj').
  apply elem_of_putCalls in Hcall as (url' & body' & Heq' & Hprep).
  injection Heq' as -> -> ->.
  destruct (Hready j' Hj') as (url & body & resp & Hprep' & Hput & H200).
  rewrite Hprep in Hprep'. injection Hprep' as <- <-.
  split; [by apply prepare_Ready_index in Hprep|eauto].
Qed.

Lemma successful_run_puts_every_part_once_witness :
  exists puts,
    calls storedRun
    = CreateCall "clip.mp4" 10 :: puts ++ [CompleteCall "m" "up" (parts storedRun)]
    /\ putParts puts ≡ₚ [0; 1; 2].
Proof.
  destruct (successful_run_puts_every_part_once (world threeParts allTagged)
              "/media/clip.mp4" "clip.mp4" inTurn eq_refl)
    as (fileSize & s & puts & HS & Hcr & Hcalls & _ & Hparts & _).
  injection HS as <-. injection Hcr as <-.
  exists puts. split; [exact Hcalls|exact Hparts].
Defined.

(** X4. The pool has at least two workers ([systemConcurrency]), and at no
    time are there more transfers in flight than workers: the workers at
    the different points of the loop never add up to more than the pool. *)
Theorem transfers_in_flight_bounded w filePath fileName sched :
  let st := multipartUpload w filePath fileName sched in
  2 <= systemConcurrency w
  /\ (length (busy st) <= Z.to_nat (systemConcurrency w))%nat
  /\ (idle st + length (busy st) + length (reporting st) + exited st + failed st
      <= Z.to_nat (systemConcurrency w))%nat.
Proof.
  intros st. subst st. split; [apply systemConcurrency_ge|].
  destruct (multipartUpload_cases w filePath fileName sched)
    as [(err & cs & Heq & Hc)|(fileSize & s & HS & Hcr & Heq)]; rewrite Heq; simpl.
  - lia.
  - pose proof (inv_workers _ _ _
                  (reachable_Inv w (upload w filePath fileSize s) sched)) as Hw.
    simpl in Hw. lia.
Qed.

Lemma list_Permutation_length_le {A} (l k m : list A) :
  l ++ k ≡ₚ m -> (length l <= length m)%nat.
Proof. intros HP. rewrite <- HP, length_app. lia. Qed.

(** X5. No goroutine ever waits on a send: while the function runs, the
    channel [jobs] has room for the next job whenever the coordinator has
    one to send, and [errChan] has room for the error of every worker
    that has one to report. *)
Theorem sends_never_block w u sched :
  let st := run w u sched (init u) in
  state st = Running ->
  (closed st = false -> next st < numParts u ->
     jobs (step w u Send st) = jobs st ++ [next st]
     /\ next (step w u Send st) = next st + 1)
  /\ (forall k err, reporting st !! k = Some err ->
        errChan (step w u (Report k) st) = errChan st ++ [err]
        /\ reporting (step w u (Report k) st) = delete k (reporting st)).
Proof.
  intros st Hst. pose proof (reachable_Inv w u sched) as HI. fold st in HI.
  pose proof (failures_bound _ _ _ HI) as Hbound. fields HI. split.
  - intros Hcl Hn.
    assert (Z.of_nat (length (jobs st)) < numParts u) as Hlen.
    { pose proof (list_Permutation_length_le _ _ _ Hjobs) as Hle.
      rewrite length_seqZ in Hle. lia. }
    unfold step. rewrite Hst, Hcl. simpl.
    destruct (next st <? numParts u) eqn:E1; [|apply Z.ltb_ge in E1; lia].
    destruct (Z.of_nat (length (jobs st)) <? numParts u) eqn:E2;
      [|apply Z.ltb_ge in E2; lia].
    done.
  - intros k err Hk.
    assert (length (errChan st) < length (presignedURLs u))%nat as Hlen.
    { apply Permutation_length in Herrs.
      rewrite length_app, length_fmap in Herrs.
      apply lookup_lt_Some in Hk. lia. }
    unfold step. rewrite Hst, Hk.
    destruct (length (errChan st) <? length (presignedURLs u))%nat eqn:E;
      [done|apply Nat.ltb_ge in E; lia].
Qed.

Lemma step_happens_measure w u a st :
  step w u a st <> st -> (measure u (step w u a st) < measure u st)%nat.
Proof. intros Hne. by destruct (step_measure w u a st). Qed.

Lemma allHappen_length w u sched st :
  allHappen w u sched st -> (length sched + measure u (run w u sched st) <= measure u st)%nat.
Proof.
  revert st. induction sched as [|a sched IH]; intros st Hall.
  - unfold run; simpl. lia.
  - destruct Hall as [Hne Hall]. apply IH in Hall.
    apply step_happens_measure in Hne.
    change (run w u (a :: sched) st) with (run w u sched (step w u a st)).
    cbn [length]. lia.
Qed.

(** X6. The pool terminates and is never stuck: a schedule in which
    every action happens has at most [2 + 3 * numParts + concurrency]
    actions, and while the function is running some action can happen. *)
Theorem the_pool_terminates w u :
  (forall sched,
     allHappen w u sched (init u) ->
     (length sched <= 2 + 3 * Z.to_nat (numParts u) + Z.to_nat (concurrency u))%nat)
  /\ (forall sched,
        state (run w u sched (init u)) = Running ->
        exists a, step w u a (run w u sched (init u)) <> run w u sched (init u)).
Proof.
  split.
  - intros sched Hall. apply allHappen_length in Hall.
    assert (measure u (init u)
            <= 2 + 3 * Z.to_nat (numParts u) + Z.to_nat (concurrency u))%nat.
    { unfold measure, init; simpl. rewrite Z.sub_0_r.
      destruct (numParts u <? 0); lia. }
    lia.
  - intros sched Hst.
    destruct (progress w u _ (reachable_Inv w u sched) Hst) as [a Ha].
    exists a. intros Heq. rewrite Heq in Ha. lia.
Qed.

(** X7. A failed part cancels nothing.  When [multipartUpload] returns,
    every worker has left its loop, no transfer is in flight, and every
    part has been transferred, has failed or is still in [jobs]; parts are
    left in [jobs] only when every worker of the pool has failed. *)
Theorem no_transfer_is_cancelled w u sched r :
  let st := run w u sched (init u) in
  state st = Returned r ->
  busy st = [] /\ reporting st = []
  /\ (exited st + failed st)%nat = Z.to_nat (concurrency u)
  /\ jobs st ++ (failures st).*1 ++ completed st ≡ₚ seqZ 0 (numParts u)
  /\ (jobs st <> [] ->
        failed st = Z.to_nat (concurrency u)
        /\ (Z.to_nat (concurrency u) <= length (failures st))%nat).
Proof.
  intros st Hst. pose proof (reachable_Inv w u sched) as HI. fold st in HI.
  fields HI. rewrite Hst in Hstate.
  destruct Hstate as (Hcl & Hidle & Hbusy & Hrep & _).
  assert (0 <= numParts u) as Hnn.
  { destruct (Z.lt_ge_cases (numParts u) 0) as [Hlt|]; [|done].
    apply Hneg in Hlt. congruence. }
  assert (next st = numParts u) as Hnx by (specialize (Hclosed Hcl); lia).
  rewrite Hbusy in Hjobs. simpl in Hjobs. rewrite Hnx in Hjobs.
  split; [done|]. split; [done|].
  split; [rewrite Hidle, Hbusy, Hrep in Hwork; simpl in Hwork; lia|]. split; [done|].
  intros Hleft.
  assert (exited st = 0)%nat as Hex.
  { destruct (exited st) eqn:E; [done|].
    destruct Hexit as [_ Hnil]; [lia|]. done. }
  rewrite Hidle, Hbusy, Hrep, Hex in Hwork. simpl in Hwork.
  split; [done|].
  apply Permutation_length in Herrs. rewrite Hrep, app_nil_r, length_fmap in Herrs.
  lia.
Qed.

(** X8. In every state of a run an entry of [parts] is the zero [Part],
    or the entry that the transfer of the part with its index wrote: its
    [PartNumber] is its index plus one, its [ETag] the header of the answer
    to that part, and that part is among the completed ones. *)
Theorem parts_are_written_by_their_own_part w u sched (i : nat) p :
  let st := run w u sched (init u) in
  parts st !! i = Some p ->
  (i < length (presignedURLs u))%nat
  /\ ((p = zeroPart /\ Z.of_nat i ∉ completed st)
      \/ exists url body resp,
           transferPart w u (Z.of_nat i) = Uploads url body resp
           /\ p = {| PartNumber := Z.of_nat i + 1; ETag := Some (HeaderETag resp) |}
           /\ Z.of_nat i ∈ completed st).
Proof.
  intros st Hp. pose proof (reachable_Inv w u sched) as HI. fold st in HI.
  fields HI. pose proof (lookup_lt_Some _ _ _ Hp) as Hlt.
  split; [by rewrite <- Hparts|].
  destruct (decide (Z.of_nat i ∈ completed st)) as [Hin|Hout].
  - right. destruct (Hcomp _ Hin) as (url & body & resp & Ht & Hi).
    rewrite Nat2Z.id, Hp in Hi. injection Hi as ->. eauto 10.
  - left. rewrite (Hunt i Hout Hlt) in Hp. by injection Hp as <-.
Qed.

(** X9. The counter of the progress bar is the number of parts stored so
    far, each counted once; it is never above [NumParts], and it is
    [NumParts] when the function returns [nil]. *)
Theorem the_bar_counts_stored_parts w filePath fileName sched :
  let st := multipartUpload w filePath fileName sched in
  bar st = Z.of_nat (length (completed st))
  /\ NoDup (completed st)
  /\ forall fileSize s,
       Stat w filePath = Ok fileSize -> createMediaUpload w fileName fileSize = Ok s ->
       0 <= bar st <= Z.max 0 (NumParts s)
       /\ (state st = Returned None -> bar st = NumParts s).
Proof.
  intros st. subst st.
  destruct (multipartUpload_cases w filePath fileName sched)
    as [(err & cs & Heq & Hc)|(fileSize & s & HS & Hcr & Heq)]; rewrite Heq; simpl.
  - split; [done|]. split; [apply NoDup_nil_2|].
    intros fileSize s HS Hcr. split; [lia|done].
  - set (u := upload w filePath fileSize s).
    pose proof (reachable_Inv w u sched) as HI.
    pose proof (finished_NoDup _ _ _ HI) as Hnd.
    apply NoDup_app in Hnd as (_ & _ & Hnd).
    split; [apply (inv_bar _ _ _ HI)|]. split; [done|].
    intros fileSize' s' HS' Hcr'. rewrite HS in HS'. injection HS' as <-.
    rewrite Hcr in Hcr'. injection Hcr' as <-.
    rewrite (inv_bar _ _ _ HI). split.
    + split; [lia|].
      pose proof (inv_jobs _ _ _ HI) as Hjobs. pose proof (inv_next _ _ _ HI) as Hnext.
      apply Permutation_length in Hjobs. rewrite !length_app, length_seqZ in Hjobs.
      unfold numParts in Hnext; simpl in Hnext. lia.
    + intros Hst.
      assert (Hc : 0 < concurrency u).
      { simpl. pose proof (systemConcurrency_ge w). lia. }
      destruct (pool_success _ _ _ HI Hc Hst) as (_ & _ & Hn & _ & Hcompl & _).
      rewrite Hcompl, length_seqZ. unfold numParts in Hn |- *; simpl in Hn |- *. lia.
Qed.

Lemma the_bar_counts_stored_parts_witness : bar storedRun = 3.
Proof.
  destruct (the_bar_counts_stored_parts (world threeParts allTagged) "/media/clip.mp4"
              "clip.mp4" inTurn) as (_ & _ & Hbar).
  destruct (Hbar 10 threeParts eq_refl eq_refl) as [_ Hret].
  exact (Hret eq_refl).
Defined.

Lemma sends_never_block_witness :
  next (run (world threeParts twoRefused) (threePartUpload twoRefused)
            (firstAlone ++ [Send]) (init (threePartUpload twoRefused))) = 2
  /\ errChan (run (world threeParts twoRefused) (threePartUpload twoRefused)
                  (firstAlone ++ [Report 0%nat]) (init (threePartUpload twoRefused)))
     = [NonOKStatus 0 500].
Proof.
  destruct (sends_never_block (world threeParts twoRefused) (threePartUpload twoRefused)
              firstAlone eq_refl) as [HS HR].
  rewrite !run_app. split.
  - destruct HS as [_ HS]; [reflexivity|reflexivity|]. exact HS.
  - destruct (HR 0%nat (NonOKStatus 0 500) eq_refl) as [HR' _]. exact HR'.
Defined.

Lemma the_pool_terminates_witness :
  (length inTurn <= 13)%nat
  /\ exists a, step (world threeParts allStored) (threePartUpload allStored) a
                 (run (world threeParts allStored) (threePartUpload allStored)
                      firstAlone (init (threePartUpload allStored)))
               <> run (world threeParts allStored) (threePartUpload allStored)
                      firstAlone (init (threePartUpload allStored)).
Proof.
  destruct (the_pool_terminates (world threeParts allStored) (threePartUpload allStored))
    as [Hbound Hprogress].
  split.
  - apply (Hbound inTurn). unfold inTurn. cbn [allHappen].
    repeat (split; [intros H; apply (f_equal (measure (threePartUpload allStored))) in H;
                    vm_compute in H; discriminate|]).
    exact I.
  - apply (Hprogress firstAlone). reflexivity.
Defined.

Lemma no_transfer_is_cancelled_witness :
  jobs (run (world threeParts twoRefused) (threePartUpload twoRefused)
            secondErrorFirst (init (threePartUpload twoRefused))) = [2]
  /\ failed (run (world threeParts twoRefused) (threePartUpload twoRefused)
                 secondErrorFirst (init (threePartUpload twoRefused))) = 2%nat.
Proof.
  destruct (no_transfer_is_cancelled (world threeParts twoRefused)
              (threePartUpload twoRefused) secondErrorFirst
              (Some (NonOKStatus 1 503)) eq_refl) as (_ & _ & _ & _ & Hleft).
  split; [reflexivity|]. destruct Hleft as [Hf _]; [vm_compute; congruence|exact Hf].
Defined.

Lemma parts_are_written_by_their_own_part_witness :
  exists url body resp,
    transferPart (world threeParts allStored) (threePartUpload allStored) 1
    = Uploads url body resp
    /\ HeaderETag resp = "b".
Proof.
  destruct (parts_are_written_by_their_own_part (world threeParts allStored)
              (threePartUpload allStored) inTurn 1%nat
              {| PartNumber := 2; ETag := Some "b" |} eq_refl)
    as [_ [[Hzero _]|(url & body & resp & Ht & Hp & _)]].
  - discriminate Hzero.
  - exists url, body, resp. split; [exact Ht|]. by injection Hp as <-.
Defined.

(** X10. When the part with the last index, [numParts - 1], is stored,
    the estimate shown is zero, whatever the time elapsed and whichever
    other parts are still in flight. *)
Theorem last_index_shows_no_time_left w u st k elapsed url body resp :
  state st = Running -> busy st !! k = Some (numParts u - 1) ->
  transferPart w u (numParts u - 1) = Uploads url body resp ->
  length (parts st) = length (presignedURLs u) ->
  remaining (numParts u) (numParts u - 1) elapsed = 0
  /\ label (step w u (Finish k elapsed) st) = Some 0.
Proof.
  intros Hst Hk Ht Hlen.
  assert (remaining (numParts u) (numParts u - 1) elapsed = 0) as H0.
  { unfold remaining.
    replace (numParts u - (numParts u - 1) - 1) with 0 by lia.
    rewrite Z.mul_0_l. reflexivity. }
  split; [done|].
  assert (is_Some (at_index (parts st) (numParts u - 1))) as Hsome.
  { apply at_index_is_Some. rewrite Hlen. apply at_index_is_Some.
    rewrite (transferPart_Uploads_index _ _ _ _ _ _ Ht). eauto. }
  destruct (Finish_effect w u st k elapsed _ _ _ _ Hst Hk Ht Hsome)
    as (_ & _ & _ & _ & _ & _ & _ & _ & _ & _ & Hl).
  by rewrite Hl, H0.
Qed.

Lemma last_index_shows_no_time_left_witness :
  busy (run (world fourParts allStored) fourPartUpload lastPartBeforeThird
            (init fourPartUpload)) = [2; 3]
  /\ label (run (world fourParts allStored) fourPartUpload
                (lastPartBeforeThird ++ [Finish 1 9000000000]) (init fourPartUpload))
     = Some 0.
Proof.
  split; [reflexivity|]. rewrite run_app.
  exact (proj2 (last_index_shows_no_time_left (world fourParts allStored) fourPartUpload
                   (run (world fourParts allStored) fourPartUpload lastPartBeforeThird
                        (init fourPartUpload))
                   1%nat 9000000000 "u3" [Byte.x61]
                   {| StatusCode := 200; Body := Ok ""; HeaderETag := "c" |}
                   eq_refl eq_refl eq_refl eq_refl)).
Defined.

(** X11. [multipartUpload] returns [nil] exactly when no part failed and
    the one call of the Finalizer returned [nil]; an error returned when no
    part failed is the error of [os.Stat] wrapped once, or the error of the
    creation or of the completion of the session wrapped twice. *)
Theorem returns_nil_iff_finalized w filePath fileName sched r :
  let st := multipartUpload w filePath fileName sched in
  state st = Returned r ->
  (r = None
   <-> failures st = []
       /\ exists mediaUploadId uploadID ps,
            completeCalls (calls st) = [(mediaUploadId, uploadID, ps)]
            /\ completeMultipartUpload w mediaUploadId uploadID ps = None)
  /\ (forall e, r = Some e -> failures st = [] ->
        (exists err, e = Wrap "failed to get file info" err)
        \/ (exists err, e = Wrap "failed to get presigned URLs"
                               (Wrap "failed to get presigned URLs from API" err))
        \/ (exists err, e = Wrap "failed to complete multipart upload"
                               (Wrap "failed to complete multipart upload" err))).
Proof.
  intros st Hst. subst st. revert Hst. unfold multipartUpload.
  destruct (Stat w filePath) as [fileSize|err].
  2:{ simpl. intros [= <-]. split.
      - split; [done|]. intros (_ & ? & ? & ? & Hc & _). simpl in Hc. congruence.
      - intros e [= <-] _. eauto. }
  destruct (createMediaUpload w fileName fileSize) as [s|err] eqn:Hcr.
  2:{ simpl. intros [= <-]. split.
      - split; [done|]. intros (_ & ? & ? & ? & Hc & _). simpl in Hc. congruence.
      - intros e [= <-] _. right; left. revert Hcr. unfold createMediaUpload.
        destruct (CreateMediaUpload _ _ _ _); [done|]. intros [= <-]. eauto. }
  set (u := upload w filePath fileSize s).
  pose proof (reachable_Inv w u sched) as HI. simpl. intros Hst.
  pose proof (inv_state _ _ _ HI) as Hstate. pose proof (inv_errors _ _ _ HI) as Herrs.
  rewrite Hst in Hstate. destruct Hstate as (_ & _ & _ & Hrep & Hfin).
  rewrite Hrep, app_nil_r in Herrs.
  destruct (errChan (run w u sched (init u))) as [|e0 es] eqn:Herr.
  - apply Permutation_nil_l in Herrs. symmetry in Herrs. apply fmap_nil_inv in Herrs.
    destruct Hfin as [Hr Hc]. rewrite Hc. unfold finalResult in Hr.
    change (session u) with s in *. split.
    + split.
      * intros ->. split; [done|]. eexists _, _, _. split; [done|].
        by destruct (completeMultipartUpload w _ _ _).
      * intros (_ & id & up & ps & [= <- <- <-] & Hnone). by rewrite Hnone in Hr.
    + intros e -> _. right; right. revert Hr. unfold completeMultipartUpload.
      destruct (CompleteMultipartUpload _ _ _ _ _); [|done].
      intros [= ->]. eauto.
  - destruct Hfin as [-> Hc]. rewrite Hc. split.
    + split; [done|]. intros (_ & ? & ? & ? & Hc' & _). simpl in Hc'. congruence.
    + intros e _ Hnil. rewrite Hnil in Herrs. by apply Permutation_nil_r in Herrs.
Qed.

Lemma returns_nil_iff_finalized_witness :
  failures storedRun = []
  /\ exists mediaUploadId uploadID ps,
       completeCalls (calls storedRun) = [(mediaUploadId, uploadID, ps)]
       /\ completeMultipartUpload (world threeParts allTagged) mediaUploadId uploadID ps
          = None.
Proof.
  destruct (returns_nil_iff_finalized (world threeParts allTagged) "/media/clip.mp4"
              "clip.mp4" inTurn None eq_refl) as [[H _] _].
  exact (H eq_refl).
Defined.

(** ** The [upload] command and ill-formed sessions *)

Lemma validate_accepts w filePath uploadName absPath name :
  validate w filePath uploadName = inr (absPath, name) ->
  exists data,
    filePath <> "" /\ Abs w filePath = Ok absPath /\ file w absPath = Some data /\ data <> []
    /\ ToLower w (Ext absPath) ∈ extensionList
    /\ name = (if decide (uploadName = "") then Base w absPath else uploadName).
Proof.
  unfold validate, notExist, Open.
  destruct (decide (filePath = "")); [done|].
  destruct (Abs w filePath) as [absPath'|]; [|done].
  destruct (file w absPath') as [data|] eqn:Hfile;
    [|destruct (lookup_error w absPath'); [|done];
      by destruct (index allowedExtensions _)].
  destruct (index allowedExtensions _) eqn:Hext; [|done]. simpl.
  destruct (open_error w Validation) eqn:Hopen; [done|].
  rewrite Read_start.
  destruct (read_error w Validation) eqn:Hread; [done|].
  destruct (decide (data = [])); [done|].
  destruct (index allowedMIMEs _) eqn:Hmime; [|done]. intros [= <- <-].
  exists data. apply allowedExtensions_list in Hext. done.
Qed.

(** X12. If the [upload] command makes any call, the first one creates
    the session for a file that passed the validation: it exists, is not
    empty and has an allowed extension; the call carries the number of
    bytes of the file and the name given with [--name], or else the base
    name of the absolute path. *)
Theorem session_is_negotiated_for_the_validated_file w filePath uploadName sched c cs :
  (uploadCmd w filePath uploadName sched).2 = c :: cs ->
  exists absPath data,
    filePath <> "" /\ Abs w filePath = Ok absPath
    /\ file w absPath = Some data /\ data <> []
    /\ ToLower w (Ext absPath) ∈ extensionList
    /\ c = CreateCall (if decide (uploadName = "") then Base w absPath else uploadName)
                      (Z.of_nat (length data)).
Proof.
  unfold uploadCmd.
  destruct (validate w filePath uploadName) as [msg|[absPath name]] eqn:Hv; [done|].
  apply validate_accepts in Hv as (data & Hne & Habs & Hfile & Hdata & Hext & ->).
  simpl. unfold multipartUpload, Stat. rewrite Hfile.
  destruct (stat_error w absPath); [done|].
  destruct (createMediaUpload w _ _); simpl; intros [= <- _]; eauto 10.
Qed.

(** X13. The validation only asks [os.Stat] whether the file exists.  An
    error of [os.Stat] on an existing file passes it and ends the command
    in [multipartUpload], as "failed to get file info", before any call is
    made. *)
Theorem stat_failure_surfaces_after_validation w filePath uploadName sched absPath name e :
  validate w filePath uploadName = inr (absPath, name) ->
  stat_error w absPath = Some e ->
  uploadCmd w filePath uploadName sched
  = (Exit1 (ErrorUploadingFile (Wrap "failed to get file info" e)), []).
Proof.
  intros Hv He. unfold uploadCmd. rewrite Hv.
  apply validate_accepts in Hv as (data & _ & _ & Hfile & _).
  unfold multipartUpload, Stat. by rewrite Hfile, He.
Qed.

Lemma run_over w u sched st : state st <> Running -> run w u sched st = st.
Proof.
  intros Hst. induction sched as [|a sched IH]; [done|].
  change (run w u (a :: sched) st) with (run w u sched (step w u a st)).
  assert (step w u a st = st) as ->; [|done].
  unfold step. by destruct (state st).
Qed.

(** X14. Negative sizes in the answer of the control plane end in a
    run-time panic: a negative [NumParts] when the channel [jobs] is made,
    with no call after the creation of the session, and a negative
    [PartSize] when a worker makes its buffer, before the PUT request. *)
Theorem negative_sizes_panic w filePath fileName sched fileSize s :
  Stat w filePath = Ok fileSize -> createMediaUpload w fileName fileSize = Ok s ->
  (NumParts s < 0 ->
     state (multipartUpload w filePath fileName sched) = Crashed MakeChanSizeOutOfRange
     /\ calls (multipartUpload w filePath fileName sched) = [CreateCall fileName fileSize])
  /\ (PartSize s < 0 ->
      forall partNum, 0 <= partNum < Z.of_nat (length (PresignedURLs s)) ->
        transferPart w (upload w filePath fileSize s) partNum = Panics MakeSliceLenOutOfRange
        /\ putCalls w (upload w filePath fileSize s) partNum = []).
Proof.
  intros HS Hcr. split.
  - intros Hneg. unfold multipartUpload. rewrite HS, Hcr. simpl.
    rewrite run_over.
    + unfold init, numParts; simpl.
      destruct (Z.ltb_spec (NumParts s) 0); [done|lia].
    + unfold init, numParts; simpl.
      destruct (Z.ltb_spec (NumParts s) 0); [done|lia].
  - intros Hneg partNum Hin.
    assert (is_Some (at_index (PresignedURLs s) partNum)) as [url Hurl].
    { by apply at_index_is_Some. }
    unfold putCalls, transferPart, prepare, presignedURLs, partSize; simpl.
    rewrite Hurl. destruct (Z.ltb_spec (PartSize s) 0); [done|lia].
Qed.

(** X15. A part announced past the end of the file: when it starts
    exactly at the end of the file, an empty body is read for its PUT
    request; when it starts beyond it, slicing the buffer panics with the
    negative length [fileSize - partNum * partSize], and no PUT request is
    made. *)
Theorem parts_past_the_end_of_the_file w u partNum url data :
  at_index (presignedURLs u) partNum = Some url ->
  file w (filePath u) = Some data -> fileSize u = Z.of_nat (length data) ->
  open_error w (Worker partNum) = None -> seek_error w (Worker partNum) = None ->
  read_error w (Worker partNum) = None -> put_request_error w url = None ->
  0 <= partNum -> 0 <= partSize u ->
  fileSize u <= partNum * partSize u -> partNum * partSize u + partSize u <= int_max ->
  (partNum * partSize u = fileSize u -> prepare w u partNum = Ready url [])
  /\ (fileSize u < partNum * partSize u ->
      transferPart w u partNum
      = Panics (SliceBoundsOutOfRange (fileSize u - partNum * partSize u) (partSize u))
      /\ putCalls w u partNum = []).
Proof.
  intros Hurl Hfile Hsize Hopen Hseek Hread Hreq Hj HP Hoff Hmax.
  assert (partOffset u partNum = partNum * partSize u) as Ho.
  { unfold partOffset. apply wrap_small. unfold int_min, int_max in *. lia. }
  assert (readSize u partNum
          = if decide (0 < partSize u) then fileSize u - partNum * partSize u else 0) as Hr.
  { unfold readSize. rewrite Ho.
    rewrite (wrap_small (partNum * partSize u + partSize u))
      by (unfold int_min, int_max in *; lia).
    destruct (Z.ltb_spec (fileSize u) (partNum * partSize u + partSize u)).
    - rewrite wrap_small by (unfold int_min, int_max in *; lia).
      destruct (decide (0 < partSize u)); [done|lia].
    - destruct (decide (0 < partSize u)); lia. }
  split.
  - intros Heq.
    assert (readSize u partNum = 0) as Hr0.
    { rewrite Hr. destruct (decide (0 < partSize u)); lia. }
    unfold prepare, Open, Seek, Read.
    rewrite Hurl, Hfile, Hopen, Ho, Hr0, Hseek, Hread, Heq.
    destruct (Z.ltb_spec (partSize u) 0); [lia|].
    destruct (Z.ltb_spec (fileSize u) 0); [lia|]. simpl.
    destruct (Z.ltb_spec (partSize u) 0); [lia|].
    unfold bytesAt; simpl. by rewrite Hreq.
  - intros Hlt.
    assert (0 < partSize u) as Hpos by nia.
    rewrite decide_True in Hr by done.
    unfold putCalls, transferPart, prepare, Open, Seek.
    rewrite Hurl, Hfile, Hopen, Ho, Hr, Hseek.
    destruct (Z.ltb_spec (partSize u) 0); [lia|].
    destruct (Z.ltb_spec (partNum * partSize u) 0); [lia|].
    destruct (Z.ltb_spec (fileSize u - partNum * partSize u) 0); [|lia]. done.
Qed.

Lemma session_is_negotiated_for_the_validated_file_witness :
  exists absPath data,
    file (world threeParts allStored) absPath = Some data
    /\ CreateCall "clip.mp4" 10
       = CreateCall (Base (world threeParts allStored) absPath) (Z.of_nat (length data)).
Proof.
  assert (exists cs, (uploadCmd (world threeParts allStored) "/media/clip.mp4" "" inTurn).2
                     = CreateCall "clip.mp4" 10 :: cs) as [cs Hcalls].
  { vm_compute. eexists. reflexivity. }
  destruct (session_is_negotiated_for_the_validated_file (world threeParts allStored)
              "/media/clip.mp4" "" inTurn (CreateCall "clip.mp4" 10) cs Hcalls)
    as (absPath & data & _ & _ & Hfile & _ & _ & Hc).
  exists absPath, data. split; [exact Hfile|exact Hc].
Defined.

Lemma stat_failure_surfaces_after_validation_witness :
  uploadCmd deniedStat "/media/clip.mp4" "" inTurn
  = (Exit1 (ErrorUploadingFile (Wrap "failed to get file info" (Raw "permission denied"))),
     []).
Proof.
  exact (stat_failure_surfaces_after_validation deniedStat "/media/clip.mp4" "" inTurn
           "/media/clip.mp4" "clip.mp4" (Raw "permission denied") eq_refl eq_refl).
Defined.

Lemma negative_sizes_panic_witness :
  state (multipartUpload (world negativeSizes allStored) "/media/clip.mp4" "clip.mp4" inTurn)
  = Crashed MakeChanSizeOutOfRange
  /\ transferPart (world negativeSizes allStored)
                  (upload (world negativeSizes allStored) "/media/clip.mp4" 10 negativeSizes) 0
     = Panics MakeSliceLenOutOfRange.
Proof.
  destruct (negative_sizes_panic (world negativeSizes allStored) "/media/clip.mp4"
              "clip.mp4" inTurn 10 negativeSizes eq_refl eq_refl) as [Hn Hp].
  split.
  - apply Hn. reflexivity.
  - apply Hp; [reflexivity|]. simpl. lia.
Defined.

Lemma parts_past_the_end_of_the_file_witness :
  prepare (world twoPartsTooMany allStored)
          (upload (world twoPartsTooMany allStored) "/media/clip.mp4" 10 twoPartsTooMany) 2
  = Ready "u2" []
  /\ transferPart (world twoPartsTooMany allStored)
                  (upload (world twoPartsTooMany allStored) "/media/clip.mp4" 10
                          twoPartsTooMany) 3
     = Panics (SliceBoundsOutOfRange (-5) 5).
Proof.
  split.
  - apply (parts_past_the_end_of_the_file (world twoPartsTooMany allStored)
             (upload (world twoPartsTooMany allStored) "/media/clip.mp4" 10 twoPartsTooMany)
             2 "u2" tenBytes); try reflexivity; vm_compute; congruence.
  - apply (parts_past_the_end_of_the_file (world twoPartsTooMany allStored)
             (upload (world twoPartsTooMany allStored) "/media/clip.mp4" 10 twoPartsTooMany)
             3 "u3" tenBytes); try reflexivity; vm_compute; congruence.
Defined.

(** ** The client, [whoami] and the root command *)

Lemma headerGet_setHeader k v req : headerGet k (setHeader k v req) = v.
Proof.
  unfold headerGet, setHeader; simpl. by rewrite filter_cons_True.
Qed.

Lemma headerGet_setHeader_ne k k' v req :
  k <> k' -> headerGet k (setHeader k' v req) = headerGet k req.
Proof.
  intros Hne. unfold headerGet, setHeader; simpl.
  rewrite filter_cons_False by (simpl; congruence).
  f_equal. f_equal. f_equal.
  induction (Header req) as [|[k0 v0] hs IH]; [done|].
  destruct (decide (k0 = k')) as [->|Hk0].
  - rewrite (filter_cons_False (fun kv => kv.1 <> k')) by (simpl; tauto).
    rewrite (filter_cons_False (fun kv => kv.1 = k)) by (simpl; congruence). done.
  - rewrite (filter_cons_True (fun kv => kv.1 <> k')) by done.
    destruct (decide (k0 = k)) as [->|Hk].
    + rewrite !(filter_cons_True (fun kv => kv.1 = k)) by done. by rewrite IH.
    + rewrite !(filter_cons_False (fun kv => kv.1 = k)) by done. done.
Qed.

Section ClientProperties.
Context (net : Network).
Context `{JSON string} `{JSON jsonMap}.

(** X16. Every request that [DoRequest] sends carries the API key as
    [Authorization: Bearer <key>] and [Content-Type: application/json]:
    what [DoRequest] returns does not depend on how the network treats
    requests without these headers. *)
Theorem requests_carry_the_key {P T : Type} `{JSON P} `{JSON T}
    (send : Request -> result Response)
    (c : Client) (method path : string) (params : option P) (target : T) :
  (forall req,
     headerGet "Authorization" req = "Bearer " +:+ apiKey c ->
     headerGet "Content-Type" req = "application/json" ->
     send req = Do net req) ->
  DoRequest {| JoinPath := JoinPath net; NewRequest := NewRequest net; Do := send |}
            c method path params target
  = DoRequest net c method path params target.
Proof.
  intros Hsend. unfold DoRequest; simpl.
  destruct (match params with
            | Some p => jsonData <- Marshal p;; Ok (Some jsonData)
            | None => Ok None
            end) as [body|]; [|done]. simpl.
  destruct (NewRequest net method _ body) as [req|]; [|done]. simpl.
  rewrite Hsend; [done| |].
  - rewrite headerGet_setHeader_ne by done. apply headerGet_setHeader.
  - apply headerGet_setHeader.
Qed.

(** X17. When [DoRequest] returns without an error, either the status is
    in the 200 range, [Data] is the decoded target and [Error] is empty, or
    the status is outside it, [Data] is [nil] and the target is as the
    caller passed it. *)
Theorem target_is_filled_only_on_success {P T : Type} `{JSON P} `{JSON T}
    (c : Client) (method path : string) (params : option P) (target : T) r t :
  DoRequest net c method path params target = Ok (r, t) ->
  (200 <= Status r < 300 /\ Data r = Some t /\ Error r = "")
  \/ ((Status r < 200 \/ 300 <= Status r) /\ Data r = None /\ t = target).
Proof.
  unfold DoRequest.
  destruct (match params with
            | Some p => jsonData <- Marshal p;; Ok (Some jsonData)
            | None => Ok None
            end) as [body|]; [|done]. simpl.
  destruct (NewRequest net method _ body) as [req|]; [|done]. simpl.
  destruct (Do net _) as [resp|]; [|done]. simpl.
  destruct (Z.ltb_spec (StatusCode resp) 200); simpl.
  - destruct (text <- Body resp;; Decode text ""); [|done].
    intros [= <- <-]. right. simpl. split; [lia|done].
  - destruct (Z.leb_spec 300 (StatusCode resp)).
    + destruct (text <- Body resp;; Decode text ""); [|done].
      intros [= <- <-]. right. simpl. split; [lia|done].
    + destruct (Body resp) as [text|]; [|done]. simpl.
      destruct (if debug c then _ else _); [|done]. simpl.
      destruct (Unmarshal text target); [|done]. simpl.
      intros [= <- <-]. left. simpl. split; [lia|done].
Qed.

(** X18. The debug mode changes no result: what [DoRequest] returns
    without an error with [debug] on, it returns with [debug] off.  For
    the response that the request receives, the two agree when its body
    decodes as a JSON object; when the body of a 200-range response does
    not, the call with [debug] on returns the error of that decoding,
    whatever the call with [debug] off returns. *)
Theorem debug_mode_only_adds_failures {P T : Type} `{JSON P} `{JSON T}
    (url key method path : string) (params : option P) (target : T) :
  (forall r,
     DoRequest net (NewClient url key [true]) method path params target = Ok r ->
     DoRequest net (NewClient url key []) method path params target = Ok r)
  /\ (forall body req resp text,
        match params with
        | Some p => jsonData <- Marshal p;; Ok (Some jsonData)
        | None => Ok None
        end = Ok body ->
        NewRequest net method (JoinPath net url path) body = Ok req ->
        Do net (setHeader "Content-Type" "application/json"
                  (setHeader "Authorization" ("Bearer " +:+ key) req)) = Ok resp ->
        Body resp = Ok text ->
        (forall m, Unmarshal text (JSONMap "") = Ok m ->
           DoRequest net (NewClient url key [true]) method path params target
           = DoRequest net (NewClient url key []) method path params target)
        /\ (forall e, 200 <= StatusCode resp < 300 ->
              Unmarshal text (JSONMap "") = Err e ->
              DoRequest net (NewClient url key [true]) method path params target = Err e)).
Proof.
  split.
  - unfold DoRequest; simpl.
    destruct (match params with
              | Some p => jsonData <- Marshal p;; Ok (Some jsonData)
              | None => Ok None
              end) as [body|]; [|done]. simpl.
    destruct (NewRequest net method _ body) as [req|]; [|done]. simpl.
    destruct (Do net _) as [resp|]; [|done]. simpl.
    destruct ((StatusCode resp <? 200) || (300 <=? StatusCode resp)); [done|].
    destruct (Body resp) as [text|]; [|done]. simpl.
    intros r. by destruct (Unmarshal text (JSONMap "")).
  - intros body req resp text Hbody Hreq Hdo Htext.
    unfold DoRequest; simpl. rewrite Hbody; simpl. rewrite Hreq; simpl.
    rewrite Hdo; simpl. rewrite Htext; simpl. split.
    + intros m Hm. rewrite Hm. done.
    + intros e Hstatus He.
      destruct (Z.ltb_spec (StatusCode resp) 200); [lia|].
      destruct (Z.leb_spec 300 (StatusCode resp)); [lia|]. simpl.
      by rewrite He.
Qed.

Context `{JSON MeResponse}.

(** X19. [whoami] sends a [GET] of [/api/v0/me] without a body.  When the
    API refuses it with a status outside the 200 range and a JSON string as
    body, [Me] returns the zero response without an error and the command
    prints an empty line; an error is printed when that body is not a JSON
    string; a 200-range response prints the handle decoded from it. *)
Theorem whoami_after_a_refusal (c : Client) req resp text :
  NewRequest net "GET" (JoinPath net (baseURL c) "/api/v0/me") None = Ok req ->
  Do net (setHeader "Content-Type" "application/json"
            (setHeader "Authorization" ("Bearer " +:+ apiKey c) req)) = Ok resp ->
  Body resp = Ok text ->
  (StatusCode resp < 200 \/ 300 <= StatusCode resp ->
     (forall msg, Decode text "" = Ok msg ->
        Me net c = Ok zeroMeResponse /\ whoamiCmd net c = PrintLine "")
     /\ (forall e, Decode text "" = Err e ->
           whoamiCmd net c = PrintError (APIError e)))
  /\ (200 <= StatusCode resp < 300 -> debug c = false ->
      forall data, Unmarshal text zeroMeResponse = Ok data ->
        whoamiCmd net c = PrintLine (Handle (Profile data))).
Proof.
  intros Hreq Hdo Hbody.
  unfold whoamiCmd, Me, Get, DoRequest. simpl. rewrite Hreq. simpl. rewrite Hdo. simpl.
  rewrite Hbody. simpl. split.
  - intros Hstatus.
    assert ((StatusCode resp <? 200) || (300 <=? StatusCode resp) = true) as ->.
    { destruct (Z.ltb_spec (StatusCode resp) 200); [done|].
      destruct (Z.leb_spec 300 (StatusCode resp)); [done|lia]. }
    split.
    + intros msg ->. done.
    + intros e ->. done.
  - intros Hstatus Hdebug data Hdata.
    assert ((StatusCode resp <? 200) || (300 <=? StatusCode resp) = false) as ->.
    { destruct (Z.ltb_spec (StatusCode resp) 200); [lia|].
      destruct (Z.leb_spec 300 (StatusCode resp)); [lia|done]. }
    rewrite Hdebug. simpl. by rewrite Hdata.
Qed.
End ClientProperties.

(** X20. [PersistentPreRun] leaves with [os.Exit(1)] exactly when neither
    the flag nor the environment gives a key and the command is not
    [version]; otherwise the client has the base URL and the debug flag
    given, and the key of the flag when there is one, else that of the
    environment ([version] does not read the environment). *)
Theorem the_key_comes_from_the_flag_or_the_environment
    (use flagKey env url : string) (dbg : bool) :
  (PersistentPreRun use flagKey env url dbg = None
   <-> flagKey = "" /\ env = "" /\ use <> "version")
  /\ forall c, PersistentPreRun use flagKey env url dbg = Some c ->
       baseURL c = url /\ debug c = dbg
       /\ apiKey c
          = (if decide (flagKey = "") then if decide (use = "version") then "" else env
             else flagKey).
Proof.
  unfold PersistentPreRun.
  destruct (decide (flagKey = "")) as [->|Hkey].
  - rewrite bool_decide_eq_true_2 by done. simpl.
    destruct (decide (use = "version")) as [->|Huse].
    + rewrite bool_decide_eq_true_2 by done. simpl. split.
      * split; [done|]. by intros (_ & _ & ?).
      * by intros c [= <-].
    + rewrite bool_decide_eq_false_2 by done. simpl.
      destruct (decide (env = "")) as [->|Henv].
      * split; [done|]. by intros c.
      * split; [|by intros c [= <-]]. split; [done|]. by intros (_ & ? & _).
  - rewrite bool_decide_eq_false_2 by done. simpl. split.
    + split; [done|]. by intros (? & _).
    + by intros c [= <-].
Qed.

Lemma requests_carry_the_key_witness :
  @DoRequest (keyChecking "key" (sampleNetwork (ok200 "session") (ok200 "done")))
             (json_string (sampleCodec threeParts)) (json_map (sampleCodec threeParts))
             _ _ (json_create_request (sampleCodec threeParts))
             (json_create_response (sampleCodec threeParts))
             sampleClient "POST" "/api/v0/media_uploads"
             (Some {| filename := "clip.mp4"; size := 10 |}) zeroCreateMediaUploadResponse
  = @DoRequest (sampleNetwork (ok200 "session") (ok200 "done"))
             (json_string (sampleCodec threeParts)) (json_map (sampleCodec threeParts))
             _ _ (json_create_request (sampleCodec threeParts))
             (json_create_response (sampleCodec threeParts))
             sampleClient "POST" "/api/v0/media_uploads"
             (Some {| filename := "clip.mp4"; size := 10 |}) zeroCreateMediaUploadResponse.
Proof.
  apply (@requests_carry_the_key (sampleNetwork (ok200 "session") (ok200 "done"))
           (json_string (sampleCodec threeParts)) (json_map (sampleCodec threeParts))
           _ _ (json_create_request (sampleCodec threeParts))
           (json_create_response (sampleCodec threeParts))
           (Do (keyChecking "key" (sampleNetwork (ok200 "session") (ok200 "done"))))
           sampleClient).
  intros req Hauth _. simpl. by rewrite decide_True.
Defined.

Lemma target_is_filled_only_on_success_witness :
  (200 <= 404 < 300 /\ @None CreateMediaUploadResponse = Some zeroCreateMediaUploadResponse
   /\ "not found" = "")
  \/ ((404 < 200 \/ 300 <= 404) /\ @None CreateMediaUploadResponse = None
      /\ zeroCreateMediaUploadResponse = zeroCreateMediaUploadResponse).
Proof.
  assert (@DoRequest (network refusingControlPlane)
            (json_string (codec refusingControlPlane)) (json_map (codec refusingControlPlane))
            _ _ (json_create_request (codec refusingControlPlane))
            (json_create_response (codec refusingControlPlane))
            (client refusingControlPlane) "POST" "/api/v0/media_uploads"
            (Some {| filename := "clip.mp4"; size := 10 |}) zeroCreateMediaUploadResponse
          = Ok ({| Data := None; Error := "not found"; Status := 404 |},
                zeroCreateMediaUploadResponse)) as Hd.
  { vm_compute. reflexivity. }
  exact (target_is_filled_only_on_success _ _ _ _ _ _ _ _ Hd).
Defined.

Lemma whoami_after_a_refusal_witness :
  @whoamiCmd (sampleNetwork unauthorized unauthorized)
             (json_string (sampleCodec threeParts)) (json_map (sampleCodec threeParts))
             sampleMe sampleClient
  = PrintLine "".
Proof.
  destruct (@whoami_after_a_refusal (sampleNetwork unauthorized unauthorized)
              (json_string (sampleCodec threeParts)) (json_map (sampleCodec threeParts))
              sampleMe sampleClient
              {| Method := "GET"; URL := "https://api.reel.tube/api/v0/me"; Header := [];
                 ReqBody := None |}
              unauthorized (quote +:+ "unauthorized" +:+ quote) eq_refl eq_refl eq_refl)
    as [Hrefused _].
  destruct Hrefused as [Hmsg _]; [right; vm_compute; congruence|].
  exact (proj2 (Hmsg "unauthorized" eq_refl)).
Defined.

Lemma debug_mode_only_adds_failures_witness :
  @DoRequest (sampleNetwork (ok200 "session") (ok200 "done"))
             (json_string (sampleCodec threeParts)) (json_map (sampleCodec threeParts))
             _ _ (json_create_request (sampleCodec threeParts))
             (json_create_response (sampleCodec threeParts))
             (NewClient "https://api.reel.tube" "key" [true]) "POST" "/api/v0/media_uploads"
             (Some {| filename := "clip.mp4"; size := 10 |}) zeroCreateMediaUploadResponse
  = @DoRequest (sampleNetwork (ok200 "session") (ok200 "done"))
             (json_string (sampleCodec threeParts)) (json_map (sampleCodec threeParts))
             _ _ (json_create_request (sampleCodec threeParts))
             (json_create_response (sampleCodec threeParts))
             (NewClient "https://api.reel.tube" "key" []) "POST" "/api/v0/media_uploads"
             (Some {| filename := "clip.mp4"; size := 10 |}) zeroCreateMediaUploadResponse
  /\ @DoRequest (sampleNetwork (ok200 "session") (ok200 (quoted "pong")))
             (json_string (sampleCodec threeParts)) (json_map (sampleCodec threeParts))
             jsonMap string (json_map (sampleCodec threeParts))
             (json_string (sampleCodec threeParts))
             (NewClient "https://api.reel.tube" "key" [true]) "GET" "/api/v0/ping" None ""
     = Err (Raw "json: cannot unmarshal into Go value of type map[string]interface {}")
  /\ @DoRequest (sampleNetwork (ok200 "session") (ok200 (quoted "pong")))
             (json_string (sampleCodec threeParts)) (json_map (sampleCodec threeParts))
             jsonMap string (json_map (sampleCodec threeParts))
             (json_string (sampleCodec threeParts))
             (NewClient "https://api.reel.tube" "key" []) "GET" "/api/v0/ping" None ""
     = Ok ({| Data := Some "pong"; Error := ""; Status := 200 |}, "pong").
Proof.
  split; [|split; [|vm_compute; reflexivity]].
  - destruct (@debug_mode_only_adds_failures
                (sampleNetwork (ok200 "session") (ok200 "done"))
                (json_string (sampleCodec threeParts)) (json_map (sampleCodec threeParts))
                _ _ (json_create_request (sampleCodec threeParts))
                (json_create_response (sampleCodec threeParts))
                "https://api.reel.tube" "key" "POST" "/api/v0/media_uploads"
                (Some {| filename := "clip.mp4"; size := 10 |})
                zeroCreateMediaUploadResponse) as [_ Hresp].
    destruct (Hresp (Some "{}")
                {| Method := "POST"; URL := "https://api.reel.tube/api/v0/media_uploads";
                   Header := []; ReqBody := Some "{}" |}
                (ok200 "session") "session" eq_refl eq_refl eq_refl eq_refl)
      as [Hsame _].
    exact (Hsame (JSONMap "session") eq_refl).
  - destruct (@debug_mode_only_adds_failures
                (sampleNetwork (ok200 "session") (ok200 (quoted "pong")))
                (json_string (sampleCodec threeParts)) (json_map (sampleCodec threeParts))
                jsonMap string (json_map (sampleCodec threeParts))
                (json_string (sampleCodec threeParts))
                "https://api.reel.tube" "key" "GET" "/api/v0/ping" None "")
      as [_ Hresp].
    destruct (Hresp None
                {| Method := "GET"; URL := "https://api.reel.tube/api/v0/ping";
                   Header := []; ReqBody := None |}
                (ok200 (quoted "pong")) (quoted "pong") eq_refl eq_refl eq_refl eq_refl)
      as [_ Hfails].
    apply Hfails; [vm_compute; split; congruence|reflexivity].
Defined.

Lemma the_key_comes_from_the_flag_or_the_environment_witness :
  exists c, PersistentPreRun "whoami" "" "envkey" "https://api.reel.tube" false = Some c
            /\ apiKey c = "envkey".
Proof.
  eexists. split; [reflexivity|].
  destruct (the_key_comes_from_the_flag_or_the_environment
              "whoami" "" "envkey" "https://api.reel.tube" false) as [_ Hkey].
  destruct (Hkey _ eq_refl) as (_ & _ & Hk). exact Hk.
Defined.

(** ** Schedules *)

Lemma pool_clean_return w u st r :
  Inv w u st -> 0 < concurrency u -> state st = Returned r -> failures st = [] ->
  r = finalResult w u (parts st)
  /\ 0 <= numParts u
  /\ (forall i, 0 <= i < numParts u ->
        exists url body resp, transferPart w u i = Uploads url body resp
                              /\ parts st !! Z.to_nat i = Some (partOf i resp))
  /\ (forall i : nat, numParts u <= Z.of_nat i -> (i < length (parts st))%nat ->
        parts st !! i = Some zeroPart).
Proof.
  intros HI Hc Hst Hf. fields HI. rewrite Hst in Hstate.
  destruct Hstate as (Hcl & Hi & Hb & Hr & Hs).
  rewrite Hf, Hr, app_nil_r in Herrs. apply Permutation_nil_r in Herrs.
  rewrite Herrs in Hs, Hfailed. destruct Hs as [-> _].
  assert (Hn : 0 <= numParts u).
  { destruct (Z.le_gt_cases 0 (numParts u)); [done|].
    rewrite Hneg in Hst by lia. done. }
  rewrite Hb, Hr, Hi, Hfailed in Hwork. simpl in Hwork.
  destruct Hexit as [_ Hj]; [lia|]. rewrite Hj, Hb, Hf in Hjobs. simpl in Hjobs.
  assert (next st = numParts u) as Hnx by (specialize (Hclosed Hcl); lia).
  rewrite Hnx in Hjobs.
  split; [done|]. split; [done|]. split.
  - intros i Hi'. apply Hcomp. rewrite Hjobs. apply elem_of_seqZ. lia.
  - intros i Hi' Hl. apply Hunt; [|done]. rewrite Hjobs. intros H%elem_of_seqZ. lia.
Qed.

Lemma pool_schedule_independent w u st st' :
  Inv w u st -> Inv w u st' -> 0 < concurrency u ->
  state st = Returned None -> state st' <> Running ->
  state st' = Returned None /\ parts st' = parts st.
Proof.
  intros HI HI' Hc Hst Hst'.
  destruct (pool_success _ _ _ HI Hc Hst) as (_ & Hlen & Hn & _ & _ & Hall & Hrest).
  assert (failures st' = []) as Hf.
  { destruct (failures st') as [|[j e] fs] eqn:E; [done|].
    assert (0 <= j < numParts u) as Hj.
    { eapply finished_range; [exact HI'|]. rewrite E. apply elem_of_app. left.
      apply list_elem_of_here. }
    pose proof (inv_failures _ _ _ HI' j e) as Hfails. rewrite E in Hfails.
    specialize (Hfails (list_elem_of_here _ _)).
    destruct (Hall j Hj) as (? & ? & ? & Ht & _). congruence. }
  assert (exists r, state st' = Returned r) as [r Hr].
  { pose proof (inv_state _ _ _ HI') as Hstate.
    destruct (state st') as [|p|r]; [done| |eauto].
    destruct Hstate as [_ [[Hneg _]|(j & Hj & Hp)]]; [lia|].
    assert (0 <= j < next st') as Hj'.
    { eapply tracked_range; [exact (inv_jobs _ _ _ HI')|].
      rewrite !elem_of_app. auto. }
    pose proof (inv_next _ _ _ HI').
    destruct (Hall j) as (? & ? & ? & Ht & _); [lia|]. congruence. }
  destruct (pool_clean_return _ _ _ _ HI' Hc Hr Hf) as (Hfin & _ & Hall' & Hrest').
  assert (parts st' = parts st) as Hparts.
  { apply list_eq. intros i.
    pose proof (inv_parts _ _ _ HI') as Hlen'.
    destruct (decide (i < length (parts st))%nat) as [Hlt|Hge].
    - destruct (decide (Z.of_nat i < numParts u)) as [Hin|Hout].
      + destruct (Hall (Z.of_nat i)) as (? & ? & resp & Ht & Hp); [lia|].
        destruct (Hall' (Z.of_nat i)) as (? & ? & resp' & Ht' & Hp'); [lia|].
        rewrite Nat2Z.id in Hp, Hp'. rewrite Hp, Hp'. congruence.
      + rewrite Hrest by lia. rewrite Hrest' by lia. done.
    - rewrite !lookup_ge_None_2 by lia. done. }
  split; [|done].
  rewrite Hr, Hfin, Hparts. f_equal.
  pose proof (inv_state _ _ _ HI) as Hstate. rewrite Hst in Hstate.
  destruct Hstate as (_ & _ & _ & _ & Hs).
  destruct (errChan st); [|by destruct Hs]. by destruct Hs as [<- _].
Qed.

(** X21. The outcome does not depend on the interleaving of the
    goroutines: if one schedule makes [multipartUpload] return [nil], every
    schedule that ends returns [nil], with the same slice [parts] and the
    same call of the Finalizer. *)
Theorem the_outcome_does_not_depend_on_the_schedule w filePath fileName sched sched' :
  state (multipartUpload w filePath fileName sched) = Returned None ->
  state (multipartUpload w filePath fileName sched') <> Running ->
  state (multipartUpload w filePath fileName sched') = Returned None
  /\ parts (multipartUpload w filePath fileName sched')
     = parts (multipartUpload w filePath fileName sched)
  /\ completeCalls (calls (multipartUpload w filePath fileName sched'))
     = completeCalls (calls (multipartUpload w filePath fileName sched)).
Proof.
  unfold multipartUpload.
  destruct (Stat w filePath) as [fileSize|]; [|done].
  destruct (createMediaUpload w fileName fileSize) as [s|]; [|done].
  set (u := upload w filePath fileSize s). simpl. intros Hst Hst'.
  assert (Hc : 0 < concurrency u).
  { simpl. pose proof (systemConcurrency_ge w). lia. }
  pose proof (reachable_Inv w u sched) as HI. pose proof (reachable_Inv w u sched') as HI'.
  destruct (pool_schedule_independent _ _ _ _ HI HI' Hc Hst Hst') as [Hr Hparts].
  split; [done|]. split; [done|].
  destruct (pool_success _ _ _ HI Hc Hst) as (-> & _).
  destruct (pool_success _ _ _ HI' Hc Hr) as (-> & _). by rewrite Hparts.
Qed.

Lemma the_outcome_does_not_depend_on_the_schedule_witness :
  parts (multipartUpload (world threeParts allTagged) "/media/clip.mp4" "clip.mp4"
           twoAtATime)
  = parts storedRun.
Proof.
  refine (proj1 (proj2 (the_outcome_does_not_depend_on_the_schedule
                          (world threeParts allTagged)
                          "/media/clip.mp4" "clip.mp4" inTurn twoAtATime eq_refl _))).
  vm_compute. congruence.
Defined.

Lemma step_completed_prefix w u a st : completed st `prefix_of` completed (step w u a st).
Proof.
  unfold step. destruct (state st); [|reflexivity..].
  destruct a; repeat case_match; simpl; try reflexivity.
  by apply prefix_app_r.
Qed.

Lemma run_completed_prefix w u sched st : completed st `prefix_of` completed (run w u sched st).
Proof.
  revert st. induction sched as [|a sched IH]; intros st; [done|].
  change (run w u (a :: sched) st) with (run w u sched (step w u a st)).
  etrans; [apply step_completed_prefix|apply IH].
Qed.

(** X22. An entry of [parts] that has been written is kept: it belongs
    to a completed part, carries its index plus one as [PartNumber], and is
    the same in every later state of the run. *)
Theorem stored_entries_are_kept w u sched sched' (i : nat) p :
  parts (run w u sched (init u)) !! i = Some p -> p <> zeroPart ->
  Z.of_nat i ∈ completed (run w u sched (init u))
  /\ PartNumber p = Z.of_nat i + 1
  /\ parts (run w u (sched ++ sched') (init u)) !! i = Some p.
Proof.
  intros Hp Hnz.
  pose proof (reachable_Inv w u sched) as HI.
  pose proof (reachable_Inv w u (sched ++ sched')) as HI'.
  destruct (decide (Z.of_nat i ∈ completed (run w u sched (init u)))) as [Hin|Hout].
  2:{ rewrite (inv_untouched _ _ _ HI i Hout) in Hp by (by eapply lookup_lt_Some).
      congruence. }
  destruct (inv_completed _ _ _ HI _ Hin) as (url & body & resp & Ht & Hi).
  rewrite Nat2Z.id, Hp in Hi. injection Hi as ->.
  split; [done|]. split; [done|].
  assert (Z.of_nat i ∈ completed (run w u (sched ++ sched') (init u))) as Hin'.
  { rewrite run_app. destruct (run_completed_prefix w u sched' (run w u sched (init u)))
      as [k ->]. apply elem_of_app. by left. }
  destruct (inv_completed _ _ _ HI' _ Hin') as (url' & body' & resp' & Ht' & Hi').
  rewrite Nat2Z.id in Hi'. rewrite Hi'. congruence.
Qed.

Lemma stored_entries_are_kept_witness :
  parts (run (world threeParts allStored) (threePartUpload allStored)
             (firstStored ++ [Receive; Finish 0 2000000000]) 
             (init (threePartUpload allStored))) !! 0%nat
  = Some {| PartNumber := 1; ETag := Some "a" |}.
Proof.
  assert (parts (run (world threeParts allStored) (threePartUpload allStored)
                     firstStored (init (threePartUpload allStored))) !! 0%nat
          = Some {| PartNumber := 1; ETag := Some "a" |}) as Hp.
  { vm_compute. reflexivity. }
  assert ({| PartNumber := 1; ETag := Some "a" |} <> zeroPart) as Hnz by discriminate.
  exact (proj2 (proj2 (stored_entries_are_kept (world threeParts allStored)
                         (threePartUpload allStored) firstStored
                         [Receive; Finish 0 2000000000] 0%nat _ Hp Hnz))).
Defined.

Lemma step_jobs_fifo w u a st : jobs st = waiting st -> jobs (step w u a st) = waiting (step w u a st).
Proof.
  unfold waiting. intros Hj. unfold step. destruct (state st); [|exact Hj..].
  destruct a.
  - destruct (_ && _); [|exact Hj]. simpl.
    rewrite length_app, Nat2Z.inj_add. change (Z.of_nat (length [next st])) with 1.
    rewrite seqZ_app by lia.
    rewrite Hj at 1. f_equal; [f_equal; lia|].
    replace (next st + 1 - (Z.of_nat (length (jobs st)) + 1) + Z.of_nat (length (jobs st)))
      with (next st) by lia.
    rewrite seqZ_cons by lia. done.
  - destruct (_ && _); exact Hj.
  - destruct (idle st); [exact Hj|].
    destruct (jobs st) as [|partNum rest] eqn:E; [by rewrite E|]. simpl.
    simpl length in Hj. rewrite Nat2Z.inj_succ in Hj. rewrite seqZ_cons in Hj by lia.
    injection Hj as _ Hj. rewrite Hj at 1. f_equal; lia.
  - destruct (busy st !! k); [|exact Hj].
    destruct (transferPart w u z); try exact Hj.
    destruct (at_index (parts st) z); exact Hj.
  - destruct (reporting st !! k); [|exact Hj]. destruct (_ <? _)%nat; exact Hj.
  - destruct (idle st); [exact Hj|].
    destruct (jobs st) eqn:E; [|by rewrite E]. destruct (closed st); [exact Hj|by rewrite E].
  - destruct (closed st), (idle st), (busy st), (reporting st); try exact Hj.
    destruct (errChan st); exact Hj.
Qed.

Lemma reachable_jobs_fifo w u sched :
  jobs (run w u sched (init u)) = waiting (run w u sched (init u)).
Proof.
  unfold run. assert (jobs (init u) = waiting (init u)) as H0 by done.
  revert H0. generalize (init u).
  induction sched as [|a sched IH]; intros st HI; simpl; [done|].
  apply IH. by apply step_jobs_fifo.
Qed.

(** X23. Parts are started in index order: the jobs waiting in the
    channel are the last ones sent, in increasing order, and every part
    that a worker has received has a smaller index than every part still
    waiting. *)
Theorem parts_are_started_in_index_order w u sched :
  let st := run w u sched (init u) in
  jobs st = seqZ (next st - Z.of_nat (length (jobs st))) (Z.of_nat (length (jobs st)))
  /\ forall i j, i ∈ jobs st -> j ∈ busy st ++ (failures st).*1 ++ completed st -> j < i.
Proof.
  intros st. pose proof (reachable_jobs_fifo w u sched) as Hfifo. fold st in Hfifo.
  split; [done|]. intros i j Hi Hj.
  pose proof (reachable_Inv w u sched) as HI. fold st in HI.
  pose proof (inv_jobs _ _ _ HI) as Hperm.
  assert (NoDup (jobs st ++ busy st ++ (failures st).*1 ++ completed st)) as Hnd.
  { rewrite Hperm. apply NoDup_seqZ. }
  apply NoDup_app in Hnd as (_ & Hdisj & _).
  assert (0 <= j < next st) as Hjr.
  { eapply tracked_range; [exact Hperm|]. apply elem_of_app. by right. }
  assert (j ∉ jobs st) as Hnot.
  { intros Hin. by apply (Hdisj j). }
  unfold waiting in Hfifo. rewrite Hfifo in Hi, Hnot.
  apply elem_of_seqZ in Hi. rewrite elem_of_seqZ in Hnot. lia.
Qed.
